(* ===== verification/_CoqProject ===== *)
-Q . S2P
Prelude.v
JsString.v
JsValue.v
Prog.v
Url.v
Dom.v
Path.v
Generate.v
Trace.v
Fixture.v
Validate.v
Config.v
Icon.v
Handler.v
World.v
Route.v
Threads.v
Pool.v
Process.v
