(* ===== verification/Prelude.v ===== *)
(** * Verification of applicationize's CRX generator (src/api/routes/generate.js)

    ** The program

    The program is one Koa route, [POST /generate].  Given a URL it builds a
    configuration for a Chrome extension (title, icon, file name), asks the
    [crx] packaging library for a signed archive and sends it back.  The
    source is a single file of twelve functions; the generator functions
    [yield] promises, and the libraries they call are Node's [url], [path]
    and [fs], and the packages [request], [cheerio], [pem] and [crx].

    - [module.exports] (lines 14-26) calls [buildCrxConfig], [generateCrx]
      and [sendCrx] in turn.
    - [buildCrxConfig] (28-58) validates the URL with [parseUrl] (76-91),
      builds the default configuration, fetches the page with [getPageDOM]
      (93-107) inside a [try], and reads the icon and the title
      ([getCrxTitle], 60-73) from it.
    - [generateCrx] (109-149) creates a certificate, loads the template of
      the extension, writes three fields of its manifest, chooses the icon
      ([overrideIconIfExists] 165-186, [downloadIcon] 151-163,
      [setPlaceholderIcon] 188-205, with the helpers [copyLocalFile] 240-260
      and [downloadFile] 218-238) and packs.
    - [sendCrx] (207-216) sets two headers and the body of the response.

    ** The model

    A generator function is a value of [prog io Js.exn A] ([Prog]): a finite
    tree whose leaves return a value or throw an exception and whose nodes
    are calls to a library, one branch per answer.  [yield] is [bind],
    [try]/[catch] is [try_catch], a call that may throw answers a sum.  The
    source has no loop and no recursion, so the trees are finite and no fuel
    is needed: every definition is a total function and evaluates by
    [vm_compute]; that a run is short is a theorem (at most nine calls,
    [module_exports_calls]), not an assumption.  Pure functions
    ([parseUrl], [getCrxTitle]) are Rocq functions; objects that the source
    mutates ([crxConfig], the manifest,
    the Koa context) are records passed along, and where the source mutates
    an object that its caller still holds (the [iconOverriden] flag set by
    [overrideIconIfExists]) the function returns the object.

    ** Layout (dependency order)

    - [Prelude] (this file): tactics, hint databases, lemmas on options and
      lists that the components share.
    - [JsString]: the string methods the program calls ([toLowerCase],
      [toUpperCase], [indexOf], [replace], [substring], [trim], [match]
      against [[A-Z]]) with their laws.
    - [JsValue] (module [Js]): exceptions, truthiness, [||] and [!], and
      the values a field of the request body can hold ([Js.value]).
    - [Prog]: programs, their laws, traces ([steps], [exec]), the
      interpreter [run] over a handler, the bound [at_most] on the calls of
      a class, postconditions [wp], program equivalence [≡].
    - [Url]: the interfaces [UrlParse], [UrlResolve], the record
      [ParsedUrl] and the laws [UrlParseLaws] that the program relies on
      (lower case, and no [/] or [;] in a hostname);
      module [NodeUrl] is a model of Node's legacy [url.parse], and
      [node_url_laws] proves that it keeps the laws.
    - [Dom]: cheerio's document and the two queries the program makes;
      the parser is the interface [HtmlParse].
    - [Path]: interfaces [PathJoin], [Dirname]; module [PosixPath] models
      [path.join], with the law that a last segment that is a plain name
      stays the last segment ([join_segment]).
    - [Generate]: the data of the program, the calls [io], and one
      definition per function of generate.js, under its name.
    - [Trace]: classes of calls, projections of a trace, and the tactics
      [prog_walk] and [prog_solve] that follow every path of a program.
    - [Fixture]: concrete libraries and inputs for the witnesses.
    - [Validate]: theorems on [parseUrl] and on what a refused URL does.
    - [Config]: the invariant [wf_config], theorems on [normalizeHost],
      [getCrxTitle] and [buildCrxConfig].
    - [Icon]: the design's icon cascade ([icon_source], [icon_choice],
      [cascade]) and the theorems on [generateCrx].
    - [Handler]: theorems on the route as a whole, and what a client
      reads from the response ([ctx_get], [attachment_filename]).
    - [World]: a model of the environment (files, the web, the streams'
      [finish]) as the handler [node], what the copies do to the files, and
      when a run of the route settles; module [Sample] is a world for the
      examples.
    - [Route]: the specification of the route as a function of the world,
      its outcome ([route_spec], [generateCrx_spec]) and the world it
      leaves ([route_world], [generateCrx_world]), and the refinement
      ([route_run]) proved step by step.
    - [Threads]: programs in flight over one world: the step of a program
      ([next]), the pool and its interleavings ([pool_step], the scheduler
      [pool_run]), the calls a program keeps to ([obeys_to]), the bound on
      the length of an interleaving ([budgets], [pool_steps_bounded]), the
      theorem of isolation ([pool_invariant]) from a rely and a guarantee,
      and its consequence for schedules: a thread that has had as many
      turns as its program has calls has the outcome of its run alone
      ([thread_outcome], [pool_run_settles]).
    - [Pool]: the requests in flight, each with the directory of its
      extension ([node_in]), and the theorems on every interleaving.
    - [Process]: the pool as one Node process, which the [error] event
      of a stream that nobody listens to ends ([unhandled],
      [process_step], the turns of a schedule [process_run]).

    ** What the theorems show

    - Validation ([Validate]): [parseUrl] on every value of the [url]
      field, strings or not; a refused URL stops the handler before any
      call.
    - Assembly ([Config]): every outcome of [buildCrxConfig]; the
      configuration it builds is well formed; a failed fetch is absorbed
      and gives the default configuration; a successful fetch makes the
      function return [undefined], because its last branch has no
      [return]; a URL without hostname throws a [TypeError].
    - Cascade ([Icon]): [generateCrx] is equivalent, as a program, to the
      cascade of the design; on a well-formed configuration it raises no
      exception of its own and leaves a well-formed configuration
      ([generateCrx_well_typed]);
      the per-host override has precedence; at most one file is written;
      the placeholder is the upper-cased first letter or nothing; pack is
      the last call and its answer is the result; exceptions of the
      libraries reach the caller unchanged; the override icon is looked up
      directly inside the directory of override icons, whatever the
      hostname (from the parser's laws and [join_segment]).
    - Route ([Handler]): a request whose page was fetched is never
      answered; a request that is answered carries the expected headers
      and body, and a client reads them back from the response: the file
      name of the [content-disposition] header is [<hostname>.crx],
      because no hostname of the parser has a [;]
      ([module_exports_read_back]); the handler never downloads an icon;
      its calls come in one order, each stage at most once, and no
      execution has more than nine.
    - Runs ([World], [Route]): the run of the route, in every world and
      for every request, ends as the specification [route_spec] says and
      leaves the world that [route_world] says
      ([module_exports_refines]): the four errors, the response with the
      archive, or the wait that never ends; the world untouched before the
      template is loaded, and after it the working copy of the icon,
      written over by the source that the cascade chose.  Further: what
      [copyLocalFile] and [downloadFile] do to the files; the archive the
      route answers with holds the icon the cascade chooses; the route
      changes one file only; it settles in every world that has the letter
      icons, and when it does not settle it waits for the [finish] of a
      copy whose source is missing.

    - Requests in flight ([Pool]): Koa resumes the generators of the
      requests in any order.  The route keeps to the directory of its
      extension ([module_exports_keeps]); so requests whose extensions work
      in separate directories, holding none of the files the route reads,
      are answered as if each had run alone, that is as [route_spec] says
      for its directory ([pool_isolation]), and change no
      file outside these directories ([pool_frame]); with one directory for
      two requests an interleaving gives a request the icon of the other
      ([Flight.wrong_icon]).  Whatever the directories, an interleaving of
      [n] requests has at most [9 * n] steps ([pool_terminates]); and with
      separate directories a request that has had nine turns of a schedule
      has settled as [route_spec] says, answered, failed or waiting, and
      the files of its directory are those that [route_world] says
      ([pool_answers]).

    - One process ([Process]): [pipe] puts no listener for [error] on its
      source and the route adds none, so a copy whose source cannot be read
      is an exception that nothing catches, and ends the process.  A
      process steps like the pool while no error is uncaught
      ([process_steps_pool]), so what holds of every interleaving of the
      pool holds of it.  The route leaves an error unhandled exactly when
      it is left waiting ([module_exports_fault]).  With the letter icons
      on the disk and separate directories no interleaving leaves one
      ([process_safe]) and every request that has had nine turns is at its
      end with the result of its specification ([process_answers]); a
      request whose letter icon is missing ends the process in every
      schedule that gives it its turns, and the requests in flight with it
      get no answer ([process_outage], [Outage.lost_request]).

    The theorems of [Validate], [Config], [Icon] and [Handler] quantify
    over every answer of the libraries ([wp], [at_most], [≡]); those of
    [World], [Route], [Pool] and [Process] are about the one environment
    [node], which is a model written after the libraries' documentation.

    ** Bounds and conventions

    - A JavaScript string is a [string] of 8-bit code units.  Case
      conversion and [trim] are modelled on these; the strings the program
      converts are hostnames returned by [url.parse], which are ASCII
      (Node converts international names to punycode), and page titles, for
      which [trim] removes the white space below code 256.
    - [undefined] and [null] are [None] of an [option]; which of the two a
      [None] stands for is said where the field is declared.  The [url]
      field of the body, which the client chooses, is a [Js.value]:
      [undefined], [null], a boolean, a number, a string, or an object
      (arrays included).  The [TypeError] that [url.parse] throws on a
      value that is not a string has the message of Node's legacy [url]
      module, the one the generator style of the route dates from; later
      versions of Node word it differently and throw it alike.
    - An exception is a value of [Js.exn]; code that may throw returns a
      sum or is a program whose tree has [Throw] leaves.
    - The directory in which [crx] works for a request is the field
      [workdir] of the world of that request; in a pool each request has its
      own ([in_dir]).  A schedule is a list of thread numbers, one for
      each turn.  The theorems of isolation hold for every interleaving
      ([rtc pool_step], [rtc process_step]); those on what the turns bring
      about ([pool_answers], [process_answers], [process_outage]) hold for
      every schedule.
    - A call of the model stands for the effect of the operation on the
      world.  Node performs the effects between the turns of the event
      loop, also those of the calls that return at once
      ([createWriteStream] opens and truncates the file later, [pipe]
      copies later), each request's in the order in which it issued them.
      So the requests of a pool interleave at every call, not only at the
      [yield]s of the source; [accessSync], whose effect is immediate,
      reads at a point before which the other requests may have run.
    - A promise that never settles (a stream that emits [error] in
      [copyLocalFile] or [downloadFile], where the source listens for
      [finish] only) is a handler that gives no answer to [Finish]: [run]
      then stops with [Pending].  The [error] itself, which has no
      listener, is the fault of the step that pipes ([unhandled]): the
      model raises it where it makes the copy, Node at a later tick of the
      event loop; a process whose step raised one takes no more steps.
    - A request makes at most nine calls ([module_exports_calls]): nine
      turns of a schedule bring it to where it settles, which is the
      bound in [pool_answers], [process_answers] and [process_outage].

    ** Not modelled

    - The libraries behind the calls: the format of the archive [crx]
      produces and its signature, the certificate of [pem], HTTP itself.
      [World] models only what the program can observe of them; in it a
      file is a string, [crx.load] copies the icon of the template into the
      working directory, and directories and permissions do not exist.
    - [url.resolve] and cheerio's HTML parser are interfaces without a
      model; the theorems hold for every implementation.
    - A process that outlives an uncaught exception: a handler for
      [uncaughtException] or a supervisor that starts the server again is
      outside src/, which installs none; Node's default, the end of the
      process, is what [Process] models.
    - Time: a pool has the requests that are in flight from its start;
      requests that arrive later, timeouts and the order in which the event
      loop resumes the generators are not modelled (every order is
      allowed).
    - Koa itself: routing, body parsing and the response sent for an
      exception.  Of the response only the headers and the body that
      [sendCrx] sets are modelled; the client's reading of
      [content-disposition] is RFC 6266 without quoted strings and without
      the extended [filename*] parameter, which the route does not write.
      The body of the request is the value of its [url] field
      ([Js.value]); a request without a parsed body (no body parser in
      front of the route) is not modelled. *)

From Stdlib Require Export Ascii.
From stdpp Require Export base tactics option list sorting strings.

(** ** Hint databases

    [js] collects the facts about JavaScript primitives (strings, truthiness)
    and [prog] those about effectful programs; [js_rw] and [prog_rw] are the
    matching rewrite databases, used through [autorewrite]. *)

Create HintDb js discriminated.
Create HintDb prog discriminated.
Create Rewrite HintDb js_rw.
Create Rewrite HintDb prog_rw.

(** ** Tactics *)

(** [invert H]: inversion that leaves no copy of [H] and substitutes. *)
Ltac invert H := inversion H; clear H; simplify_eq.

(** [case_scrut]: case analysis on the scrutinee of the first [match] (or
    [if]) of the goal, keeping its equation. *)
Ltac case_scrut :=
  match goal with
  | |- context [match ?x with _ => _ end] =>
      let E := fresh "E" in destruct x eqn:E; simplify_eq/=
  end.

(** [case_hyp H]: the same on a hypothesis. *)
Ltac case_hyp H :=
  match type of H with
  | context [match ?x with _ => _ end] =>
      let E := fresh "E" in destruct x eqn:E; simplify_eq/=
  end.

(** ** Options *)

Section option_facts.
Context {A B : Type}.
Implicit Types (o : option A) (f : A → B).

Lemma from_option_Some f (b : B) o a : o = Some a → from_option f b o = f a.
Proof. by intros ->. Qed.

Lemma from_option_None f (b : B) o : o = None → from_option f b o = b.
Proof. by intros ->. Qed.

Lemma is_Some_bool o : is_Some o ↔ bool_decide (is_Some o) = true.
Proof. by rewrite bool_decide_eq_true. Qed.

End option_facts.

(** ** Lists *)

Section list_facts.
Context {A : Type}.
Implicit Types (l k : list A) (P : A → bool).

(** Number of elements of [l] that satisfy [P]. *)
Definition count_if P l : nat := length (List.filter P l).

Lemma count_if_nil P : count_if P [] = 0.
Proof. done. Qed.

Lemma count_if_cons P x l :
  count_if P (x :: l) = (if P x then 1 else 0) + count_if P l.
Proof. unfold count_if. simpl. by destruct (P x). Qed.

Lemma count_if_app P l k : count_if P (l ++ k) = count_if P l + count_if P k.
Proof. unfold count_if. by rewrite List.filter_app, length_app. Qed.

Lemma count_if_le_length P l : count_if P l ≤ length l.
Proof.
  induction l as [|x l IH]; [done|].
  rewrite count_if_cons. simpl. destruct (P x); lia.
Qed.

Lemma count_if_0 P l : count_if P l = 0 ↔ Forall (λ x, P x = false) l.
Proof.
  induction l as [|x l IH]; [by split; [constructor|]|].
  rewrite count_if_cons, Forall_cons, <-IH.
  destruct (P x); simpl; intuition (done || lia).
Qed.

End list_facts.

(** One unit less at a position is one unit less in the sum. *)
Lemma sum_list_insert_pred (l : list nat) i m :
  l !! i = Some (S m) → sum_list l = S (sum_list (<[i := m]> l)).
Proof.
  revert i. induction l as [|x l IH]; intros [|i] Hi; simplify_eq/=; [lia|].
  rewrite (IH _ Hi). lia.
Qed.

(** Whether the numbers of a list go up strictly. *)
Fixpoint increasing (l : list nat) : bool :=
  match l with
  | x :: (y :: _) as l' => (x <? y) && increasing l'
  | _ => true
  end.

Lemma increasing_Sorted l : increasing l = true → Sorted lt l.
Proof.
  induction l as [|x l IH]; [constructor|].
  destruct l as [|y l]; [by repeat constructor|].
  intros [Hx Hl]%andb_true_iff. constructor; [by apply IH|].
  constructor. by apply Nat.ltb_lt.
Qed.

Lemma increasing_sorted l : increasing l = true → StronglySorted lt l.
Proof. intros H. by apply Sorted_StronglySorted, increasing_Sorted; [apply _|]. Qed.

#[export] Hint Rewrite @count_if_nil @count_if_cons @count_if_app : prog_rw.
