(* ===== verification/JsString.v ===== *)
(** * JsString: the String.prototype methods that generate.js calls

    [toLowerCase], [toUpperCase], [indexOf], [replace] with a string pattern
    (first occurrence only), [substring], [trim] and [match] against the
    character class [[A-Z]], over strings of 8-bit code units.  Each is an
    executable function; the lemmas give the specification the components
    rely on (what [replace] removes, when [indexOf] answers -1, which strings
    [trim] leaves unchanged). *)

From Stdlib Require Import ZArith.
From S2P Require Import Prelude.

Module JsString.

(** ** Characters *)

Definition code (c : ascii) : nat := nat_of_ascii c.

Definition is_upper (c : ascii) : bool :=
  (65 <=? code c)%nat && (code c <=? 90)%nat.

Definition is_lower (c : ascii) : bool :=
  (97 <=? code c)%nat && (code c <=? 122)%nat.

Definition to_lower_char (c : ascii) : ascii :=
  if is_upper c then ascii_of_nat (code c + 32) else c.

Definition to_upper_char (c : ascii) : ascii :=
  if is_lower c then ascii_of_nat (code c - 32) else c.

(** White space of ECMAScript's [trim] in the 8-bit range: TAB, LF, VT, FF,
    CR, SPACE and NO-BREAK SPACE. *)
Definition is_space (c : ascii) : bool :=
  let n := code c in
  ((9 <=? n)%nat && (n <=? 13)%nat) || (n =? 32)%nat || (n =? 160)%nat.

(** ** Strings *)

Fixpoint map (f : ascii → ascii) (s : string) : string :=
  match s with
  | "" => ""
  | String c s' => String (f c) (map f s')
  end.

Fixpoint existsb (f : ascii → bool) (s : string) : bool :=
  match s with
  | "" => false
  | String c s' => f c || existsb f s'
  end.

Fixpoint take (n : nat) (s : string) : string :=
  match n, s with
  | S n', String c s' => String c (take n' s')
  | _, _ => ""
  end.

Fixpoint drop (n : nat) (s : string) : string :=
  match n, s with
  | S n', String _ s' => drop n' s'
  | _, _ => s
  end.

(** [starts_with p s]: [p] is a prefix of [s]. *)
Fixpoint starts_with (p s : string) : bool :=
  match p, s with
  | "", _ => true
  | String a p', String b s' => bool_decide (a = b) && starts_with p' s'
  | String _ _, "" => false
  end.

(** Position of the first occurrence of [p] in [s]. *)
Fixpoint index_of (p s : string) : option nat :=
  if starts_with p s then Some 0
  else match s with
       | "" => None
       | String _ s' => S <$> index_of p s'
       end.

(** [s.indexOf(p)]: the position, or -1. *)
Definition indexOf (p s : string) : Z :=
  from_option Z.of_nat (-1)%Z (index_of p s).

(** [s.toLowerCase()] and [s.toUpperCase()]. *)
Definition toLowerCase : string → string := map to_lower_char.
Definition toUpperCase : string → string := map to_upper_char.

(** [s.substring(i, j)]: the code units from [min i j] up to [max i j],
    both clamped to the length. *)
Definition substring (i j : nat) (s : string) : string :=
  take (max i j - min i j) (drop (min i j) s).

(** [s.replace(p, r)] for a string pattern [p]: the first occurrence of [p]
    is replaced by [r]; a string without occurrence is returned as it is.
    Written as the scan a reader expects; [replace_index_of] relates it to
    [index_of]. *)
Fixpoint replace (p r s : string) : string :=
  if starts_with p s then r +:+ drop (String.length p) s
  else match s with
       | "" => ""
       | String c s' => String c (replace p r s')
       end.

Fixpoint trim_start (s : string) : string :=
  match s with
  | String c s' => if is_space c then trim_start s' else s
  | "" => ""
  end.

Fixpoint trim_end (s : string) : string :=
  match s with
  | "" => ""
  | String c s' =>
      match trim_end s' with
      | "" => if is_space c then "" else String c ""
      | t => String c t
      end
  end.

(** [s.trim()]. *)
Definition trim (s : string) : string := trim_end (trim_start s).

(** [s.match(/[A-Z]/)] as a condition: some code unit is an upper-case
    ASCII letter. *)
Definition match_AZ (s : string) : bool := existsb is_upper s.

(** A string whose code units are all below 128. *)
Definition is_ascii (s : string) : bool :=
  negb (existsb (λ c, (128 <=? code c)%nat) s).

(** ** Characters: lemmas *)

Ltac by_cases_on c := destruct c as [[] [] [] [] [] [] [] []]; by vm_compute.

Lemma to_lower_char_not_upper c : is_upper (to_lower_char c) = false.
Proof. by_cases_on c. Qed.

Lemma to_upper_char_not_lower c : is_lower (to_upper_char c) = false.
Proof. by_cases_on c. Qed.

Lemma to_lower_char_idemp c : to_lower_char (to_lower_char c) = to_lower_char c.
Proof. unfold to_lower_char at 1. by rewrite to_lower_char_not_upper. Qed.

Lemma to_upper_char_idemp c : to_upper_char (to_upper_char c) = to_upper_char c.
Proof. unfold to_upper_char at 1. by rewrite to_upper_char_not_lower. Qed.

Lemma to_lower_char_fix c : is_upper c = false → to_lower_char c = c.
Proof. unfold to_lower_char. by intros ->. Qed.

Lemma to_upper_char_fix c : is_lower c = false → to_upper_char c = c.
Proof. unfold to_upper_char. by intros ->. Qed.

(** Upper-casing yields a letter of [A-Z] exactly on the ASCII letters. *)
Lemma is_upper_to_upper_char c :
  is_upper (to_upper_char c) = is_upper c || is_lower c.
Proof. by_cases_on c. Qed.

Lemma to_lower_to_upper_char c :
  to_lower_char (to_upper_char (to_lower_char c)) = to_lower_char c.
Proof. by_cases_on c. Qed.

Lemma is_space_not_letter c : is_space c = true → is_upper c || is_lower c = false.
Proof. by_cases_on c. Qed.

(** ** Append, take and drop *)

Lemma app_nil_l s : "" +:+ s = s.
Proof. done. Qed.

Lemma app_cons c s t : String c s +:+ t = String c (s +:+ t).
Proof. done. Qed.

Lemma app_nil_r s : s +:+ "" = s.
Proof. induction s as [|c s IH]; [done|]. by rewrite app_cons, IH. Qed.

Lemma app_assoc s t u : (s +:+ t) +:+ u = s +:+ t +:+ u.
Proof. induction s as [|c s IH]; [done|]. by rewrite !app_cons, IH. Qed.

Lemma length_app s t :
  String.length (s +:+ t) = String.length s + String.length t.
Proof. induction s as [|c s IH]; [done|]. rewrite app_cons. simpl. by rewrite IH. Qed.

Lemma app_eq_nil s t : s +:+ t = "" → s = "" ∧ t = "".
Proof. by destruct s. Qed.

Lemma take_0 s : take 0 s = "".
Proof. by destruct s. Qed.

Lemma drop_0 s : drop 0 s = s.
Proof. by destruct s. Qed.

Lemma take_drop n s : take n s +:+ drop n s = s.
Proof.
  revert s. induction n as [|n IH]; intros [|c s]; try done.
  simpl. by rewrite app_cons, IH.
Qed.

Lemma length_take n s : String.length (take n s) = min n (String.length s).
Proof. revert s. induction n as [|n IH]; intros [|c s]; simpl; auto. Qed.

Lemma length_drop n s : String.length (drop n s) = String.length s - n.
Proof. revert s. induction n as [|n IH]; intros [|c s]; simpl; auto. Qed.

Lemma take_app_length p s : take (String.length p) (p +:+ s) = p.
Proof.
  induction p as [|c p IH]; [apply take_0|].
  rewrite app_cons. simpl. by rewrite IH.
Qed.

Lemma drop_app_length p s : drop (String.length p) (p +:+ s) = s.
Proof. induction p as [|c p IH]; [apply drop_0|]. by rewrite app_cons. Qed.

Lemma take_app_exact n a b : String.length a = n → take n (a +:+ b) = a.
Proof. intros <-. apply take_app_length. Qed.

Lemma drop_app_exact n a b : String.length a = n → drop n (a +:+ b) = b.
Proof. intros <-. apply drop_app_length. Qed.

Lemma drop_nil n : drop n "" = "".
Proof. by destruct n. Qed.

Lemma take_nil n : take n "" = "".
Proof. by destruct n. Qed.

Lemma drop_drop n m s : drop n (drop m s) = drop (m + n) s.
Proof.
  revert s. induction m as [|m IH]; intros s; [by rewrite drop_0|].
  destruct s as [|c s]; [by destruct n|]. apply IH.
Qed.

Lemma drop_ge n s : String.length s ≤ n → drop n s = "".
Proof.
  revert s. induction n as [|n IH]; intros [|c s]; simpl; try done; try lia.
  intros. apply IH. lia.
Qed.

Lemma take_ge n s : String.length s ≤ n → take n s = s.
Proof.
  revert s. induction n as [|n IH]; intros [|c s]; simpl; try done; try lia.
  intros. rewrite IH; [done|lia].
Qed.

#[export] Hint Rewrite app_nil_l app_cons app_nil_r app_assoc length_app
  take_0 drop_0 take_drop length_take length_drop take_app_length
  drop_app_length : js_rw.

(** ** Prefixes and occurrences *)

(** [occurs p s]: [p] is a substring of [s]. *)
Definition occurs (p s : string) : Prop := ∃ a b, s = a +:+ p +:+ b.

Lemma starts_with_app p t : starts_with p (p +:+ t) = true.
Proof.
  induction p as [|c p IH]; [done|].
  rewrite app_cons. simpl. by rewrite bool_decide_eq_true_2, IH.
Qed.

Lemma starts_with_inv p s :
  starts_with p s = true → s = p +:+ drop (String.length p) s.
Proof.
  revert s. induction p as [|c p IH]; intros [|d s] H; simplify_eq/=;
    try by rewrite ?drop_0.
  apply andb_true_iff in H as [->%bool_decide_eq_true H].
  by rewrite app_cons, <-IH.
Qed.

Lemma starts_with_spec p s : starts_with p s = true ↔ ∃ t, s = p +:+ t.
Proof.
  split; [intros H; eexists; by apply starts_with_inv|].
  intros [t ->]. apply starts_with_app.
Qed.

Lemma starts_with_nil s : starts_with "" s = true.
Proof. by destruct s. Qed.

Lemma starts_with_length p s :
  starts_with p s = true → String.length p ≤ String.length s.
Proof. intros [t ->]%starts_with_spec. rewrite length_app. lia. Qed.

Lemma occurs_prefix p s : starts_with p s = true → occurs p s.
Proof. intros [t ->]%starts_with_spec. by exists "", t. Qed.

Lemma occurs_cons p c s : occurs p s → occurs p (String c s).
Proof. intros (a & b & ->). by exists (String c a), b. Qed.

Lemma occurs_cons_inv p c s :
  occurs p (String c s) → starts_with p (String c s) = true ∨ occurs p s.
Proof.
  intros ([|d a] & b & E).
  - left. rewrite E, app_nil_l. apply starts_with_app.
  - right. rewrite app_cons in E. simplify_eq. by exists a, b.
Qed.

Lemma occurs_nil_inv p : occurs p "" → p = "".
Proof.
  intros (a & b & E). symmetry in E.
  apply app_eq_nil in E as [_ E]. by apply app_eq_nil in E as [? _].
Qed.

(** ** [index_of] and [indexOf] *)

Lemma index_of_prefix p s : starts_with p s = true → index_of p s = Some 0.
Proof. intros H. destruct s; simpl; by rewrite H. Qed.

Lemma index_of_cons p c s :
  starts_with p (String c s) = false →
  index_of p (String c s) = S <$> index_of p s.
Proof. intros H. simpl index_of. by rewrite H. Qed.

(** The answer of [index_of] is an occurrence, and the first one. *)
Lemma index_of_Some p s n :
  index_of p s = Some n ↔
  starts_with p (drop n s) = true ∧ n ≤ String.length s ∧
  ∀ m, m < n → starts_with p (drop m s) = false.
Proof.
  revert n. induction s as [|c s IH]; intros n.
  - rewrite drop_nil. simpl. destruct (starts_with p "") eqn:E.
    + split; [intros [= <-]; split_and!; [done|lia|lia]|].
      intros (_ & Hn & _). f_equal. lia.
    + split; [done|]. by intros (H & _ & _).
  - destruct (starts_with p (String c s)) eqn:E.
    + rewrite index_of_prefix by done. split.
      * intros [= <-]. split_and!; [done|lia|lia].
      * intros (_ & _ & H). destruct n as [|n]; [done|].
        specialize (H 0 ltac:(lia)). simpl in H. congruence.
    + rewrite index_of_cons, fmap_Some by done. split.
      * intros (m & (H1 & H2 & H3)%IH & ->). split_and!; [done|simpl; lia|].
        intros [|k] Hk; [done|]. apply H3. lia.
      * intros (H1 & H2 & H3). destruct n as [|n]; [simpl in H1; congruence|].
        exists n. split; [|done]. apply IH. split_and!; [done|simpl in H2; lia|].
        intros m Hm. apply (H3 (S m)). lia.
Qed.

Lemma index_of_is_Some p s : is_Some (index_of p s) ↔ occurs p s.
Proof.
  induction s as [|c s IH].
  - simpl. destruct (starts_with p "") eqn:E.
    + split; [intros _; by apply occurs_prefix|by eexists].
    + split; [by intros [? ?]|]. intros ->%occurs_nil_inv. done.
  - destruct (starts_with p (String c s)) eqn:E.
    + rewrite index_of_prefix by done. split; [intros _; by apply occurs_prefix|by eexists].
    + rewrite index_of_cons, fmap_is_Some, IH by done. split; [apply occurs_cons|].
      intros [?| ?]%occurs_cons_inv; [congruence|done].
Qed.

Lemma index_of_None p s : index_of p s = None ↔ ¬ occurs p s.
Proof. by rewrite <-index_of_is_Some, eq_None_not_Some. Qed.

Lemma index_of_le p s n :
  index_of p s = Some n → n + String.length p ≤ String.length s.
Proof.
  intros (H%starts_with_length & ? & _)%index_of_Some.
  rewrite length_drop in H. lia.
Qed.

#[global] Instance occurs_dec p s : Decision (occurs p s).
Proof.
  refine (cast_if (decide (is_Some (index_of p s)))); by rewrite <-index_of_is_Some.
Defined.

Lemma bool_decide_occurs p s :
  bool_decide (occurs p s) = bool_decide (is_Some (index_of p s)).
Proof. apply bool_decide_ext. symmetry. apply index_of_is_Some. Qed.

(** [indexOf] answers -1 exactly when the pattern does not occur. *)
Lemma indexOf_neg p s : indexOf p s = (-1)%Z ↔ ¬ occurs p s.
Proof.
  rewrite <-index_of_None. unfold indexOf.
  destruct (index_of p s); simpl; split; try done; lia.
Qed.

Lemma indexOf_nonneg p s : (0 ≤ indexOf p s)%Z ↔ occurs p s.
Proof.
  rewrite <-index_of_is_Some. unfold indexOf.
  destruct (index_of p s) as [n|]; simpl.
  - split; [by eexists|lia].
  - split; [lia|by intros [? ?]].
Qed.

(** ** [replace] *)

Lemma replace_prefix p r s :
  starts_with p s = true → replace p r s = r +:+ drop (String.length p) s.
Proof. intros H. destruct s; simpl; by rewrite H. Qed.

Lemma replace_cons p r c s :
  starts_with p (String c s) = false →
  replace p r (String c s) = String c (replace p r s).
Proof. intros H. simpl replace. by rewrite H. Qed.

(** [replace] cuts the string at the position [index_of] finds. *)
Lemma replace_index_of p r s :
  replace p r s =
  match index_of p s with
  | Some n => take n s +:+ r +:+ drop (n + String.length p) s
  | None => s
  end.
Proof.
  induction s as [|c s IH].
  - simpl. by destruct (starts_with p "").
  - destruct (starts_with p (String c s)) eqn:E.
    + by rewrite replace_prefix, index_of_prefix by done.
    + rewrite replace_cons, index_of_cons, IH by done.
      by destruct (index_of p s).
Qed.

Lemma replace_absent p r s : ¬ occurs p s → replace p r s = s.
Proof. intros H%index_of_None. by rewrite replace_index_of, H. Qed.

Lemma replace_app p r t : replace p r (p +:+ t) = r +:+ t.
Proof. by rewrite replace_prefix, drop_app_length by apply starts_with_app. Qed.

(** [replace] passes over a prefix that does not hold the first character
    of the pattern. *)
Lemma replace_after c p r a t :
  existsb (λ x, bool_decide (x = c)) a = false →
  replace (String c p) r (a +:+ String c p +:+ t) = a +:+ r +:+ t.
Proof.
  induction a as [|x a IH]; intros Ha.
  - by rewrite !app_nil_l, replace_app.
  - simpl in Ha. apply orb_false_iff in Ha as [Hx Ha].
    rewrite 2!(app_cons x), replace_cons, IH; [done..|].
    apply bool_decide_eq_false in Hx. simpl.
    by rewrite bool_decide_eq_false_2 by done.
Qed.

(** What [replace] does to the length. *)
Lemma length_replace p r s :
  String.length (replace p r s) =
  match index_of p s with
  | Some _ => String.length s + String.length r - String.length p
  | None => String.length s
  end.
Proof.
  rewrite replace_index_of. destruct (index_of p s) as [n|] eqn:E; [|done].
  apply index_of_le in E. rewrite !length_app, length_take, length_drop. lia.
Qed.

(** Removing the pattern: the result with the pattern put back at the
    position found is the original string. *)
Lemma replace_remove p s n :
  index_of p s = Some n →
  s = take n (replace p "" s) +:+ p +:+ drop n (replace p "" s).
Proof.
  intros E. pose proof E as (H%starts_with_inv & Hn & _)%index_of_Some.
  rewrite replace_index_of, E, app_nil_l.
  assert (String.length (take n s) = n) as Hl by (rewrite length_take; lia).
  rewrite take_app_exact, drop_app_exact by done.
  rewrite drop_drop in H. by rewrite <-H, take_drop.
Qed.

(** ** Case conversion *)

Lemma map_app f s t : map f (s +:+ t) = map f s +:+ map f t.
Proof. induction s as [|c s IH]; [done|]. rewrite !app_cons. simpl. by rewrite IH. Qed.

Lemma length_map f s : String.length (map f s) = String.length s.
Proof. induction s as [|c s IH]; simpl; auto. Qed.

Lemma map_map f g s : map f (map g s) = map (f ∘ g) s.
Proof. induction s as [|c s IH]; simpl; [done|]. by rewrite IH. Qed.

Lemma map_ext f g s : (∀ c, f c = g c) → map f s = map g s.
Proof. intros H. induction s as [|c s IH]; simpl; [done|]. by rewrite H, IH. Qed.

Lemma map_fix f s : existsb (λ c, negb (bool_decide (f c = c))) s = false → map f s = s.
Proof.
  induction s as [|c s IH]; simpl; [done|].
  intros [H1%negb_false_iff%bool_decide_eq_true H2]%orb_false_iff.
  by rewrite H1, IH.
Qed.

Lemma existsb_ext f g s : (∀ c, f c = g c) → existsb f s = existsb g s.
Proof. intros H. induction s as [|c s IH]; simpl; [done|]. by rewrite H, IH. Qed.

Lemma existsb_map f g s : existsb f (map g s) = existsb (λ x, f (g x)) s.
Proof. induction s as [|c s IH]; simpl; [done|]. by rewrite IH. Qed.

Lemma existsb_app f s t : existsb f (s +:+ t) = existsb f s || existsb f t.
Proof.
  induction s as [|c s IH]; [done|].
  rewrite app_cons. simpl. by rewrite IH, orb_assoc.
Qed.

Lemma existsb_take f n s : existsb f s = false → existsb f (take n s) = false.
Proof.
  revert s. induction n as [|n IH]; intros [|c s]; simpl; try done.
  intros [-> H]%orb_false_iff. by apply IH.
Qed.

Lemma existsb_drop f n s : existsb f s = false → existsb f (drop n s) = false.
Proof.
  revert s. induction n as [|n IH]; intros [|c s]; simpl; try done.
  intros [_ H]%orb_false_iff. by apply IH.
Qed.

(** A smaller class of code units is absent where a larger one is. *)
Lemma existsb_impl f g s :
  (∀ c, f c = true → g c = true) → existsb g s = false → existsb f s = false.
Proof.
  intros Hfg. induction s as [|c s IH]; simpl; [done|].
  intros [Hc H]%orb_false_iff. rewrite IH by done.
  destruct (f c) eqn:E; [|done]. by rewrite (Hfg c E) in Hc.
Qed.

(** Removing a pattern brings in no code unit. *)
Lemma existsb_replace f p s :
  existsb f s = false → existsb f (replace p "" s) = false.
Proof.
  intros H. rewrite replace_index_of. destruct (index_of p s) as [n|]; [|done].
  by rewrite app_nil_l, existsb_app, existsb_take, existsb_drop.
Qed.

Lemma existsb_false f s :
  existsb f s = false ↔ ∀ a b c, s = a +:+ String c b → f c = false.
Proof.
  induction s as [|c s IH]; simpl.
  - split; [|done]. intros _ [|??] ?? E; rewrite ?app_nil_l, ?app_cons in E; simplify_eq.
  - rewrite orb_false_iff, IH. split.
    + intros [H1 H2] [|d a] b e E; rewrite ?app_nil_l, ?app_cons in E;
        simplify_eq; eauto.
    + intros H. split; [by apply (H "" s)|].
      intros a b e ->. by apply (H (String c a) b).
Qed.

Lemma toLowerCase_idemp s : toLowerCase (toLowerCase s) = toLowerCase s.
Proof. unfold toLowerCase. rewrite map_map. apply map_ext, to_lower_char_idemp. Qed.

Lemma toUpperCase_idemp s : toUpperCase (toUpperCase s) = toUpperCase s.
Proof. unfold toUpperCase. rewrite map_map. apply map_ext, to_upper_char_idemp. Qed.

Lemma toLowerCase_app s t : toLowerCase (s +:+ t) = toLowerCase s +:+ toLowerCase t.
Proof. apply map_app. Qed.

Lemma length_toLowerCase s : String.length (toLowerCase s) = String.length s.
Proof. apply length_map. Qed.

(** A string without upper-case ASCII letter is its own lower-casing. *)
Lemma toLowerCase_fix s : existsb is_upper s = false → toLowerCase s = s.
Proof.
  unfold toLowerCase. induction s as [|c s IH]; simpl; [done|].
  intros [H1 H2]%orb_false_iff. by rewrite to_lower_char_fix, IH.
Qed.

Lemma toLowerCase_no_upper s : existsb is_upper (toLowerCase s) = false.
Proof.
  unfold toLowerCase. induction s as [|c s IH]; simpl; [done|].
  by rewrite to_lower_char_not_upper, IH.
Qed.

(** ** [substring] and [match_AZ] *)

Lemma substring_0_1 s :
  substring 0 1 s = match s with "" => "" | String c _ => String c "" end.
Proof. destruct s as [|c s]; [done|]. unfold substring. simpl. by destruct s. Qed.

Lemma length_substring_0_1 s : String.length (substring 0 1 s) ≤ 1.
Proof. rewrite substring_0_1. destruct s; simpl; lia. Qed.

(** The test of [setPlaceholderIcon]: the first code unit, upper-cased, is in
    [A-Z] exactly when it is an ASCII letter. *)
(** The letter of [setPlaceholderIcon], when it passes the test, is one
    upper-case code unit. *)
Lemma first_upper_letter s :
  match_AZ (toUpperCase (substring 0 1 s)) = true →
  ∃ ch, toUpperCase (substring 0 1 s) = String ch "" ∧ is_upper ch = true.
Proof.
  rewrite substring_0_1. destruct s as [|c s]; [done|]. unfold match_AZ. simpl.
  rewrite orb_false_r. eauto.
Qed.

Lemma match_AZ_first_upper s :
  match_AZ (toUpperCase (substring 0 1 s)) =
  match s with
  | "" => false
  | String c _ => is_upper c || is_lower c
  end.
Proof.
  rewrite substring_0_1. destruct s as [|c s]; [done|].
  unfold match_AZ. simpl. by rewrite is_upper_to_upper_char, orb_false_r.
Qed.

(** ** [trim] *)

Lemma trim_start_fix s :
  match s with String c _ => is_space c = false | "" => True end →
  trim_start s = s.
Proof. destruct s as [|c s]; simpl; [done|]. by intros ->. Qed.

Lemma trim_start_head s :
  match trim_start s with String c _ => is_space c = false | "" => True end.
Proof.
  induction s as [|c s IH]; simpl; [done|].
  by destruct (is_space c) eqn:E; simpl.
Qed.

Lemma trim_start_idemp s : trim_start (trim_start s) = trim_start s.
Proof. apply trim_start_fix, trim_start_head. Qed.

Lemma trim_end_idemp s : trim_end (trim_end s) = trim_end s.
Proof.
  induction s as [|c s IH]; simpl; [done|].
  destruct (trim_end s) as [|d t] eqn:E.
  - destruct (is_space c) eqn:Ec; simpl; [done|]. by rewrite Ec.
  - simpl in *. by rewrite IH.
Qed.

(** [trim_end] keeps the first code unit of a result that is not empty. *)
Lemma trim_end_head s :
  match trim_end s with
  | String c _ => ∃ s', s = String c s'
  | "" => True
  end.
Proof.
  destruct s as [|c s]; simpl; [done|].
  destruct (trim_end s); [destruct (is_space c)|]; simpl; eauto.
Qed.

Lemma trim_head s :
  match trim s with String c _ => is_space c = false | "" => True end.
Proof.
  unfold trim. pose proof (trim_start_head s) as H1.
  pose proof (trim_end_head (trim_start s)) as H2.
  destruct (trim_end (trim_start s)) as [|c t]; [done|].
  destruct H2 as [s' E]. by rewrite E in H1.
Qed.

Lemma trim_idemp s : trim (trim s) = trim s.
Proof.
  unfold trim at 1. rewrite trim_start_fix by apply trim_head.
  unfold trim. apply trim_end_idemp.
Qed.

Lemma trim_nil : trim "" = "".
Proof. done. Qed.

(** A string of white space only trims to the empty string. *)
Lemma trim_start_spaces s :
  existsb (negb ∘ is_space) s = false → trim_start s = "".
Proof.
  induction s as [|c s IH]; simpl; [done|].
  intros [->%negb_false_iff H]%orb_false_iff. auto.
Qed.

Lemma trim_spaces s : existsb (negb ∘ is_space) s = false → trim s = "".
Proof. intros H. unfold trim. by rewrite trim_start_spaces. Qed.

#[export] Hint Rewrite toLowerCase_idemp toUpperCase_idemp trim_idemp
  length_toLowerCase replace_app match_AZ_first_upper : js_rw.

End JsString.
