(* ===== verification/JsValue.v ===== *)
(** * JsValue: the JavaScript values and coercions generate.js relies on

    Exceptions as data, truthiness (the condition of [if], [!] and [||]),
    the [||] operator on values, the coercion of [null] and [undefined]
    to strings by [+], and the values that a field of a request body can
    hold. *)

From Stdlib Require Import ZArith.
From S2P Require Import Prelude JsString.

Module Js.

(** Values thrown.  [Error] is [new Error(msg)] of the program itself;
    [TypeError] is what the engine throws when a property is read from
    [undefined] or [null]; [LibError] is an exception or a promise rejection
    that comes out of a library ([request], [fs], [pem], [crx]), tagged with
    the library's name. *)
Inductive exn : Type :=
| Error (msg : string)
| TypeError (msg : string)
| LibError (lib msg : string).

#[global] Instance exn_eq_dec : EqDecision exn.
Proof. solve_decision. Defined.

(** The engine's message for [x.prop] with [x] undefined or null. *)
Definition cannot_read (prop what : string) : exn :=
  TypeError ("Cannot read property '" +:+ prop +:+ "' of " +:+ what).

(** Truthiness: what [if (x)], [!x] and [x || y] test. *)
Class Truthy (A : Type) := truthy : A → bool.
#[global] Hint Mode Truthy ! : typeclass_instances.

(** A string is truthy unless it is empty. *)
#[global] Instance string_truthy : Truthy string :=
  λ s, negb (bool_decide (s = "")).

#[global] Instance bool_truthy : Truthy bool := id.

(** [None] stands for [undefined] or [null], both falsy. *)
#[global] Instance option_truthy `{Truthy A} : Truthy (option A) :=
  λ o, from_option truthy false o.

(** ** Values of a request body

    What a field of a parsed body can hold: a JSON value or, from a form, a
    string or an array of strings; [Undefined] when the field is missing.
    Arrays and objects are one case: both are truthy and of type [object].
    A number is kept as an integer; a fraction behaves as a non-zero
    integer in all that the program does with it. *)
Inductive value : Type :=
| Undefined
| Null
| Bool (b : bool)
| Number (n : Z)
| Str (s : string)
| Object.

#[global] Instance value_eq_dec : EqDecision value.
Proof. solve_decision. Defined.

(** [typeof v]. *)
Definition typeof (v : value) : string :=
  match v with
  | Undefined => "undefined"
  | Null | Object => "object"
  | Bool _ => "boolean"
  | Number _ => "number"
  | Str _ => "string"
  end.

(** [undefined], [null], [false], [0] and the empty string are falsy. *)
#[global] Instance value_truthy : Truthy value := λ v,
  match v with
  | Undefined | Null => false
  | Bool b => b
  | Number n => negb (bool_decide (n = 0%Z))
  | Str s => truthy s
  | Object => true
  end.

(** What a function of Node's libraries throws when it is given [v] for a
    parameter that is a string. *)
Definition not_a_string (param : string) (v : value) : exn :=
  TypeError ("Parameter '" +:+ param +:+ "' must be a string, not " +:+ typeof v).

(** The string that a value is, when it is one. *)
Definition as_string (v : value) : string :=
  match v with Str s => s | _ => "" end.

(** [!x]. *)
Definition falsy `{Truthy A} (x : A) : bool := negb (truthy x).

(** [x || y]: [x] when it is truthy, [y] otherwise. *)
Definition or_else `{Truthy A} (x y : A) : A := if truthy x then x else y.

(** ["" + x] for [x] a string or [null], and for [x] a string or
    [undefined]. *)
Definition str_of_nullable (o : option string) : string :=
  from_option id "null" o.
Definition str_of_optional (o : option string) : string :=
  from_option id "undefined" o.

(** ** Lemmas *)

Lemma truthy_string s : truthy s = true ↔ s ≠ "".
Proof. unfold truthy, string_truthy. by rewrite negb_true_iff, bool_decide_eq_false. Qed.

Lemma truthy_string_false s : truthy s = false ↔ s = "".
Proof. unfold truthy, string_truthy. by rewrite negb_false_iff, bool_decide_eq_true. Qed.

Lemma truthy_Some `{Truthy A} (a : A) : truthy (Some a) = truthy a.
Proof. done. Qed.

Lemma truthy_None `{Truthy A} : truthy (@None A) = false.
Proof. done. Qed.

(** An optional string is truthy exactly when it is a string that is not
    empty. *)
Lemma truthy_option_string (o : option string) :
  truthy o = true ↔ ∃ s, o = Some s ∧ s ≠ "".
Proof.
  destruct o as [s|]; simpl.
  - rewrite truthy_Some, truthy_string. split; [by exists s|]. by intros (? & [= <-] & ?).
  - rewrite truthy_None. split; [done|]. by intros (? & ? & _).
Qed.

Lemma falsy_true_iff `{Truthy A} (x : A) : falsy x = true ↔ truthy x = false.
Proof. unfold falsy. apply negb_true_iff. Qed.

Lemma or_else_truthy `{Truthy A} (x y : A) : truthy x = true → or_else x y = x.
Proof. unfold or_else. by intros ->. Qed.

Lemma or_else_falsy `{Truthy A} (x y : A) : truthy x = false → or_else x y = y.
Proof. unfold or_else. by intros ->. Qed.

(** [x || y] is truthy when one of the two is. *)
Lemma truthy_or_else `{Truthy A} (x y : A) :
  truthy (or_else x y) = truthy x || truthy y.
Proof. unfold or_else. destruct (truthy x) eqn:E; by rewrite ?E. Qed.

End Js.

#[export] Hint Rewrite @Js.truthy_Some @Js.truthy_None @Js.truthy_or_else : js_rw.
#[export] Hint Resolve Js.or_else_truthy Js.or_else_falsy : js.
