(* ===== verification/Prog.v ===== *)
(** * Prog: effectful programs as finite trees of calls

    A generator function of generate.js runs straight-line code between
    calls to the outside world (a [yield] of a promise, or a synchronous
    library call with an effect).  It is modelled as a tree: a leaf [Ret a]
    (the function returns [a]) or [Throw e] (it throws [e]), or a node
    [Vis ev k] (it performs the call [ev] and continues as [k x] on the
    answer [x]).  The source has no loop, so the trees are finite and every
    definition over them is structural: no fuel is needed anywhere.

    This file holds the tree type with its monad structure and [try]/[catch],
    the equivalence of trees up to their continuations, the step relation
    over traces of answered calls, an interpreter into a model of the world,
    and the predicates used to bound what a program may do ([at_most],
    [never]). *)

From S2P Require Import Prelude.

Declare Scope prog_scope.
Delimit Scope prog_scope with prog.

(** ** Programs *)

Inductive prog (E : Type → Type) (Err A : Type) : Type :=
| Ret (a : A)
| Throw (e : Err)
| Vis {X : Type} (ev : E X) (k : X → prog E Err A).

Arguments Ret {E Err A} a.
Arguments Throw {E Err A} e.
Arguments Vis {E Err A X} ev k.

(** The result of a run that came to its end. *)
Inductive result (Err A : Type) : Type :=
| Returned (a : A)
| Thrown (e : Err).

Arguments Returned {Err A} a.
Arguments Thrown {Err A} e.

(** An answered call. *)
Record event (E : Type → Type) : Type :=
  Event { ev_type : Type; ev_call : E ev_type; ev_answer : ev_type }.

Arguments Event {E ev_type} ev_call ev_answer.
Arguments ev_type {E} e.
Arguments ev_call {E} e.
Arguments ev_answer {E} e.

(** How a run under an interpreter ends: at a leaf, or at a call that is
    never answered (a promise that never settles). *)
Inductive outcome (E : Type → Type) (Err A : Type) : Type :=
| Finished (r : result Err A)
| Pending {X : Type} (ev : E X).

Arguments Finished {E Err A} r.
Arguments Pending {E Err A X} ev.

Section prog.
Context {E : Type → Type} {Err : Type}.
#[local] Abbreviation prog := (prog E Err).
#[local] Abbreviation event := (event E).

(** Sequencing: [bind p k] runs [p], then [k] on what [p] returns; an
    exception of [p] skips [k]. *)
Fixpoint bind {A B} (k : A → prog B) (p : prog A) : prog B :=
  match p with
  | Ret a => k a
  | Throw e => Throw e
  | Vis ev c => Vis ev (λ x, bind k (c x))
  end.

(** [try { p } catch (e) { h e }]. *)
Fixpoint try_catch {A} (p : prog A) (h : Err → prog A) : prog A :=
  match p with
  | Ret a => Ret a
  | Throw e => h e
  | Vis ev c => Vis ev (λ x, try_catch (c x) h)
  end.

(** A call that answers [x]. *)
Definition trigger {X} (ev : E X) : prog X := Vis ev Ret.

(** A call that either answers or throws (a promise that resolves or
    rejects, a function that returns or throws). *)
Definition call {X} (ev : E (Err + X)) : prog X :=
  Vis ev (λ r, match r with inl e => Throw e | inr x => Ret x end).

(** A result as a leaf. *)
Definition of_result {A} (r : result Err A) : prog A :=
  match r with Returned a => Ret a | Thrown e => Throw e end.

(** A pure computation that may throw, as a program. *)
Definition lift {A} (r : Err + A) : prog A :=
  match r with inl e => Throw e | inr a => Ret a end.

(** ** Equivalence: the same tree up to extensional equality of the
    continuations *)

Fixpoint prog_equiv {A} (p q : prog A) : Prop :=
  match p with
  | Ret a => q = Ret a
  | Throw e => q = Throw e
  | Vis ev k => ∃ k', q = Vis ev k' ∧ ∀ x, prog_equiv (k x) (k' x)
  end.

(** ** Steps

    [steps p tr q]: by the answered calls [tr], in this order, [p] becomes
    [q].  The programs are the states of a transition system whose labels
    are the events. *)
Inductive steps {A} : prog A → list event → prog A → Prop :=
| steps_nil p : steps p [] p
| steps_cons X (ev : E X) k x tr q :
    steps (k x) tr q → steps (Vis ev k) (Event ev x :: tr) q.

(** [exec p tr r]: [p] runs to its end with trace [tr] and result [r]. *)
Definition exec {A} (p : prog A) (tr : list event) (r : result Err A) : Prop :=
  steps p tr (of_result r).

(** ** Interpretation

    A handler answers a call in a world [W] and changes the world, or does
    not answer ([None]).  [run] is total: a program is a finite tree. *)
Definition handler (W : Type) : Type := ∀ X, E X → W → option (X * W).

Record run_result (W A : Type) : Type :=
  RunResult { run_outcome : outcome E Err A; run_world : W; run_trace : list event }.

Arguments RunResult {W A} _ _ _.
Arguments run_outcome {W A} _.
Arguments run_world {W A} _.
Arguments run_trace {W A} _.

Definition log {W A} (e : event) (r : run_result W A) : run_result W A :=
  RunResult (run_outcome r) (run_world r) (e :: run_trace r).

Fixpoint run {W A} (h : handler W) (p : prog A) (w : W) : run_result W A :=
  match p with
  | Ret a => RunResult (Finished (Returned a)) w []
  | Throw e => RunResult (Finished (Thrown e)) w []
  | Vis ev k =>
      match h _ ev w with
      | Some (x, w') => log (Event ev x) (run h (k x) w')
      | None => RunResult (Pending ev) w []
      end
  end.

(** ** Bounds on what a program does

    [at_most c n p]: on every path of [p], at most [n] calls satisfy [c]. *)
Inductive at_most (c : ∀ X, E X → bool) {A} : nat → prog A → Prop :=
| at_most_ret n a : at_most c n (Ret a)
| at_most_throw n e : at_most c n (Throw e)
| at_most_skip n X (ev : E X) k :
    c X ev = false → (∀ x, at_most c n (k x)) → at_most c n (Vis ev k)
| at_most_count n X (ev : E X) k :
    (∀ x, at_most c n (k x)) → at_most c (S n) (Vis ev k).

(** [never c p]: no path of [p] has a call that satisfies [c]. *)
Definition never (c : ∀ X, E X → bool) {A} (p : prog A) : Prop := at_most c 0 p.

(** Every call: [at_most any_call n p] bounds the length of the paths of
    [p]. *)
Definition any_call : ∀ X, E X → bool := λ _ _, true.

(** [silent p]: [p] performs no call at all. *)
Definition silent {A} (p : prog A) : bool :=
  match p with Vis _ _ => false | _ => true end.

(** Calls of a trace that satisfy [c]. *)
Definition count (c : ∀ X, E X → bool) (tr : list event) : nat :=
  count_if (λ e, c _ (ev_call e)) tr.

(** ** Postconditions

    [wp p Q]: whatever the calls answer, when [p] comes to its end with trace
    [tr] and result [r], [Q tr r] holds.  It is computed on the tree, so a
    goal [wp p Q] for a given program unfolds into one goal per path. *)
Fixpoint wp {A} (p : prog A) (Q : list event → result Err A → Prop) : Prop :=
  match p with
  | Ret a => Q [] (Returned a)
  | Throw e => Q [] (Thrown e)
  | Vis ev k => ∀ x, wp (k x) (λ tr r, Q (Event ev x :: tr) r)
  end.

End prog.

Arguments run_result E Err W A : clear implicits.
Arguments RunResult {E Err W A} _ _ _.
Arguments run_outcome {E Err W A} _.
Arguments run_world {E Err W A} _.
Arguments run_trace {E Err W A} _.
Arguments handler E W : clear implicits.

#[export] Instance prog_ret {E Err} : MRet (prog E Err) := λ _, Ret.
#[export] Instance prog_bind {E Err} : MBind (prog E Err) := λ _ _, bind.
#[export] Instance prog_fmap {E Err} : FMap (prog E Err) :=
  λ _ _ f, bind (λ a, Ret (f a)).
#[export] Instance prog_throw {E Err} : MThrow Err (prog E Err) := λ _, Throw.
#[export] Instance prog_equiv_inst {E Err A} : Equiv (prog E Err A) := prog_equiv.

Notation "'TRY' p 'CATCH' e => h" := (try_catch p (λ e, h))
  (at level 10, p at level 200, e name, h at level 200) : prog_scope.

(** ** Monad laws and the equivalence *)

Section laws.
Context {E : Type → Type} {Err : Type}.
#[local] Abbreviation prog := (prog E Err).
Implicit Types (tr : list (event E)).

Lemma bind_ret_l {A B} (a : A) (k : A → prog B) : (Ret a ≫= k) = k a.
Proof. done. Qed.

Lemma bind_throw {A B} (e : Err) (k : A → prog B) : (Throw e ≫= k) = Throw e.
Proof. done. Qed.

Lemma bind_vis {A B X} (ev : E X) (c : X → prog A) (k : A → prog B) :
  (Vis ev c ≫= k) = Vis ev (λ x, c x ≫= k).
Proof. done. Qed.

Lemma try_catch_ret {A} (a : A) (h : Err → prog A) : try_catch (Ret a) h = Ret a.
Proof. done. Qed.

Lemma try_catch_throw {A} (e : Err) (h : Err → prog A) : try_catch (Throw e) h = h e.
Proof. done. Qed.

Lemma prog_equiv_unfold {A} (p q : prog A) :
  p ≡ q ↔
  match p with
  | Ret a => q = Ret a
  | Throw e => q = Throw e
  | Vis ev k => ∃ k', q = Vis ev k' ∧ ∀ x, k x ≡ k' x
  end.
Proof. by destruct p. Qed.

#[export] Instance prog_equiv_refl {A} : Reflexive (≡@{prog A}).
Proof.
  intros p. induction p as [a|e|X ev k IH]; apply prog_equiv_unfold; eauto.
Qed.

#[export] Instance prog_equiv_trans {A} : Transitive (≡@{prog A}).
Proof.
  intros p. induction p as [a|e|X ev k IH]; intros q r; rewrite !prog_equiv_unfold.
  - by intros ->.
  - by intros ->.
  - intros (k1 & -> & H1) (k2 & -> & H2). exists k2.
    split; [done|]. intros x. eapply IH; [apply H1|apply H2].
Qed.

#[export] Instance prog_equiv_sym {A} : Symmetric (≡@{prog A}).
Proof.
  intros p. induction p as [a|e|X ev k IH]; intros q; rewrite !prog_equiv_unfold.
  - by intros ->.
  - by intros ->.
  - intros (k1 & -> & H1). exists k. split; [done|]. intros x. apply IH, H1.
Qed.

#[export] Instance prog_equiv_equivalence {A} : Equivalence (≡@{prog A}).
Proof. split; apply _. Qed.

Lemma prog_equiv_vis {A X} (ev : E X) (k k' : X → prog A) :
  (∀ x, k x ≡ k' x) → Vis ev k ≡ Vis ev k'.
Proof. intros H. apply prog_equiv_unfold. by exists k'. Qed.

Lemma bind_ret_r {A} (p : prog A) : (p ≫= Ret) ≡ p.
Proof. induction p; [done..|]. by apply prog_equiv_vis. Qed.

Lemma bind_assoc {A B C} (p : prog A) (k : A → prog B) (k' : B → prog C) :
  ((p ≫= k) ≫= k') ≡ (p ≫= λ a, k a ≫= k').
Proof. induction p; [done..|]. by apply prog_equiv_vis. Qed.

#[export] Instance bind_proper {A B} :
  Proper (pointwise_relation A (≡) ==> (≡) ==> (≡@{prog B})) mbind.
Proof.
  intros k k' Hk p. induction p as [a|e|X ev c IH]; intros q;
    rewrite prog_equiv_unfold.
  - intros ->. apply Hk.
  - by intros ->.
  - intros (c' & -> & Hc). apply prog_equiv_vis. intros x. apply IH, Hc.
Qed.

#[export] Instance try_catch_proper {A} :
  Proper ((≡) ==> pointwise_relation Err (≡) ==> (≡@{prog A})) try_catch.
Proof.
  intros p. induction p as [a|e|X ev c IH];
    intros q Hq%prog_equiv_unfold h h' Hh.
  - by subst.
  - subst. apply Hh.
  - destruct Hq as (c' & -> & Hc). apply prog_equiv_vis. intros x.
    apply IH; [apply Hc|done].
Qed.

Lemma bind_call {A X} (ev : E (Err + X)) (k : X → prog A) :
  (call ev ≫= k) ≡ Vis ev (λ r, match r with inl e => Throw e | inr x => k x end).
Proof. apply prog_equiv_vis. by intros [e|x]. Qed.

End laws.

(** ** Steps and executions *)

Section steps.
Context {E : Type → Type} {Err : Type}.
#[local] Abbreviation prog := (prog E Err).
Implicit Types (tr : list (event E)).

(** Inversion of [steps] by the shape of the program. *)
Lemma steps_inv {A} (p q : prog A) tr :
  steps p tr q →
  match p with
  | Vis ev k =>
      (tr = [] ∧ q = p) ∨ ∃ x tr', tr = Event ev x :: tr' ∧ steps (k x) tr' q
  | _ => tr = [] ∧ q = p
  end.
Proof. destruct 1 as [[]|]; eauto 6. Qed.

Lemma steps_ret_inv {A} (a : A) (q : prog A) tr :
  steps (Ret a) tr q → tr = [] ∧ q = Ret a.
Proof. apply (steps_inv (Ret a)). Qed.

Lemma steps_throw_inv {A} e (q : prog A) tr :
  steps (Throw e) tr q → tr = [] ∧ q = Throw e.
Proof. apply (steps_inv (Throw e)). Qed.

Lemma steps_trans {A} (p q r : prog A) tr tr' :
  steps p tr q → steps q tr' r → steps p (tr ++ tr') r.
Proof. induction 1; simpl; [done|]. intros. constructor. auto. Qed.

Lemma steps_bind {A B} (k : A → prog B) (p q : prog A) tr :
  steps p tr q → steps (p ≫= k) tr (q ≫= k).
Proof. induction 1; [constructor|]. by apply (steps_cons _ ev). Qed.

Lemma steps_try_catch {A} (h : Err → prog A) (p q : prog A) tr :
  steps p tr q → steps (try_catch p h) tr (try_catch q h).
Proof. induction 1; [constructor|]. by apply (steps_cons _ ev). Qed.

(** A run of [p ≫= k] is a run that stays in [p], or a run of [p] to a
    value [a] followed by a run of [k a]. *)
Lemma steps_bind_inv {A B} (k : A → prog B) (p : prog A) (q : prog B) tr :
  steps (p ≫= k) tr q →
  (∃ p', steps p tr p' ∧ q = (p' ≫= k)) ∨
  (∃ a tr1 tr2, tr = tr1 ++ tr2 ∧ steps p tr1 (Ret a) ∧ steps (k a) tr2 q).
Proof.
  revert tr. induction p as [a|e|X ev c IH]; intros tr H.
  - right. exists a, [], tr. split_and!; [done|constructor|done].
  - left. apply steps_throw_inv in H as [-> ->]. exists (Throw e). split; [constructor|done].
  - apply (steps_inv (Vis ev _)) in H as [[-> ->]|(x & tr' & -> & H)].
    { left. exists (Vis ev c). split; [constructor|done]. }
    apply IH in H as [(p' & H & ->)|(a & tr1 & tr2 & -> & H1 & H2)].
    + left. exists p'. split; [by constructor|done].
    + right. exists a, (Event ev x :: tr1), tr2. split_and!; [done|by constructor|done].
Qed.

Lemma exec_ret_inv {A} (a : A) tr (r : result Err A) :
  exec (Ret a) tr r → tr = [] ∧ r = Returned a.
Proof. intros [-> H]%steps_ret_inv. by destruct r; simplify_eq/=. Qed.

Lemma exec_throw_inv {A} e tr (r : result Err A) :
  exec (Throw e) tr r → tr = [] ∧ r = Thrown e.
Proof. intros [-> H]%steps_throw_inv. by destruct r; simplify_eq/=. Qed.

Lemma exec_vis_inv {A X} (ev : E X) (k : X → prog A) tr r :
  exec (Vis ev k) tr r → ∃ x tr', tr = Event ev x :: tr' ∧ exec (k x) tr' r.
Proof.
  intros [[_ H]|H]%(steps_inv (Vis ev k)); [by destruct r|done].
Qed.

(** An execution of [p ≫= k] is one of [p] that throws, or one of [p] that
    returns [a] followed by one of [k a]. *)
Lemma exec_bind_inv {A B} (k : A → prog B) (p : prog A) tr r :
  exec (p ≫= k) tr r →
  (∃ e, exec p tr (Thrown e) ∧ r = Thrown e) ∨
  (∃ a tr1 tr2, tr = tr1 ++ tr2 ∧ exec p tr1 (Returned a) ∧ exec (k a) tr2 r).
Proof.
  intros [(p' & H & Hr)|H]%steps_bind_inv; [|right; done].
  destruct p' as [a|e|X ev c]; simpl in Hr.
  - right. exists a, tr, []. rewrite app_nil_r. split_and!; [done..|].
    rewrite <-Hr. constructor.
  - left. exists e. destruct r; simplify_eq/=. done.
  - by destruct r.
Qed.

Lemma exec_bind {A B} (k : A → prog B) (p : prog A) a tr1 tr2 r :
  exec p tr1 (Returned a) → exec (k a) tr2 r → exec (p ≫= k) (tr1 ++ tr2) r.
Proof. intros H1 H2. eapply steps_trans; [by apply steps_bind|done]. Qed.

Lemma exec_bind_thrown {A B} (k : A → prog B) (p : prog A) e tr :
  exec p tr (Thrown e) → exec (p ≫= k) tr (Thrown e).
Proof. intros H. by apply (steps_bind k) in H. Qed.

(** An execution of [try p catch h] is one of [p] that returns, or one of
    [p] that throws [e] followed by one of [h e]. *)
Lemma exec_try_catch_inv {A} (p : prog A) (h : Err → prog A) tr r :
  exec (try_catch p h) tr r →
  (∃ a, exec p tr (Returned a) ∧ r = Returned a) ∨
  (∃ e tr1 tr2, tr = tr1 ++ tr2 ∧ exec p tr1 (Thrown e) ∧ exec (h e) tr2 r).
Proof.
  revert tr. induction p as [a|e|X ev c IH]; intros tr H.
  - left. apply exec_ret_inv in H as [-> ->]. exists a. split; [constructor|done].
  - right. exists e, [], tr. split_and!; [done|constructor|done].
  - apply exec_vis_inv in H as (x & tr' & -> & H).
    apply IH in H as [(a & H & ->)|(e & tr1 & tr2 & -> & H1 & H2)].
    + left. exists a. split; [by constructor|done].
    + right. exists e, (Event ev x :: tr1), tr2. split_and!; [done|by constructor|done].
Qed.

End steps.

(** ** The interpreter *)

Section run.
Context {E : Type → Type} {Err W : Type}.
#[local] Abbreviation prog := (prog E Err).
Implicit Types (h : handler E W) (w : W).

(** What follows a run [r] of [p] in a run of [p ≫= k]. *)
Definition then_run {A B} h (k : A → prog B) (r : run_result E Err W A) :
    run_result E Err W B :=
  match run_outcome r with
  | Finished (Returned a) =>
      let r' := run h (k a) (run_world r) in
      RunResult (run_outcome r') (run_world r') (run_trace r ++ run_trace r')
  | Finished (Thrown e) => RunResult (Finished (Thrown e)) (run_world r) (run_trace r)
  | Pending ev => RunResult (Pending ev) (run_world r) (run_trace r)
  end.

(** What follows a run [r] of [p] in a run of [try p catch h]. *)
Definition catch_run {A} h (c : Err → prog A) (r : run_result E Err W A) :
    run_result E Err W A :=
  match run_outcome r with
  | Finished (Thrown e) =>
      let r' := run h (c e) (run_world r) in
      RunResult (run_outcome r') (run_world r') (run_trace r ++ run_trace r')
  | _ => r
  end.

Lemma then_run_log {A B} h (k : A → prog B) e r :
  then_run h k (log e r) = log e (then_run h k r).
Proof. destruct r as [[[a|x]|X ev] w tr]; done. Qed.

Lemma catch_run_log {A} h (c : Err → prog A) e r :
  catch_run h c (log e r) = log e (catch_run h c r).
Proof. destruct r as [[[a|x]|X ev] w tr]; done. Qed.

Lemma run_bind {A B} h (p : prog A) (k : A → prog B) w :
  run h (p ≫= k) w = then_run h k (run h p w).
Proof.
  revert w. induction p as [a|e|X ev c IH]; intros w.
  - unfold then_run. simpl. by destruct (run h (k a) w).
  - done.
  - simpl. destruct (h X ev w) as [[x w']|]; [|done].
    by rewrite then_run_log, <-IH.
Qed.

Lemma run_try_catch {A} h (p : prog A) (c : Err → prog A) w :
  run h (try_catch p c) w = catch_run h c (run h p w).
Proof.
  revert w. induction p as [a|e|X ev k IH]; intros w.
  - done.
  - unfold catch_run. simpl. by destruct (run h (c e) w).
  - simpl. destruct (h X ev w) as [[x w']|]; [|done].
    by rewrite catch_run_log, <-IH.
Qed.

(** Equivalent programs run alike. *)
Lemma run_equiv {A} h (p q : prog A) w : p ≡ q → run h p w = run h q w.
Proof.
  revert q w. induction p as [a|e|X ev k IH]; intros q w Hq%prog_equiv_unfold.
  - by subst.
  - by subst.
  - destruct Hq as (k' & -> & Hk). simpl.
    destruct (h X ev w) as [[x w']|]; [|done]. by rewrite (IH x (k' x)).
Qed.

#[export] Instance run_proper {A} h :
  Proper ((≡) ==> (=) ==> (=)) (run (Err:=Err) (A:=A) h).
Proof. intros p q Hpq w ? <-. by apply run_equiv. Qed.

(** The trace of a run is a trace of the program: the interpreter follows
    the step relation. *)
Lemma run_exec {A} h (p : prog A) w r :
  run_outcome (run h p w) = Finished r → exec p (run_trace (run h p w)) r.
Proof.
  revert w. induction p as [a|e|X ev k IH]; intros w; simpl.
  - intros [= <-]. constructor.
  - intros [= <-]. constructor.
  - destruct (h X ev w) as [[x w']|]; [|done]. simpl. intros H.
    constructor. by apply IH.
Qed.

(** A run that does not finish stops at a call of the program that the
    handler does not answer in the world reached. *)
Lemma run_pending {A} h (p : prog A) w :
  (∀ r, run_outcome (run h p w) ≠ Finished r) →
  ∃ X (ev : E X) k,
    run_outcome (run h p w) = Pending ev ∧
    steps p (run_trace (run h p w)) (Vis ev k) ∧
    h X ev (run_world (run h p w)) = None.
Proof.
  revert w. induction p as [a|e|Y ev' k IH]; intros w; simpl.
  - intros H. by destruct (H (Returned a)).
  - intros H. by destruct (H (Thrown e)).
  - destruct (h Y ev' w) as [[x w']|] eqn:Eh; simpl.
    + intros (X & ev & k' & H1 & H2 & H3)%IH. exists X, ev, k'.
      split_and!; [done|by constructor|done].
    + intros _. exists Y, ev', k. split_and!; [done|constructor|done].
Qed.

(** *** Runs by their outcome and final world

    [yields h p w o w']: under [h], from [w], the program [p] stops with
    outcome [o] in world [w'].  The lemmas compose the runs of the parts of
    a program. *)
Definition yields {A} h (p : prog A) (w : W) (o : outcome E Err A) (w' : W) : Prop :=
  run_outcome (run h p w) = o ∧ run_world (run h p w) = w'.

Lemma yields_run {A} h (p : prog A) w :
  yields h p w (run_outcome (run h p w)) (run_world (run h p w)).
Proof. done. Qed.

Lemma yields_det {A} h (p : prog A) w o1 o2 w1 w2 :
  yields h p w o1 w1 → yields h p w o2 w2 → o1 = o2 ∧ w1 = w2.
Proof. intros [<- <-] [<- <-]. done. Qed.

Lemma yields_ret {A} h (a : A) w : yields h (Ret a) w (Finished (Returned a)) w.
Proof. done. Qed.

Lemma yields_throw {A} h e w : yields h (Throw e : prog A) w (Finished (Thrown e)) w.
Proof. done. Qed.

Lemma yields_vis {A X} h (ev : E X) (k : X → prog A) w x w1 o w' :
  h X ev w = Some (x, w1) → yields h (k x) w1 o w' → yields h (Vis ev k) w o w'.
Proof. unfold yields. simpl. intros -> [<- <-]. by destruct (run h (k x) w1). Qed.

Lemma yields_vis_pending {A X} h (ev : E X) (k : X → prog A) w :
  h X ev w = None → yields h (Vis ev k) w (Pending ev) w.
Proof. unfold yields. simpl. by intros ->. Qed.

Lemma yields_bind {A B} h (p : prog A) (k : A → prog B) w a w1 o w' :
  yields h p w (Finished (Returned a)) w1 → yields h (k a) w1 o w' →
  yields h (p ≫= k) w o w'.
Proof.
  unfold yields. rewrite run_bind. unfold then_run.
  intros [-> ->] [<- <-]. done.
Qed.

Lemma yields_bind_thrown {A B} h (p : prog A) (k : A → prog B) w e w' :
  yields h p w (Finished (Thrown e)) w' →
  yields h (p ≫= k) w (Finished (Thrown e)) w'.
Proof. unfold yields. rewrite run_bind. unfold then_run. by intros [-> ->]. Qed.

Lemma yields_bind_pending {A B X} h (p : prog A) (k : A → prog B) w (ev : E X) w' :
  yields h p w (Pending ev) w' → yields h (p ≫= k) w (Pending ev) w'.
Proof. unfold yields. rewrite run_bind. unfold then_run. by intros [-> ->]. Qed.

Lemma yields_try_catch {A} h (p : prog A) (c : Err → prog A) w a w' :
  yields h p w (Finished (Returned a)) w' →
  yields h (try_catch p c) w (Finished (Returned a)) w'.
Proof.
  unfold yields. rewrite run_try_catch. unfold catch_run.
  intros [Ho Hw]. by rewrite Ho.
Qed.

Lemma yields_try_catch_thrown {A} h (p : prog A) (c : Err → prog A) w e w1 o w' :
  yields h p w (Finished (Thrown e)) w1 → yields h (c e) w1 o w' →
  yields h (try_catch p c) w o w'.
Proof.
  unfold yields. rewrite run_try_catch. unfold catch_run.
  intros [-> ->] [<- <-]. done.
Qed.

Lemma yields_equiv {A} h (p q : prog A) w o w' :
  p ≡ q → yields h p w o w' → yields h q w o w'.
Proof. unfold yields. by intros ->%(run_equiv h _ _ w). Qed.

#[export] Instance yields_proper {A} h :
  Proper ((≡) ==> (=) ==> (=) ==> (=) ==> iff) (yields (A:=A) h).
Proof.
  intros p q Hpq w ? <- o ? <- w' ? <-. split; apply yields_equiv; [done|by symmetry].
Qed.

End run.

(** ** Bounds *)

Section bounds.
Context {E : Type → Type} {Err : Type}.
#[local] Abbreviation prog := (prog E Err).
Implicit Types (c : ∀ X, E X → bool) (tr : list (event E)).

Lemma at_most_mono c {A} (p : prog A) n m :
  n ≤ m → at_most c n p → at_most c m p.
Proof.
  intros Hnm H. revert m Hnm. induction H as [| | |n X ev k _ IH]; intros m Hm.
  - constructor.
  - constructor.
  - apply at_most_skip; auto.
  - destruct m as [|m]; [lia|]. apply at_most_count. intros x. apply IH. lia.
Qed.

Lemma at_most_vis_inv c {A X} (ev : E X) (k : X → prog A) n :
  at_most c n (Vis ev k) →
  (if c X ev then 1 else 0) ≤ n ∧
  ∀ x, at_most c (n - (if c X ev then 1 else 0)) (k x).
Proof.
  intros H. refine (match H in at_most _ n p return
    match p with
    | Vis ev k => (if c _ ev then 1 else 0) ≤ n ∧
                  ∀ x, at_most c (n - (if c _ ev then 1 else 0)) (k x)
    | _ => True
    end with
    | at_most_skip _ _ _ _ _ Hc Hk => _
    | at_most_count _ _ _ _ _ Hk => _
    | _ => I end).
  - rewrite Hc, Nat.sub_0_r. split; [lia|apply Hk].
  - destruct (c _ _); simpl; (split; [lia|]); intros x.
    + rewrite Nat.sub_0_r. apply Hk.
    + eapply at_most_mono; [|apply Hk]. lia.
Qed.

Lemma at_most_bind c {A B} (p : prog A) (k : A → prog B) n m :
  at_most c n p → (∀ a, at_most c m (k a)) → at_most c (n + m) (p ≫= k).
Proof.
  intros H Hk. induction H as [n a|n e|n X ev c' Hc _ IH|n X ev c' _ IH].
  - eapply at_most_mono; [|apply Hk]. lia.
  - constructor.
  - apply at_most_skip; auto.
  - apply (at_most_count c (n + m)), IH.
Qed.

Lemma at_most_try_catch c {A} (p : prog A) (h : Err → prog A) n m :
  at_most c n p → (∀ e, at_most c m (h e)) → at_most c (n + m) (try_catch p h).
Proof.
  intros H Hh. induction H as [n a|n e|n X ev c' Hc _ IH|n X ev c' _ IH].
  - constructor.
  - eapply at_most_mono; [|apply Hh]. lia.
  - apply at_most_skip; auto.
  - apply (at_most_count c (n + m)), IH.
Qed.

Lemma at_most_call c {X} (ev : E (Err + X)) :
  at_most c (if c _ ev then 1 else 0) (call ev).
Proof.
  destruct (c _ ev) eqn:Hc.
  - apply at_most_count. intros [e|x]; constructor.
  - apply at_most_skip; [done|]. intros [e|x]; constructor.
Qed.

Lemma at_most_trigger c {X} (ev : E X) :
  at_most c (if c _ ev then 1 else 0) (trigger (Err:=Err) ev).
Proof.
  destruct (c _ ev) eqn:Hc.
  - apply at_most_count. constructor.
  - apply at_most_skip; [done|]. constructor.
Qed.

Lemma at_most_lift c {A} (r : Err + A) n : at_most c n (lift (E:=E) r).
Proof. destruct r; constructor. Qed.

(** The bound holds of every trace of the program, finished or not, and
    what remains of the program keeps what remains of the bound. *)
Lemma count_nil c : count c [] = 0.
Proof. done. Qed.

Lemma count_cons c {X} (ev : E X) x tr :
  count c (Event ev x :: tr) = (if c X ev then 1 else 0) + count c tr.
Proof. unfold count. by rewrite count_if_cons. Qed.

Lemma count_app c tr tr' : count c (tr ++ tr') = count c tr + count c tr'.
Proof. apply count_if_app. Qed.

Lemma at_most_steps c {A} (p q : prog A) n tr :
  at_most c n p → steps p tr q →
  count c tr ≤ n ∧ at_most c (n - count c tr) q.
Proof.
  intros H Hs. revert n H. induction Hs as [p|X ev k x tr q _ IH]; intros n H.
  - rewrite count_nil, Nat.sub_0_r. split; [lia|done].
  - apply at_most_vis_inv in H as [Hn H]. destruct (IH _ (H x)) as [H1 H2].
    rewrite count_cons. split; [lia|]. by rewrite Nat.sub_add_distr.
Qed.

(** On a finished execution the bound is a bound on the trace. *)
Lemma at_most_exec c {A} (p : prog A) n tr r :
  at_most c n p → exec p tr r → count c tr ≤ n.
Proof. intros H Hs. by destruct (at_most_steps c _ _ _ _ H Hs). Qed.

(** A run under any handler, in any world, respects the bound. *)
Lemma at_most_run c {A W} (h : handler E W) (p : prog A) n w :
  at_most c n p → count c (run_trace (run h p w)) ≤ n.
Proof.
  intros H. revert w. induction H as [n a|n e|n X ev k Hc _ IH|n X ev k _ IH];
    intros w; simpl; rewrite ?count_nil; try lia.
  - destruct (h X ev w) as [[x w']|]; simpl; rewrite ?count_nil; [|lia].
    rewrite count_cons, Hc. apply IH.
  - destruct (h X ev w) as [[x w']|]; simpl; rewrite ?count_nil; [|lia].
    rewrite count_cons. specialize (IH x w'). destruct (c X ev); lia.
Qed.

End bounds.

(** ** Postconditions *)

Section wp.
Context {E : Type → Type} {Err : Type}.
#[local] Abbreviation prog := (prog E Err).
Implicit Types (tr : list (event E)).

Lemma wp_mono {A} (p : prog A) (Q Q' : list (event E) → result Err A → Prop) :
  (∀ tr r, Q tr r → Q' tr r) → wp p Q → wp p Q'.
Proof.
  revert Q Q'. induction p as [a|e|X ev k IH]; simpl; intros Q Q' HQ; auto.
  intros H x. eapply IH; [|apply H]. simpl. auto.
Qed.

(** [wp] is the property of all executions. *)
Lemma wp_exec {A} (p : prog A) (Q : list (event E) → result Err A → Prop) :
  wp p Q ↔ ∀ tr r, exec p tr r → Q tr r.
Proof.
  revert Q. induction p as [a|e|X ev k IH]; intros Q; simpl.
  - split; [by intros H tr r [-> ->]%exec_ret_inv|]. intros H. apply H. constructor.
  - split; [by intros H tr r [-> ->]%exec_throw_inv|]. intros H. apply H. constructor.
  - split.
    + intros H tr r (x & tr' & -> & Hx)%exec_vis_inv.
      by apply (proj1 (IH x _) (H x)).
    + intros H x. apply IH. intros tr r Hx. apply H. by constructor.
Qed.

Lemma wp_bind {A B} (p : prog A) (k : A → prog B)
    (Q : list (event E) → result Err B → Prop) :
  wp (p ≫= k) Q ↔
  wp p (λ tr r,
    match r with
    | Returned a => wp (k a) (λ tr' r', Q (tr ++ tr') r')
    | Thrown e => Q tr (Thrown e)
    end).
Proof.
  revert Q. induction p as [a|e|X ev c IH]; intros Q; simpl; [done..|].
  split; intros H x; apply (IH x (λ tr r, Q (Event ev x :: tr) r)), H.
Qed.

Lemma wp_try_catch {A} (p : prog A) (h : Err → prog A)
    (Q : list (event E) → result Err A → Prop) :
  wp (try_catch p h) Q ↔
  wp p (λ tr r,
    match r with
    | Returned a => Q tr (Returned a)
    | Thrown e => wp (h e) (λ tr' r', Q (tr ++ tr') r')
    end).
Proof.
  revert Q. induction p as [a|e|X ev c IH]; intros Q; simpl; [done..|].
  split; intros H x; apply (IH x (λ tr r, Q (Event ev x :: tr) r)), H.
Qed.

Lemma wp_conj {A} (p : prog A) (Q Q' : list (event E) → result Err A → Prop) :
  wp p Q → wp p Q' → wp p (λ tr r, Q tr r ∧ Q' tr r).
Proof. rewrite !wp_exec. auto. Qed.

(** A postcondition holds of the run under any handler that finishes. *)
Lemma wp_run {A W} (h : handler E W) (p : prog A) w r
    (Q : list (event E) → result Err A → Prop) :
  wp p Q → run_outcome (run h p w) = Finished r → Q (run_trace (run h p w)) r.
Proof. rewrite wp_exec. intros H Hr. by apply H, run_exec. Qed.

(** Equivalent programs have the same postconditions. *)
Lemma wp_equiv {A} (p q : prog A) (Q : list (event E) → result Err A → Prop) :
  p ≡ q → wp p Q → wp q Q.
Proof.
  revert q Q. induction p as [a|e|X ev k IH]; intros q Q Hq%prog_equiv_unfold.
  - by subst.
  - by subst.
  - destruct Hq as (k' & -> & Hk). simpl. intros H x. by apply (IH x), H.
Qed.

#[export] Instance wp_proper {A} :
  Proper ((≡) ==> (=) ==> iff) (wp (E:=E) (Err:=Err) (A:=A)).
Proof.
  intros p q Hpq Q ? <-. split; apply wp_equiv; [done|by symmetry].
Qed.

(** The bound of a sequence when the bound of the continuation needs what
    the first part returns. *)
Lemma at_most_bind_wp c {A B} (p : prog A) (k : A → prog B) n m :
  at_most c n p →
  wp p (λ _ r, ∀ a, r = Returned a → at_most c m (k a)) →
  at_most c (n + m) (p ≫= k).
Proof.
  intros H. induction H as [n a|n e|n X ev c' Hc _ IH|n X ev c' _ IH]; simpl.
  - intros Hk. eapply at_most_mono; [|by apply Hk]. lia.
  - constructor.
  - intros Hk. apply at_most_skip; [done|]. intros x. apply IH.
    eapply wp_mono; [|apply Hk]. auto.
  - intros Hk. apply (at_most_count c (n + m)). intros x. apply IH.
    eapply wp_mono; [|apply Hk]. auto.
Qed.

(** The bound of [at_most] as a postcondition. *)
Lemma at_most_wp c {A} (p : prog A) n :
  at_most c n p → wp p (λ tr _, count c tr ≤ n).
Proof. intros H. apply wp_exec. intros tr r. by apply at_most_exec. Qed.

End wp.
