(* ===== verification/Url.v ===== *)
(** * Url: what generate.js asks of Node's [url] module, and a model of it

    generate.js calls [url.parse] (to validate the target and read its
    hostname) and [url.resolve] (to make the favicon's address absolute).
    Both belong to Node, not to the repository: the program is verified
    against the interfaces [UrlParse] and [UrlResolve] of module [Url], and
    module [NodeUrl] gives a model of the legacy parser that implements the
    first, written after Node's lib/url.js ([Url.prototype.parse] and
    [parseHost]).

    Of Node's [Url] object the model computes [protocol], [slashes],
    [auth] (not percent-decoded), [host], [port], [hostname], [hash],
    [search], [query], [pathname] and [path]; [href] is not modelled.
    International hostnames (punycode) are outside the model: the parser is
    specified on strings of ASCII code units. *)

From S2P Require Import Prelude JsString JsValue.

Module Url.

(** Node's [Url] object.  [None] is [null]. *)
Record ParsedUrl : Type := {
  protocol : option string;
  slashes : bool;
  auth : option string;
  host : option string;
  port : option string;
  hostname : option string;
  hash : option string;
  search : option string;
  query : option string;
  pathname : option string;
  path : option string;
}.

#[global] Instance ParsedUrl_eq_dec : EqDecision ParsedUrl.
Proof. solve_decision. Defined.

(** An object is truthy. *)
#[global] Instance ParsedUrl_truthy : Js.Truthy ParsedUrl := λ _, true.

(** [url.parse(s)] for a string [s]. *)
Class UrlParse : Type := url_parse : string → ParsedUrl.

(** [url.resolve(from, to)]. *)
Class UrlResolve : Type := url_resolve : string → string → string.

(** The separators that the program writes around a hostname: [/] in the
    paths of the icons, [;] in the header that offers the file. *)
Definition separators : list nat := [47; 59].

(** What the program's proofs use of a parser: the protocol is lower-case
    and ends with a colon, the hostname has no upper-case ASCII letter and
    none of the separators. *)
Class UrlParseLaws `{UrlParse} : Prop := {
  protocol_colon u p :
    protocol (url_parse u) = Some p → ∃ name, p = name +:+ ":" ∧ name ≠ "";
  protocol_lower u p :
    protocol (url_parse u) = Some p → JsString.toLowerCase p = p;
  hostname_lower u h :
    hostname (url_parse u) = Some h → JsString.toLowerCase h = h;
  hostname_no_separator u h n :
    hostname (url_parse u) = Some h → n ∈ separators →
    JsString.existsb (λ c, bool_decide (JsString.code c = n)) h = false;
}.

Lemma hostname_no_slash `{UrlParseLaws} u h :
  hostname (url_parse u) = Some h →
  JsString.existsb (λ c, bool_decide (JsString.code c = 47)) h = false.
Proof. intros Hh. apply (hostname_no_separator u h 47 Hh). by left. Qed.

Lemma hostname_no_semicolon `{UrlParseLaws} u h :
  hostname (url_parse u) = Some h →
  JsString.existsb (λ c, bool_decide (JsString.code c = 59)) h = false.
Proof. intros Hh. apply (hostname_no_separator u h 59 Hh). by right; left. Qed.

End Url.

(** ** A model of Node's legacy parser *)

Module NodeUrl.
Import JsString.

(** *** Scanning helpers *)

(** The longest prefix of code units that satisfy [f], and the rest. *)
Fixpoint span (f : ascii → bool) (s : string) : string * string :=
  match s with
  | String c s' =>
      if f c then let '(a, b) := span f s' in (String c a, b) else ("", s)
  | "" => ("", "")
  end.

(** The same with at most [n] code units in the prefix. *)
Fixpoint span_upto (n : nat) (f : ascii → bool) (s : string) : string * string :=
  match n, s with
  | S n', String c s' =>
      if f c then let '(a, b) := span_upto n' f s' in (String c a, b) else ("", s)
  | _, _ => ("", s)
  end.

(** Position of the first code unit that satisfies [f]. *)
Fixpoint find_index (f : ascii → bool) (s : string) : option nat :=
  match s with
  | String c s' => if f c then Some 0 else S <$> find_index f s'
  | "" => None
  end.

(** Position of the last code unit that satisfies [f]. *)
Fixpoint find_last (f : ascii → bool) (s : string) : option nat :=
  match s with
  | String c s' =>
      match find_last f s' with
      | Some i => Some (S i)
      | None => if f c then Some 0 else None
      end
  | "" => None
  end.

Definition forallb (f : ascii → bool) (s : string) : bool :=
  negb (existsb (negb ∘ f) s).

(** [s.split(sep)] for a one-character separator. *)
Fixpoint split_on (sep : ascii) (s : string) : list string :=
  match s with
  | "" => [""]
  | String c s' =>
      if bool_decide (c = sep) then "" :: split_on sep s'
      else match split_on sep s' with
           | p :: ps => String c p :: ps
           | [] => [String c ""]
           end
  end.

(** [parts.join(sep)]. *)
Fixpoint join_with (sep : string) (parts : list string) : string :=
  match parts with
  | [] => ""
  | [p] => p
  | p :: ps => p +:+ sep +:+ join_with sep ps
  end.

Definition is_digit (c : ascii) : bool :=
  (48 <=? code c)%nat && (code c <=? 57)%nat.

Definition char_in (set : list nat) (c : ascii) : bool :=
  bool_decide (code c ∈ set).

(** *** The tables of lib/url.js, as sets of character codes *)

(** [delims]: [<], [>], the double quote, the back quote, space, CR, LF, TAB. *)
Definition delims : list nat := [60; 62; 34; 96; 32; 13; 10; 9].
(** [unwise]: the braces, [|], the backslash, [^], the back quote, and [delims]. *)
Definition unwise : list nat := [123; 125; 124; 92; 94; 96] ++ delims.
(** [autoEscape]: the single quote and [unwise]. *)
Definition autoEscape : list nat := 39 :: unwise.
(** [nonHostChars]: [%], [/], [?], [;], [#] and [autoEscape]. *)
Definition nonHostChars : list nat := [37; 47; 63; 59; 35] ++ autoEscape.
(** [hostEndingChars]: [/], [?], [#]. *)
Definition hostEndingChars : list nat := [47; 63; 35].

(** [protocolPattern]'s class [[a-z0-9.+-]], case-insensitive. *)
Definition is_proto_char (c : ascii) : bool :=
  is_lower c || is_upper c || is_digit c || char_in [46; 43; 45] c.

(** [hostnamePartPattern]'s class [[+a-z0-9A-Z_-]]. *)
Definition is_host_part_char (c : ascii) : bool :=
  is_lower c || is_upper c || is_digit c || char_in [43; 95; 45] c.

Definition hostlessProtocol (proto : string) : bool :=
  bool_decide (proto ∈ ["javascript"; "javascript:"]).

Definition slashedProtocol (proto : string) : bool :=
  bool_decide (proto ∈ ["http"; "https"; "ftp"; "gopher"; "file";
                        "http:"; "https:"; "ftp:"; "gopher:"; "file:"]).

Definition hostnameMaxLen : nat := 255.

(** *** [Url.prototype.parse] *)

Definition is_char (n : nat) (c : ascii) : bool := bool_decide (code c = n).

(** Back slashes before the query string (or the fragment) become slashes:
    the part of [url] before the first [splitter] is rewritten, where
    [splitter] is [?] when a [?] comes before a [#], and [#] otherwise. *)
Definition fix_backslashes (url : string) : string :=
  let splitter :=
    match find_index (is_char 63) url, find_index (is_char 35) url with
    | Some q, Some h => if (q <? h)%nat then 63 else 35
    | _, _ => 35
    end in
  let bs c := if is_char 92 c then ascii_of_nat 47 else c in
  match find_index (is_char splitter) url with
  | Some i => map bs (take i url) +:+ drop i url
  | None => map bs url
  end.

(** [simplePathPattern]: one or two slashes not followed by a slash, then
    code units other than [?] and white space, then optionally [?] and code
    units other than white space, up to the end.  The answer is the pathname
    and the search string. *)
Definition simple_path (rest : string) : option (string * string) :=
  let lead :=
    match rest with
    | String a (String b r) =>
        if is_char 47 a && is_char 47 b then
          match r with
          | String c _ => if is_char 47 c then None else Some ("//", r)
          | "" => Some ("//", r)
          end
        else if is_char 47 a then Some ("/", String b r) else None
    | String a "" => if is_char 47 a then Some ("/", "") else None
    | "" => None
    end in
  '(sl, r) ← lead;
  let '(p, q) := span (λ c, negb (is_char 63 c || is_space c)) r in
  match q with
  | "" => Some (sl +:+ p, "")
  | String c q' =>
      if is_char 63 c && forallb (negb ∘ is_space) q' then Some (sl +:+ p, q)
      else None
  end.

(** [protocolPattern]: a run of protocol characters followed by a colon, at
    the start.  The answer is the match, colon included, and what follows. *)
Definition match_protocol (rest : string) : option (string * string) :=
  match span is_proto_char rest with
  | (String c name, String d after) =>
      if is_char 58 d then Some (String c name +:+ ":", after) else None
  | _ => None
  end.

(** The test [rest.match(/^\/\/[^@\/]+@[^@\/]+/)]: two slashes, code units
    other than [@] and [/], an [@], and one more such code unit. *)
Definition has_user_at_host (rest : string) : bool :=
  match rest with
  | String a (String b r) =>
      is_char 47 a && is_char 47 b &&
      match span (λ c, negb (is_char 64 c || is_char 47 c)) r with
      | (String _ _, String at_ (String c _)) =>
          is_char 64 at_ && negb (is_char 64 c || is_char 47 c)
      | _ => false
      end
  | _ => false
  end.

(** A string that is not empty, or [None]: the value left in a field by
    [if (s) this.field = s]. *)
Definition truthy_str (s : string) : option string :=
  if Js.truthy s then Some s else None.

(** [parseHost]: the port is what follows the last colon when only digits
    follow it; the hostname is the host without it, when not empty. *)
Definition parse_host (host : string) : option string * option string :=
  match find_last (is_char 58) host with
  | Some i =>
      let digits := drop (S i) host in
      if forallb is_digit digits then (truthy_str digits, truthy_str (take i host))
      else (None, truthy_str host)
  | None => (None, truthy_str host)
  end.

(** The validation of the hostname's parts.  [validate_parts done parts] walks
    the parts left to right; at the first part that is not empty and does not
    match [hostnamePartPattern], the hostname ends with that part's valid
    prefix, and the rest of the part with the parts that follow go to the
    path.  The answer is the hostname's parts and the parts that are no host,
    if any. *)
Definition part_ok (part : string) : bool :=
  forallb is_host_part_char part && (String.length part <=? 63)%nat.

(** Percent-encoding of the [autoEscape] code units of the part after the
    host. *)
Definition hex_digit (n : nat) : ascii :=
  ascii_of_nat (if (n <? 10)%nat then 48 + n else 55 + n).

Definition escape_char (c : ascii) : string :=
  if char_in autoEscape c then
    String (ascii_of_nat 37)
      (String (hex_digit (code c / 16)) (String (hex_digit (code c mod 16)) ""))
  else String c "".

Fixpoint auto_escape (s : string) : string :=
  match s with
  | "" => ""
  | String c s' => escape_char c +:+ auto_escape s'
  end.

(** The object of a URL with no protocol and no host. *)
Definition no_host (pathname search : option string) : Url.ParsedUrl :=
  {| Url.protocol := None; Url.slashes := false; Url.auth := None;
     Url.host := None; Url.port := None; Url.hostname := None;
     Url.hash := None; Url.search := search;
     Url.query := drop 1 <$> search; Url.pathname := pathname;
     Url.path :=
       if Js.truthy pathname || Js.truthy search
       then Some (default "" pathname +:+ default "" search) else None |}.

(** The host part of the slow path: from what follows the protocol and the
    slashes, the authentication, the port, the hostname, whether the
    hostname is an IPv6 literal, and what remains for the path. *)
Record host_part : Type := HostPart {
  hp_auth : option string;
  hp_port : option string;
  hp_hostname : string;
  hp_host : string;
  hp_rest : string;
}.

Definition last_char_is (n : nat) (s : string) : bool :=
  match s with
  | "" => false
  | _ => from_option (is_char n) false (String.get (String.length s - 1) s)
  end.

Definition first_char_is (n : nat) (s : string) : bool :=
  match s with String c _ => is_char n c | "" => false end.

(** A part is tested again with its code units above 127 replaced by [x]. *)
Definition ascii_placeholder (part : string) : string :=
  map (λ c, if (127 <? code c)%nat then ascii_of_nat 120 else c) part.

Fixpoint validate_hostname (parts : list string) : list string * option (list string) :=
  match parts with
  | [] => ([], None)
  | part :: ps =>
      if negb (Js.truthy part) || part_ok part || part_ok (ascii_placeholder part) then
        let '(valid, not_host) := validate_hostname ps in (part :: valid, not_host)
      else
        let '(good, bad) := span_upto 63 is_host_part_char part in
        ([good], Some (bad :: ps))
  end.

(** The validation of the hostname: the name of an IPv6 literal is kept;
    of another name the parts that are no host go to the front of the path. *)
Definition checked_hostname (ipv6 : bool) (hostname rest : string) : string * string :=
  if ipv6 then (hostname, rest)
  else match validate_hostname (split_on "." hostname) with
       | (valid, Some not_host) =>
           (join_with "." valid, "/" +:+ join_with "." not_host +:+ rest)
       | (_, None) => (hostname, rest)
       end.

(** A hostname that is too long is dropped; the others are lower-cased. *)
Definition cased_hostname (hostname : string) : string :=
  if (hostnameMaxLen <? String.length hostname)%nat then ""
  else toLowerCase hostname.

(** The brackets of an IPv6 literal are removed from the hostname. *)
Definition bare_hostname (ipv6 : bool) (hostname : string) : string :=
  if ipv6 then take (String.length hostname - 2) (drop 1 hostname) else hostname.

Definition parse_host_part (rest : string) : host_part :=
  (* the first of [/], [?], [#] ends the host; the last [@] before it ends
     the authentication *)
  let at_sign :=
    match find_index (char_in hostEndingChars) rest with
    | None => find_last (is_char 64) rest
    | Some host_end => find_last (is_char 64) (take (S host_end) rest)
    end in
  let '(auth, rest) :=
    match at_sign with
    | Some a => (Some (take a rest), drop (S a) rest)
    | None => (None, rest)
    end in
  (* the host is what stands before the first non-host character *)
  let host_end :=
    default (String.length rest) (find_index (char_in nonHostChars) rest) in
  let host := take host_end rest in
  let rest := drop host_end rest in
  let '(port, hostname) := parse_host host in
  let hostname := default "" hostname in
  let ipv6 := first_char_is 91 hostname && last_char_is 93 hostname in
  let '(hostname, rest) := checked_hostname ipv6 hostname rest in
  let hostname := cased_hostname hostname in
  let host := hostname +:+ from_option (λ p, ":" +:+ p) "" port in
  let rest :=
    if ipv6 then (if first_char_is 47 rest then rest else "/" +:+ rest) else rest in
  HostPart auth port (bare_hostname ipv6 hostname) host rest.

(** [url.parse(url)], with [parseQueryString] and [slashesDenoteHost] left
    out as generate.js leaves them. *)
Definition parse (url : string) : Url.ParsedUrl :=
  let url := fix_backslashes url in
  let rest := trim url in
  match (if existsb (is_char 35) url then None else simple_path rest) with
  | Some (pathname, search) => no_host (Some pathname) (truthy_str search)
  | None =>
      let '(proto, rest) :=
        match match_protocol rest with
        | Some (p, r) => (Some p, r)
        | None => (None, rest)
        end in
      let lowerProto := toLowerCase <$> proto in
      let hostless := from_option hostlessProtocol false proto in
      (* [var slashes] is assigned only when a host may follow *)
      let slashes :=
        (bool_decide (is_Some proto) || has_user_at_host rest) &&
        starts_with "//" rest in
      let this_slashes := slashes && negb hostless in
      let rest := if this_slashes then drop 2 rest else rest in
      let has_host :=
        negb hostless &&
        (slashes || from_option (negb ∘ slashedProtocol) false proto) in
      let hp := if has_host then Some (parse_host_part rest) else None in
      let rest := from_option hp_rest rest hp in
      let rest :=
        if from_option hostlessProtocol false lowerProto then rest
        else auto_escape rest in
      (* the fragment, then the query, are cut from the tail *)
      let '(rest, hash) :=
        match find_index (is_char 35) rest with
        | Some i => (take i rest, Some (drop i rest))
        | None => (rest, None)
        end in
      let '(rest, search) :=
        match find_index (is_char 63) rest with
        | Some i => (take i rest, Some (drop i rest))
        | None => (rest, None)
        end in
      let hostname := hp_hostname <$> hp in
      let pathname :=
        if from_option slashedProtocol false lowerProto && Js.truthy hostname
           && negb (Js.truthy rest)
        then Some "/" else truthy_str rest in
      {| Url.protocol := lowerProto;
         Url.slashes := this_slashes;
         Url.auth := hp ≫= hp_auth;
         Url.host := hp_host <$> hp;
         Url.port := hp ≫= hp_port;
         Url.hostname := hostname;
         Url.hash := hash;
         Url.search := search;
         Url.query := drop 1 <$> search;
         Url.pathname := pathname;
         Url.path :=
           if Js.truthy pathname || Js.truthy search
           then Some (default "" pathname +:+ default "" search) else None |}
  end.

#[global] Instance node_url_parse : Url.UrlParse := parse.

(** *** Examples: what Node answers, field by field *)

(** The fields of a parsed URL that the examples show: protocol, slashes,
    auth, host, port, hostname, pathname, search, hash. *)
Definition fields (u : string) :=
  let p := parse u in
  (Url.protocol p, Url.slashes p, Url.auth p, Url.host p, Url.port p,
   Url.hostname p, Url.pathname p, Url.search p, Url.hash p).

Example parse_full :
  fields "http://user:pw@Host.com:8080/p/a/t/h?query=string#hash" =
  (Some "http:", true, Some "user:pw", Some "host.com:8080", Some "8080",
   Some "host.com", Some "/p/a/t/h", Some "?query=string", Some "#hash").
Proof. by vm_compute. Qed.

Example parse_upper :
  fields "HTTPS://WWW.Example.com/x" =
  (Some "https:", true, None, Some "www.example.com", None,
   Some "www.example.com", Some "/x", None, None).
Proof. by vm_compute. Qed.

(** Without slashes an http URL has no host: what follows the colon is the
    path. *)
Example parse_no_slashes :
  fields "http:example.com" =
  (Some "http:", false, None, None, None, None, Some "example.com", None, None).
Proof. by vm_compute. Qed.

(** With slashes and nothing after them the host is the empty string. *)
Example parse_empty_host :
  fields "http://" =
  (Some "http:", true, None, Some "", None, Some "", None, None, None).
Proof. by vm_compute. Qed.

Example parse_relative :
  fields "/relative/path?x=1" =
  (None, false, None, None, None, None, Some "/relative/path", Some "?x=1", None).
Proof. by vm_compute. Qed.

Example parse_ipv6 :
  fields "http://[::1]:3000/a" =
  (Some "http:", true, None, Some "[::1]:3000", Some "3000", Some "::1",
   Some "/a", None, None).
Proof. by vm_compute. Qed.

(** White space around the URL is trimmed, a back slash is a slash, and a
    space in the path is escaped. *)
Example parse_untidy :
  fields "  http://a_b.example.com\x y  " =
  (Some "http:", true, None, Some "a_b.example.com", None,
   Some "a_b.example.com", Some "/x%20y", None, None).
Proof. by vm_compute. Qed.

Example parse_javascript :
  fields "javascript:alert(1)" =
  (Some "javascript:", false, None, None, None, None, Some "alert(1)", None, None).
Proof. by vm_compute. Qed.

(** *** The scanning helpers and the code units of a class

    [existsb f s = false] says that no code unit of [s] is in the class
    [f]; the helpers keep it. *)

Lemma find_index_None f s : find_index f s = None → existsb f s = false.
Proof.
  induction s as [|c s IH]; simpl; [done|].
  destruct (f c); [done|]. intros H%fmap_None. auto.
Qed.

Lemma find_index_take f s i : find_index f s = Some i → existsb f (take i s) = false.
Proof.
  revert i. induction s as [|c s IH]; intros i; simpl; [done|].
  destruct (f c) eqn:E; [by intros [= <-]|].
  intros (j & Hj & ->)%fmap_Some. simpl. rewrite E. by apply IH.
Qed.

Lemma span_upto_free f g n s :
  existsb f s = false → existsb f (span_upto n g s).1 = false.
Proof.
  revert s. induction n as [|n IH]; intros [|c s]; simpl; try done.
  intros [Hc H]%orb_false_iff. destruct (g c); [|done].
  specialize (IH s H). destruct (span_upto n g s). simpl in *. by rewrite Hc.
Qed.

(** Splitting and joining on a separator are inverse to each other. *)
Lemma split_on_not_nil sep s : split_on sep s ≠ [].
Proof.
  destruct s as [|c s]; simpl; [done|]. case_bool_decide; [done|].
  by destruct (split_on sep s).
Qed.

Lemma join_with_cons sep p ps :
  ps ≠ [] → join_with sep (p :: ps) = p +:+ sep +:+ join_with sep ps.
Proof. by destruct ps. Qed.

Lemma join_split sep s : join_with (String sep "") (split_on sep s) = s.
Proof.
  induction s as [|c s IH]; simpl; [done|]. case_bool_decide as Hc.
  - rewrite join_with_cons by apply split_on_not_nil. by rewrite IH, Hc.
  - destruct (split_on sep s) as [|p [|q ps]] eqn:E; [by apply split_on_not_nil in E|..].
    + by rewrite <-IH.
    + rewrite <-IH. reflexivity.
Qed.

Lemma char_code c sep : bool_decide (c = sep) = bool_decide (code c = code sep).
Proof.
  apply bool_decide_ext. split; [by intros ->|]. unfold code. intros Hc.
  by rewrite <-(Ascii.ascii_nat_embedding c), Hc, Ascii.ascii_nat_embedding.
Qed.

(** A string without the separator is one part. *)
Lemma split_on_absent sep s :
  existsb (is_char (code sep)) s = false → split_on sep s = [s].
Proof.
  induction s as [|c s IH]; simpl; [done|]. rewrite char_code. unfold is_char at 1.
  intros [-> H]%orb_false_iff. by rewrite IH.
Qed.

(** The first part ends at the first separator. *)
Lemma split_on_first sep a b :
  existsb (is_char (code sep)) a = false →
  split_on sep (a +:+ String sep b) = a :: split_on sep b.
Proof.
  induction a as [|c a IH]; simpl; [by rewrite bool_decide_eq_true_2|].
  rewrite char_code. unfold is_char at 1. intros [-> H]%orb_false_iff. by rewrite IH.
Qed.

Lemma split_on_free f sep s :
  existsb f s = false → Forall (λ p, existsb f p = false) (split_on sep s).
Proof.
  induction s as [|c s IH]; simpl; [by repeat constructor|].
  intros [Hc H]%orb_false_iff. specialize (IH H). case_bool_decide.
  - by constructor.
  - destruct (split_on sep s) as [|p ps]; [by repeat constructor; simpl; rewrite Hc|].
    inversion_clear IH. constructor; [|done]. simpl. by rewrite Hc.
Qed.

Lemma join_with_free f sep parts :
  existsb f sep = false → Forall (λ p, existsb f p = false) parts →
  existsb f (join_with sep parts) = false.
Proof.
  intros Hsep. induction 1 as [|p ps Hp Hps IH]; [done|].
  destruct ps as [|q ps]; [done|].
  change (join_with sep (p :: q :: ps)) with (p +:+ sep +:+ join_with sep (q :: ps)).
  by rewrite !existsb_app, Hp, Hsep, IH.
Qed.

Lemma validate_hostname_cons part ps :
  validate_hostname (part :: ps) =
  if negb (Js.truthy part) || part_ok part || part_ok (ascii_placeholder part) then
    let '(valid, not_host) := validate_hostname ps in (part :: valid, not_host)
  else
    let '(good, bad) := span_upto 63 is_host_part_char part in
    ([good], Some (bad :: ps)).
Proof. done. Qed.

Lemma validate_hostname_free f parts :
  Forall (λ p, existsb f p = false) parts →
  Forall (λ p, existsb f p = false) (validate_hostname parts).1.
Proof.
  induction 1 as [|p ps Hp Hps IH]; [done|]. rewrite validate_hostname_cons.
  destruct (_ || _).
  - destruct (validate_hostname ps). by constructor.
  - pose proof (span_upto_free f is_host_part_char 63 p Hp) as Hg.
    destruct (span_upto _ _ p). by repeat constructor.
Qed.

Lemma truthy_str_Some s h : truthy_str s = Some h → h = s.
Proof. unfold truthy_str. by destruct (Js.truthy s); intros [=]. Qed.

Lemma parse_host_free f host h :
  existsb f host = false → (parse_host host).2 = Some h → existsb f h = false.
Proof.
  intros Hf. unfold parse_host.
  destruct (find_last _ host) as [i|]; [destruct (forallb _ _)|]; simpl;
    intros ->%truthy_str_Some; auto using existsb_take.
Qed.

(** What stands before the first non-host character has none. *)
Lemma host_prefix_free rest :
  existsb (char_in nonHostChars)
    (take (default (String.length rest) (find_index (char_in nonHostChars) rest)) rest)
  = false.
Proof.
  destruct (find_index _ rest) as [i|] eqn:E; simpl.
  - by apply find_index_take.
  - rewrite take_ge by done. by apply find_index_None.
Qed.

Lemma map_take f n s : map f (take n s) = take n (map f s).
Proof. revert s. induction n as [|n IH]; intros [|c s]; simpl; [done..|]. by rewrite IH. Qed.

Lemma map_drop f n s : map f (drop n s) = drop n (map f s).
Proof. revert s. induction n as [|n IH]; intros [|c s]; simpl; try done. Qed.

(** The hostname of the host part has no code unit of a class [f] of
    non-host characters that lower-casing respects, and it is lower-case. *)
Section hostname.
Context (f : ascii → bool).
Hypothesis f_non_host : ∀ c, f c = true → char_in nonHostChars c = true.
Hypothesis f_lower : ∀ c, f (to_lower_char c) = f c.

Lemma checked_hostname_free ipv6 hostname rest :
  existsb f hostname = false →
  existsb f (checked_hostname ipv6 hostname rest).1 = false.
Proof.
  intros Hf. unfold checked_hostname. destruct ipv6; [done|].
  pose proof (validate_hostname_free f _ (split_on_free f "." _ Hf)) as Hv.
  destruct (validate_hostname _) as [valid [not_host|]]; [|done].
  apply join_with_free; [|done]. simpl.
  destruct (f ".") eqn:E; [|done]. by apply f_non_host in E.
Qed.

Lemma cased_hostname_free hostname :
  existsb f hostname = false → existsb f (cased_hostname hostname) = false.
Proof.
  intros Hf. unfold cased_hostname, toLowerCase. destruct (_ <? _)%nat; [done|].
  by rewrite existsb_map, (existsb_ext _ f).
Qed.

Lemma bare_hostname_free ipv6 hostname :
  existsb f hostname = false → existsb f (bare_hostname ipv6 hostname) = false.
Proof.
  intros Hf. destruct ipv6; [|done]. by apply existsb_take, existsb_drop.
Qed.

Lemma parse_host_part_free rest : existsb f (hp_hostname (parse_host_part rest)) = false.
Proof.
  unfold parse_host_part.
  destruct (match find_index _ rest with Some _ => _ | None => _ end) as [a|];
    [set (rest' := drop (S a) rest)|set (rest' := rest)].
  all: pose proof (existsb_impl _ _ _ f_non_host (host_prefix_free rest')) as Hhost.
  all: destruct (parse_host _) as [port hostname] eqn:Eh.
  all: assert (existsb f (default "" hostname) = false) as Hh
    by (destruct hostname as [h|]; [|done];
        apply (parse_host_free f _ h Hhost); by rewrite Eh).
  all: pose proof (checked_hostname_free
         (first_char_is 91 (default "" hostname) && last_char_is 93 (default "" hostname))
         _ (drop (default (String.length rest') (find_index (char_in nonHostChars) rest')) rest')
         Hh) as Hc.
  all: destruct (checked_hostname _ _ _) as [hostname' rest''].
  all: by apply bare_hostname_free, cased_hostname_free.
Qed.

End hostname.

Lemma bare_cased_lower ipv6 h :
  toLowerCase (bare_hostname ipv6 (cased_hostname h)) = bare_hostname ipv6 (cased_hostname h).
Proof.
  assert (map to_lower_char (cased_hostname h) = cased_hostname h) as Hc.
  { unfold cased_hostname. destruct (_ <? _)%nat; [done|apply toLowerCase_idemp]. }
  destruct ipv6; [|done]. unfold bare_hostname, toLowerCase.
  by rewrite map_take, map_drop, Hc.
Qed.

(** Names the components of the pairs that a [let '(a, b) := _] takes
    apart. *)
Ltac destruct_pairs :=
  repeat match goal with |- context [let '(_, _) := ?x in _] => destruct x end.

Lemma parse_host_part_lower rest :
  toLowerCase (hp_hostname (parse_host_part rest)) = hp_hostname (parse_host_part rest).
Proof. unfold parse_host_part. destruct_pairs. apply bare_cased_lower. Qed.

(** *** The fields of a parsed URL *)

(** The protocol is the match of [protocolPattern], lower-cased. *)
Lemma parse_protocol u p :
  Url.protocol (parse u) = Some p →
  ∃ name r, match_protocol (trim (fix_backslashes u)) = Some (name, r) ∧
            p = toLowerCase name.
Proof.
  unfold parse. destruct (if existsb _ _ then _ else _) as [[pathname search]|]; [done|].
  destruct (match_protocol _) as [[name r]|]; destruct_pairs; simpl; [|done].
  intros [= <-]. eauto.
Qed.

(** The hostname is the hostname of the host part. *)
Lemma parse_hostname u h :
  Url.hostname (parse u) = Some h → ∃ rest, h = hp_hostname (parse_host_part rest).
Proof.
  unfold parse. destruct (if existsb _ _ then _ else _) as [[pathname search]|]; [done|].
  destruct (match_protocol _) as [[name r]|]; destruct_pairs;
    cbn [Url.hostname]; destruct (negb _ && _); intros [=]; eauto.
Qed.

Lemma match_protocol_colon rest name r :
  match_protocol rest = Some (name, r) → ∃ c n, name = String c n +:+ ":".
Proof.
  unfold match_protocol. repeat case_match; try done. intros [= <- <-]. eauto.
Qed.

(** The separators are non-host characters that lower-casing leaves
    alone. *)
Lemma separator_non_host n c :
  n ∈ Url.separators → is_char n c = true → char_in nonHostChars c = true.
Proof.
  unfold is_char, char_in. intros Hn ->%bool_decide_eq_true.
  apply elem_of_cons in Hn as [->|Hn%list_elem_of_singleton]; subst; by vm_compute.
Qed.

Lemma separator_lower n c :
  n ∈ Url.separators → is_char n (to_lower_char c) = is_char n c.
Proof.
  intros [->|Hn%list_elem_of_singleton]%elem_of_cons; subst; by_cases_on c.
Qed.

Lemma slash_lower c : is_char 47 (to_lower_char c) = is_char 47 c.
Proof. apply separator_lower. by left. Qed.

(** Node's parser keeps the laws of the interface. *)
#[global] Instance node_url_laws : Url.UrlParseLaws.
Proof.
  split.
  - intros u p (name & r & (c & n & ->)%match_protocol_colon & ->)%parse_protocol.
    exists (toLowerCase (String c n)). by rewrite toLowerCase_app.
  - intros u p (name & r & _ & ->)%parse_protocol. apply toLowerCase_idemp.
  - intros u h [rest ->]%parse_hostname. apply parse_host_part_lower.
  - intros u h n [rest ->]%parse_hostname Hn.
    apply (parse_host_part_free _ (λ c, separator_non_host n c Hn)
             (λ c, separator_lower n c Hn)).
Qed.

End NodeUrl.
