(* ===== verification/Dom.v ===== *)
(** * Dom: the document cheerio builds, and the two queries generate.js makes

    [cheerio.load(html)] parses a page into a tree of nodes; the program
    then asks for [$(selector).attr('href')] and [$(selector).text()].
    The tree and the queries are modelled here after cheerio's
    documentation: a selection is the list of matching elements in document
    order, [attr] reads the attribute of the first element of the selection,
    and [text] concatenates the text of every element of the selection,
    descendants included, comments left out.  The parser itself is the
    interface [HtmlParse]. *)

From S2P Require Import Prelude JsString JsValue.

Module Dom.

Inductive node : Type :=
| Text (data : string)
| Comment (data : string)
| Element (name : string) (attribs : list (string * string)) (children : list node).

(** A document is the list of its top-level nodes. *)
Definition document : Type := list node.

(** [cheerio.load(html)]. *)
Class HtmlParse : Type := cheerio_load : string → document.

(** The elements of a tree, in document order (an element comes before its
    descendants, and they before its next sibling). *)
Fixpoint elements (n : node) : list node :=
  match n with
  | Element _ _ children => n :: flat_map elements children
  | _ => []
  end.

(** The first value recorded for an attribute. *)
Fixpoint assoc (key : string) (l : list (string * string)) : option string :=
  match l with
  | [] => None
  | (k, v) :: l' => if bool_decide (k = key) then Some v else assoc key l'
  end.

Definition attr_of (name : string) (n : node) : option string :=
  match n with
  | Element _ attribs _ => assoc name attribs
  | _ => None
  end.

Definition is_tag (tag : string) (n : node) : bool :=
  match n with
  | Element name _ _ => bool_decide (name = tag)
  | _ => false
  end.

(** The selector [tag[a="v"]]. *)
Definition tag_with_attr (tag a v : string) (n : node) : bool :=
  is_tag tag n && bool_decide (attr_of a n = Some v).

(** [$(selector)]: the elements of the document that match, in document
    order. *)
Definition select (selector : node → bool) (d : document) : list node :=
  List.filter selector (flat_map elements d).

(** [selection.attr(name)]: the attribute of the first element of the
    selection; [None] ([undefined]) when the selection is empty or that
    element has no such attribute. *)
Definition attr (name : string) (selection : list node) : option string :=
  head selection ≫= attr_of name.

(** The text of a node with its descendants; a comment has none. *)
Fixpoint text_of (n : node) : string :=
  match n with
  | Text data => data
  | Comment _ => ""
  | Element _ _ children =>
      fold_right (λ c acc, text_of c +:+ acc) "" children
  end.

(** [selection.text()]: the texts of the elements of the selection, put
    together. *)
Definition text (selection : list node) : string :=
  fold_right (λ n acc, text_of n +:+ acc) "" selection.

(** ** Lemmas *)

Lemma select_nil selector : select selector [] = [].
Proof. done. Qed.

Lemma select_app selector d d' :
  select selector (d ++ d') = select selector d ++ select selector d'.
Proof. unfold select. by rewrite flat_map_app, List.filter_app. Qed.

Lemma attr_nil name : attr name [] = None.
Proof. done. Qed.

Lemma attr_cons name n selection : attr name (n :: selection) = attr_of name n.
Proof. done. Qed.

Lemma text_nil : text [] = "".
Proof. done. Qed.

Lemma text_cons n selection : text (n :: selection) = text_of n +:+ text selection.
Proof. done. Qed.

Lemma text_app s s' : text (s ++ s') = text s +:+ text s'.
Proof.
  induction s as [|n s IH]; [done|].
  by rewrite <-app_comm_cons, !text_cons, IH, JsString.app_assoc.
Qed.

(** Every element of a selection satisfies the selector. *)
Lemma select_sound selector d n : In n (select selector d) → selector n = true.
Proof. unfold select. intros H. by apply List.filter_In in H as [_ ?]. Qed.

(** A document with no matching element gives the empty selection. *)
Lemma select_none selector d :
  Forall (λ n, selector n = false) (flat_map elements d) → select selector d = [].
Proof.
  unfold select. induction 1 as [|n l Hn _ IH]; [done|]. simpl. by rewrite Hn.
Qed.

(** The selection starts with the first element in document order that
    matches. *)
Lemma select_first selector d pre n post :
  flat_map elements d = pre ++ n :: post →
  Forall (λ m, selector m = false) pre → selector n = true →
  select selector d = n :: List.filter selector post.
Proof.
  unfold select. intros -> Hpre Hn. rewrite List.filter_app. simpl. rewrite Hn.
  induction Hpre as [|m pre Hm _ IH]; [done|]. simpl. by rewrite Hm.
Qed.

End Dom.

#[export] Hint Rewrite Dom.select_nil Dom.attr_nil Dom.attr_cons Dom.text_nil
  Dom.text_cons : js_rw.
