(* ===== verification/Path.v ===== *)
(** * Path: [path.join] of Node, as generate.js uses it

    The program builds three file names with [join(__dirname, relative)].
    Module [Path] states the interface ([PathJoin], [Dirname]); module
    [PosixPath] is a model of Node's POSIX implementation, written after
    lib/path.js ([posix.join], [posix.normalize], [normalizeArray]). *)

From S2P Require Import Prelude JsString JsValue Url.

Module Path.

(** [path.join(a, b)] for two strings. *)
Class PathJoin : Type := join : string → string → string.

(** [__dirname]: the directory of generate.js. *)
Class Dirname : Type := dirname : string.

End Path.

Module PosixPath.
Import JsString.

(** [normalizeArray(parts, allowAboveRoot)]: empty and [.] segments are
    dropped, [..] removes the segment before it; with nothing to remove it
    is kept when [allowAboveRoot], dropped otherwise.  [res] is the result so
    far, last segment first. *)
Fixpoint normalize_go (allowAboveRoot : bool) (res parts : list string) : list string :=
  match parts with
  | [] => rev res
  | p :: parts' =>
      if negb (Js.truthy p) || bool_decide (p = ".") then
        normalize_go allowAboveRoot res parts'
      else if bool_decide (p = "..") then
        match res with
        | last :: res' =>
            if bool_decide (last = "..") then
              normalize_go allowAboveRoot
                (if allowAboveRoot then ".." :: res else res) parts'
            else normalize_go allowAboveRoot res' parts'
        | [] =>
            normalize_go allowAboveRoot
              (if allowAboveRoot then [".."] else []) parts'
        end
      else normalize_go allowAboveRoot (p :: res) parts'
  end.

Definition normalizeArray (parts : list string) (allowAboveRoot : bool) : list string :=
  normalize_go allowAboveRoot [] parts.

(** [posix.normalize(path)]. *)
Definition normalize (path : string) : string :=
  let isAbsolute := NodeUrl.first_char_is 47 path in
  let trailingSlash := NodeUrl.last_char_is 47 path in
  let path :=
    NodeUrl.join_with "/"
      (normalizeArray (NodeUrl.split_on "/" path) (negb isAbsolute)) in
  let path := if negb (Js.truthy path) && negb isAbsolute then "." else path in
  let path := if Js.truthy path && trailingSlash then path +:+ "/" else path in
  (if isAbsolute then "/" else "") +:+ path.

(** [posix.join(a, b)]: the arguments that are not empty, joined by a slash
    and normalized; [.] when there is none. *)
Definition join (a b : string) : string :=
  let joined :=
    NodeUrl.join_with "/" (List.filter (λ s : string, Js.truthy s) [a; b]) in
  if negb (Js.truthy joined) then "." else normalize joined.

#[global] Instance posix_join : Path.PathJoin := join.

(** ** Laws: a last segment that is a plain name stays where it is

    A segment is plain when it is not empty, not [.] and not [..], and has
    no slash.  [normalize] keeps a plain last segment as the last segment of
    its result, whatever stands before it. *)

Lemma slash_char c : bool_decide (c = "/"%char) = NodeUrl.is_char 47 c.
Proof. by_cases_on c. Qed.

Lemma split_on_single s :
  existsb (NodeUrl.is_char 47) s = false → NodeUrl.split_on "/" s = [s].
Proof.
  induction s as [|c s IH]; simpl; [done|]. rewrite slash_char.
  intros [-> H]%orb_false_iff. by rewrite IH.
Qed.

Lemma split_on_app a b :
  NodeUrl.split_on "/" (a +:+ "/" +:+ b)
  = NodeUrl.split_on "/" a ++ NodeUrl.split_on "/" b.
Proof.
  induction a as [|c a IH]; [done|]. rewrite app_cons. simpl. rewrite IH.
  case_bool_decide; [done|].
  destruct (NodeUrl.split_on "/" a) eqn:E; [by apply NodeUrl.split_on_not_nil in E|done].
Qed.

Lemma normalize_go_app a res ps qs :
  normalize_go a res (ps ++ qs) = normalize_go a (rev (normalize_go a res ps)) qs.
Proof.
  revert res. induction ps as [|p ps IH]; intros res; simpl; [by rewrite rev_involutive|].
  repeat case_match; apply IH.
Qed.

Lemma join_with_snoc sep ps p :
  ps ≠ [] → NodeUrl.join_with sep (ps ++ [p]) = NodeUrl.join_with sep ps +:+ sep +:+ p.
Proof.
  induction ps as [|q ps IH]; [done|]. intros _. destruct ps as [|r ps]; [done|].
  change (q +:+ sep +:+ NodeUrl.join_with sep ((r :: ps) ++ [p])
          = (q +:+ sep +:+ NodeUrl.join_with sep (r :: ps)) +:+ sep +:+ p).
  rewrite IH by done. by rewrite !app_assoc.
Qed.

Lemma join_with_snoc_ne sep ps p : p ≠ "" → NodeUrl.join_with sep (ps ++ [p]) ≠ "".
Proof.
  intros Hp. destruct ps as [|q ps]; [done|]. rewrite join_with_snoc by done.
  by intros [_ [_ ?]%app_eq_nil]%app_eq_nil.
Qed.

Lemma first_char_is_sep n x r r' :
  NodeUrl.first_char_is n (x +:+ "/" +:+ r) = NodeUrl.first_char_is n (x +:+ "/" +:+ r').
Proof. by destruct x. Qed.

Lemma last_char_is_cons n c s :
  s ≠ "" → NodeUrl.last_char_is n (String c s) = NodeUrl.last_char_is n s.
Proof.
  destruct s as [|d s]; [done|]. intros _. unfold NodeUrl.last_char_is. simpl.
  by rewrite Nat.sub_0_r.
Qed.

Lemma last_char_is_app n a b :
  b ≠ "" → NodeUrl.last_char_is n (a +:+ b) = NodeUrl.last_char_is n b.
Proof.
  intros Hb. induction a as [|c a IH]; [done|].
  rewrite app_cons, last_char_is_cons; [done|]. by intros [_ ?]%app_eq_nil.
Qed.

Lemma last_char_is_snoc n a b :
  b ≠ "" → NodeUrl.last_char_is n (a +:+ "/" +:+ b) = NodeUrl.last_char_is n b.
Proof.
  intros Hb. rewrite last_char_is_app; [by apply (last_char_is_cons n "/" b)|].
  by intros [[=] _]%app_eq_nil.
Qed.

Lemma last_char_is_free n s :
  existsb (NodeUrl.is_char n) s = false → NodeUrl.last_char_is n s = false.
Proof.
  induction s as [|c s IH]; [done|]. simpl (existsb _ _). intros [Hc H]%orb_false_iff.
  destruct s as [|d s]; [done|]. rewrite last_char_is_cons by done. auto.
Qed.

Section plain_segment.
Context (p : string).
Hypothesis p_no_slash : existsb (NodeUrl.is_char 47) p = false.
Hypothesis p_not_empty : p ≠ "".
Hypothesis p_not_dot : p ≠ ".".
Hypothesis p_not_dots : p ≠ "..".

Lemma normalize_go_plain a res ps :
  normalize_go a res (ps ++ [p]) = normalize_go a res ps ++ [p].
Proof.
  rewrite normalize_go_app. simpl.
  rewrite (proj2 (Js.truthy_string p)), !bool_decide_eq_false_2 by done.
  simpl. by rewrite rev_involutive.
Qed.

Lemma normalizeArray_plain x a :
  normalizeArray (NodeUrl.split_on "/" (x +:+ "/" +:+ p)) a
  = normalizeArray (NodeUrl.split_on "/" x) a ++ [p].
Proof.
  unfold normalizeArray. by rewrite split_on_app, (split_on_single p), normalize_go_plain.
Qed.

(** [normalize] of a path that ends with a plain segment. *)
Lemma normalize_plain x :
  normalize (x +:+ "/" +:+ p)
  = (if NodeUrl.first_char_is 47 (x +:+ "/") then "/" else "")
    +:+ NodeUrl.join_with "/"
          (normalizeArray (NodeUrl.split_on "/" x)
             (negb (NodeUrl.first_char_is 47 (x +:+ "/"))) ++ [p]).
Proof.
  unfold normalize.
  rewrite (first_char_is_sep 47 x p ""), normalizeArray_plain.
  rewrite (proj2 (Js.truthy_string (NodeUrl.join_with _ _)))
    by by apply join_with_snoc_ne.
  by rewrite last_char_is_snoc, last_char_is_free, andb_false_r by done.
Qed.

End plain_segment.

Lemma truthy_sep x r : Js.truthy (x +:+ "/" +:+ r) = true.
Proof. by destruct x. Qed.

Section plain_segments.
Context (q p : string).
Hypothesis q_no_slash : existsb (NodeUrl.is_char 47) q = false.
Hypothesis q_not_empty : q ≠ "".
Hypothesis q_not_dot : q ≠ ".".
Hypothesis q_not_dots : q ≠ "..".
Hypothesis p_no_slash : existsb (NodeUrl.is_char 47) p = false.
Hypothesis p_not_empty : p ≠ "".
Hypothesis p_not_dot : p ≠ ".".
Hypothesis p_not_dots : p ≠ "..".

(** A plain segment after a plain segment is appended to the normal form. *)
Lemma normalize_segment x :
  normalize (x +:+ "/" +:+ q +:+ "/" +:+ p) = normalize (x +:+ "/" +:+ q) +:+ "/" +:+ p.
Proof.
  transitivity (normalize ((x +:+ "/" +:+ q) +:+ "/" +:+ p)); [by rewrite (app_assoc x)|].
  rewrite !normalize_plain by done.
  replace (NodeUrl.first_char_is 47 ((x +:+ "/" +:+ q) +:+ "/"))
    with (NodeUrl.first_char_is 47 (x +:+ "/")) by (destruct x; reflexivity).
  rewrite normalizeArray_plain by done.
  rewrite (join_with_snoc _ (_ ++ [q])) by by intros [_ [=]]%List.app_eq_nil.
  by rewrite app_assoc.
Qed.

(** The same for [join]: the result is in the directory that the path
    without its last segment names. *)
Lemma join_segment a x :
  join a (x +:+ "/" +:+ q +:+ "/" +:+ p) = join a (x +:+ "/" +:+ q) +:+ "/" +:+ p.
Proof.
  unfold join. simpl. rewrite !truthy_sep. destruct (Js.truthy a); simpl.
  - assert (∀ r, a +:+ "/" +:+ x +:+ r = (a +:+ "/" +:+ x) +:+ r) as E
      by (intros; by rewrite !app_assoc).
    rewrite !E, !truthy_sep. apply normalize_segment.
  - rewrite !truthy_sep. apply normalize_segment.
Qed.

End plain_segments.

(** ** Examples: the three joins of the program, from a typical directory *)

Example join_files :
  join "/srv/app/api/routes" "../lib/extension/files" = "/srv/app/api/lib/extension/files".
Proof. by vm_compute. Qed.

Example join_override :
  join "/srv/app/api/routes" "../assets/icons/github.com.png"
  = "/srv/app/api/assets/icons/github.com.png".
Proof. by vm_compute. Qed.

Example join_dots :
  join "/a/b" "../../../x/./y//z/" = "/x/y/z/".
Proof. by vm_compute. Qed.

Example join_relative : join "a" "../../b" = "../b".
Proof. by vm_compute. Qed.

End PosixPath.
