(* ===== verification/Generate.v ===== *)
(** * Generate: the model of src/api/routes/generate.js

    One definition per function of the file, under the function's name.  A
    generator function is a program ([prog]) over the calls of [io]; a
    [yield] is a [call].  An object that a function changes is passed in and
    the changed object is passed out: [overrideIconIfExists] returns the
    configuration with [iconOverriden] set, [generateCrx] returns the
    configuration beside the buffer, [sendCrx] returns the Koa context.
    [buildCrxConfig_run] returns the local configuration object beside the
    value the function returns, because the two differ (see there).

    The libraries are parameters: [url.parse], [url.resolve],
    [cheerio.load], [path.join] and [__dirname] through the classes of
    [Url], [Dom] and [Path]; [request], [fs], [pem] and [crx] through the
    calls of [io], which an interpreter or the step relation answers. *)

From S2P Require Import Prelude JsString JsValue Prog Url Dom Path.

(** ** Data *)

(** Bytes of a file or of the packed extension. *)
Definition Buffer : Type := string.

(** The options object given to [request] (lines 96-101). *)
Record Request : Type := { req_url : string; req_headers : list (string * string) }.

(** What the program reads of a response: [response[0].body]; the status is
    carried to show that the program does not read it. *)
Record Response : Type := { res_status : nat; res_body : string }.

(** [cert.clientKey] of the certificate [pem] creates. *)
Record Certificate : Type := { clientKey : string }.

(** A readable stream: of a file, or of the response to a GET. *)
Inductive rstream : Type :=
| FileSource (path : string)
| HttpSource (url : string).

(** A writable stream on a file. *)
Record wstream : Type := FileSink { sink_path : string }.

Module Crx.

(** The manifest fields the program sets or reads: [name], [app.urls],
    [app.launch.web_url] and [icons['128']]. *)
Record Manifest : Type := {
  name : option string;
  app_urls : list string;
  app_launch_web_url : option string;
  icons_128 : string;
}.

(** The extension object after [load]: the key it was created with, the
    working directory [path] and the manifest. *)
Record t : Type := { privateKey : string; path : string; manifest : Manifest }.

Definition set_manifest (m : Manifest) (c : t) : t :=
  {| privateKey := privateKey c; path := path c; manifest := m |}.

End Crx.

(** The configuration object [crxConfig] (lines 33-41, 55, 57, 185).
    [title] is a string, or [null] when the hostname is; [icon] is
    [undefined] until a link is read; [iconOverriden] is [undefined] ([false])
    until it is set. *)
Record CrxConfig : Type := {
  url : string;
  parsedUrl : Url.ParsedUrl;
  title : option string;
  filename : string;
  host : string;
  icon : option string;
  iconOverriden : bool;
}.

Definition set_icon (v : option string) (c : CrxConfig) : CrxConfig :=
  {| url := url c; parsedUrl := parsedUrl c; title := title c;
     filename := filename c; host := host c; icon := v;
     iconOverriden := iconOverriden c |}.

Definition set_title (v : option string) (c : CrxConfig) : CrxConfig :=
  {| url := url c; parsedUrl := parsedUrl c; title := v;
     filename := filename c; host := host c; icon := icon c;
     iconOverriden := iconOverriden c |}.

Definition set_iconOverriden (v : bool) (c : CrxConfig) : CrxConfig :=
  {| url := url c; parsedUrl := parsedUrl c; title := title c;
     filename := filename c; host := host c; icon := icon c;
     iconOverriden := v |}.

(** The Koa context of the request: the [url] field of the parsed body, and
    the response under construction. *)
Record Context : Type := {
  request_body_url : Js.value;
  response_headers : list (string * string);
  response_body : option Buffer;
}.

(** [ctx.set(field, value)]: the header is set, replacing an earlier value. *)
Definition ctx_set (field value : string) (ctx : Context) : Context :=
  {| request_body_url := request_body_url ctx;
     response_headers :=
       (field, value) :: List.filter (λ kv, negb (bool_decide (kv.1 = field)))
                                     (response_headers ctx);
     response_body := response_body ctx |}.

(** [ctx.body = buffer]. *)
Definition ctx_set_body (b : Buffer) (ctx : Context) : Context :=
  {| request_body_url := request_body_url ctx;
     response_headers := response_headers ctx;
     response_body := Some b |}.

(** ** Calls to the libraries

    Each call answers a value or throws; [Finish] is the wait for the
    [finish] event of a writable stream, which does not throw (a stream that
    fails emits [error] instead, and the wait never ends). *)
Variant io : Type → Type :=
| HttpGet (req : Request) : io (Js.exn + Response)
| CreateCertificate (days : nat) (selfSigned : bool) : io (Js.exn + Certificate)
| CrxLoad (privateKey dir : string) : io (Js.exn + Crx.t)
| CrxPack (crx : Crx.t) : io (Js.exn + Buffer)
| AccessSync (path : string) (mode : nat) : io (Js.exn + ())
| CreateWriteStream (path : string) : io (Js.exn + wstream)
| CreateReadStream (path : string) : io (Js.exn + rstream)
| RequestStream (url : string) : io (Js.exn + rstream)
| Pipe (src : rstream) (dst : wstream) : io (Js.exn + ())
| Finish (dst : wstream) : io ().

(** A program of generate.js. *)
Abbreviation js := (prog io Js.exn).

(** [x.prop] for [x] an object or [undefined]. *)
Definition prop {A} (name : string) (x : option A) : Js.exn + A :=
  match x with
  | Some a => inr a
  | None => inl (Js.cannot_read name "undefined")
  end.

(** [x.method(...)] for [x] a value or [null]. *)
Definition method {A} (name : string) (x : option A) : Js.exn + A :=
  match x with
  | Some a => inr a
  | None => inl (Js.cannot_read name "null")
  end.

(** ** The functions of generate.js *)

Section generate.
Context `{!Url.UrlParse, !Url.UrlResolve, !Dom.HtmlParse,
          !Path.PathJoin, !Path.Dirname}.

(** *** [parseUrl] (lines 76-91) *)

Definition noUrlError : Js.exn := Js.Error "Please provide a URL to continue.".

Definition invalidUrlError : Js.exn :=
  Js.Error "Please provide a valid URL for your extension. (It must start with http(s)://)".

(** [targetUrl] is the [url] field of the request body, whatever the
    body holds there.  [url.parse] takes a string and throws a [TypeError]
    on any other value (line 83). *)
Definition parseUrl (targetUrl : Js.value) : Js.exn + Url.ParsedUrl :=
  if Js.falsy targetUrl then inl noUrlError
  else
    match targetUrl with
    | Js.Str s =>
        let parsedUrl := Url.url_parse s in
        if Js.falsy parsedUrl || Js.falsy (Url.protocol parsedUrl)
           || bool_decide (JsString.indexOf "http" (default "" (Url.protocol parsedUrl)) = (-1)%Z)
        then inl invalidUrlError
        else inr parsedUrl
    | _ => inl (Js.not_a_string "url" targetUrl)
    end.

(** *** [getPageDOM] (lines 93-107) *)

Definition userAgent : string :=
  "Mozilla/5.0 (Macintosh; Intel Mac OS X 10_11_2) AppleWebKit/537.36 (KHTML, like Gecko) Chrome/47.0.2526.106 Safari/537.36".

Definition getPageDOM (url : string) : js Dom.document :=
  let req := {| req_url := url; req_headers := [("User-Agent", userAgent)] |} in
  response ← call (HttpGet req);
  Ret (Dom.cheerio_load (res_body response)).

(** *** [getCrxTitle] (lines 60-73) *)

(** The selector ['title']. *)
Definition title_selector : Dom.node → bool := Dom.is_tag "title".

Definition getCrxTitle (dom : Dom.document) (crxConfig : CrxConfig) : option string :=
  let title :=
    Js.or_else (Some (JsString.trim (Dom.text (Dom.select title_selector dom))))
               (Url.hostname (parsedUrl crxConfig)) in
  if bool_decide (host crxConfig = "messenger.com") then Some "Messenger"
  else title.

(** *** [buildCrxConfig] (lines 28-58) *)

(** [hostname.toLowerCase().replace('www.', '')] (line 41). *)
Definition normalizeHost (hostname : string) : string :=
  JsString.replace "www." "" (JsString.toLowerCase hostname).

(** The object of lines 33-41 for a hostname that is a string. *)
Definition defaultConfig (targetUrl : string) (parsedUrl : Url.ParsedUrl)
    (hostname : string) : CrxConfig :=
  {| url := targetUrl;
     parsedUrl := parsedUrl;
     title := Url.hostname parsedUrl;
     filename := Js.str_of_nullable (Url.hostname parsedUrl) +:+ ".crx";
     host := normalizeHost hostname;
     icon := None;
     iconOverriden := false |}.

(** The selector ['link[rel="icon"], link[rel="shortcut icon"]'] (line 55). *)
Definition icon_selector (n : Dom.node) : bool :=
  Dom.tag_with_attr "link" "rel" "icon" n
  || Dom.tag_with_attr "link" "rel" "shortcut icon" n.

(** Lines 54-57: the icon and the title read from the page. *)
Definition readPage (dom : Dom.document) (crxConfig : CrxConfig) : CrxConfig :=
  let crxConfig := set_icon (Dom.attr "href" (Dom.select icon_selector dom)) crxConfig in
  set_title (getCrxTitle dom crxConfig) crxConfig.

(** The function with its local object: the answer is the object
    [crxConfig] as the function leaves it, and the value it returns.  The
    [catch] block returns the object; the end of the body, reached when the
    page was fetched, has no [return]: the function returns [undefined]. *)
Definition buildCrxConfig_run (targetUrl : Js.value)
    : js (CrxConfig * option CrxConfig) :=
  parsedUrl ← lift (parseUrl targetUrl);
  (* line 41 throws when the hostname is null; nothing is observable between
     line 33 and there *)
  hostname ← lift (method "toLowerCase" (Url.hostname parsedUrl));
  let crxConfig := defaultConfig (Js.as_string targetUrl) parsedUrl hostname in
  fetched ← try_catch (Some <$> getPageDOM (url crxConfig)) (λ exc, Ret None);
  match fetched with
  | None => Ret (crxConfig, Some crxConfig)
  | Some dom => Ret (readPage dom crxConfig, None)
  end.

Definition buildCrxConfig (targetUrl : Js.value) : js (option CrxConfig) :=
  snd <$> buildCrxConfig_run targetUrl.

(** *** [copyLocalFile] (lines 240-260) and [downloadFile] (lines 218-238)

    The promise's executor runs at once; an exception in it rejects the
    promise, and the [yield] of the caller throws it.  The promise resolves
    with [true] when the sink emits [finish]. *)
Definition copyLocalFile (from to : string) : js bool :=
  writeStream ← try_catch
    (writeStream ← call (CreateWriteStream to);
     source ← call (CreateReadStream from);
     _ ← call (Pipe source writeStream);
     Ret writeStream)
    (λ e, Throw e);
  _ ← trigger (Finish writeStream);
  Ret true.

Definition downloadFile (url filePath : string) : js bool :=
  stream ← try_catch
    (stream ← call (CreateWriteStream filePath);
     source ← call (RequestStream url);
     _ ← call (Pipe source stream);
     Ret stream)
    (λ e, Throw e);
  _ ← trigger (Finish stream);
  Ret true.

(** [crx.path + "/" + crx.manifest.icons['128']] (lines 158, 179, 201). *)
Definition iconDestination (crx : Crx.t) : string :=
  Crx.path crx +:+ "/" +:+ Crx.icons_128 (Crx.manifest crx).

(** *** [downloadIcon] (lines 151-163) *)

Definition downloadIcon (crxConfig : CrxConfig) (crx : Crx.t) : js () :=
  (* [url.resolve] throws on an icon that is no string *)
  icon ← lift (match icon crxConfig with
               | Some i => inr i
               | None => inl (Js.not_a_string "url" Js.Undefined)
               end);
  let absoluteIconUrl := Url.url_resolve (url crxConfig) icon in
  if Js.truthy absoluteIconUrl then
    _ ← downloadFile absoluteIconUrl (iconDestination crx); Ret ()
  else Ret ().

(** *** [overrideIconIfExists] (lines 165-186) *)

(** [fs.F_OK]. *)
Definition F_OK : nat := 0.

Definition overrideIconPath (crxConfig : CrxConfig) : string :=
  Path.join Path.dirname ("../assets/icons/" +:+ host crxConfig +:+ ".png").

Definition overrideIconIfExists (crxConfig : CrxConfig) (crx : Crx.t) : js CrxConfig :=
  let iconPath := overrideIconPath crxConfig in
  found ← try_catch (_ ← call (AccessSync iconPath F_OK); Ret true) (λ e, Ret false);
  if found : bool then
    _ ← copyLocalFile iconPath (iconDestination crx);
    Ret (set_iconOverriden true crxConfig)
  else Ret crxConfig.

(** *** [setPlaceholderIcon] (lines 188-205) *)

Definition placeholderPath (letter : string) : string :=
  Path.join Path.dirname ("../lib/extension/icons/fallback/" +:+ letter +:+ ".png").

Definition setPlaceholderIcon (crxConfig : CrxConfig) (crx : Crx.t) : js () :=
  hostname ← lift (method "substring" (Url.hostname (parsedUrl crxConfig)));
  let letter := JsString.toUpperCase (JsString.substring 0 1 hostname) in
  if negb (JsString.match_AZ letter) then Ret ()
  else _ ← copyLocalFile (placeholderPath letter) (iconDestination crx); Ret ().

(** *** [generateCrx] (lines 109-149) *)

Definition filesDirectory : string := Path.join Path.dirname "../lib/extension/files".

(** Lines 120-126: the name, the permitted URL and the launch URL. *)
Definition configureManifest (crxConfig : CrxConfig) (crx : Crx.t) : Crx.t :=
  let m := Crx.manifest crx in
  Crx.set_manifest
    {| Crx.name := title crxConfig;
       Crx.app_urls := Crx.app_urls m ++ [url crxConfig];
       Crx.app_launch_web_url := Some (url crxConfig);
       Crx.icons_128 := Crx.icons_128 m |} crx.

(** Lines 131-142: the icon when it was not overridden. *)
Definition fallbackIcon (crxConfig : CrxConfig) (crx : Crx.t) : js () :=
  if negb (iconOverriden crxConfig) then
    if Js.truthy (icon crxConfig) then downloadIcon crxConfig crx
    else setPlaceholderIcon crxConfig crx
  else Ret ().

(** The answer is the buffer and the configuration object as the function
    leaves it ([overrideIconIfExists] may have set [iconOverriden]). *)
Definition generateCrx (crxConfig : option CrxConfig) : js (Buffer * CrxConfig) :=
  cert ← call (CreateCertificate (365 * 10) true);
  crx ← call (CrxLoad (clientKey cert) filesDirectory);
  (* line 120 reads [crxConfig.title] *)
  crxConfig ← lift (prop "title" crxConfig);
  let crx := configureManifest crxConfig crx in
  crxConfig ← overrideIconIfExists crxConfig crx;
  _ ← fallbackIcon crxConfig crx;
  crxBuffer ← call (CrxPack crx);
  Ret (crxBuffer, crxConfig).

(** *** [sendCrx] (lines 207-216) *)

Definition sendCrx (request : Context) (crxConfig : option CrxConfig)
    (crxBuffer : Buffer) : js Context :=
  let request := ctx_set "content-type" "application/x-chrome-extension" request in
  crxConfig ← lift (prop "filename" crxConfig);
  let request :=
    ctx_set "content-disposition" ("attachment; filename=" +:+ filename crxConfig)
            request in
  Ret (ctx_set_body crxBuffer request).

(** *** [module.exports]: POST /generate (lines 14-26) *)

Definition module_exports (this : Context) : js Context :=
  let url := request_body_url this in
  crxConfig ← buildCrxConfig url;
  '(crxBuffer, crxConfig) ← generateCrx crxConfig;
  sendCrx this (Some crxConfig) crxBuffer.

End generate.
