(* ===== verification/Trace.v ===== *)
(** * Trace: what a trace of generate.js shows, and the walk of a program

    Classes of calls ([is_write], [is_download], ...), the projections that
    read a trace (the files written and read, the exceptions raised, the
    extension loaded), and the tactics [prog_walk] and [prog_solve] that
    prove a bound or a postcondition of a program of generate.js by
    following every path of its tree. *)

From stdpp Require Import sets.
From S2P Require Import Prelude JsString JsValue Prog Url Dom Path Generate.

(** ** Classes of calls *)

Definition is_write (X : Type) (ev : io X) : bool :=
  match ev with CreateWriteStream _ => true | _ => false end.

Definition is_download (X : Type) (ev : io X) : bool :=
  match ev with RequestStream _ => true | _ => false end.

Definition is_read (X : Type) (ev : io X) : bool :=
  match ev with CreateReadStream _ => true | _ => false end.

Definition is_pack (X : Type) (ev : io X) : bool :=
  match ev with CrxPack _ => true | _ => false end.

Definition is_fetch (X : Type) (ev : io X) : bool :=
  match ev with HttpGet _ => true | _ => false end.

(** Whether a call was answered with an exception. *)
Definition failed {X : Type} (ev : io X) : X → bool :=
  let is_exn {A} (r : Js.exn + A) := match r with inl _ => true | inr _ => false end in
  match ev in io X return X → bool with
  | Finish _ => λ _, false
  | HttpGet _ => is_exn | CreateCertificate _ _ => is_exn | CrxLoad _ _ => is_exn
  | CrxPack _ => is_exn | AccessSync _ _ => is_exn | CreateWriteStream _ => is_exn
  | CreateReadStream _ => is_exn | RequestStream _ => is_exn | Pipe _ _ => is_exn
  end.

(** The trace has a call of class [c] that was answered without exception. *)
Definition succeeded (c : ∀ X, io X → bool) (tr : list (event io)) : bool :=
  List.existsb (λ e, c _ (ev_call e) && negb (failed (ev_call e) (ev_answer e))) tr.

Definition is_access (X : Type) (ev : io X) : bool :=
  match ev with AccessSync _ _ => true | _ => false end.

(** The files a trace opens for reading, and those it opens for writing. *)
Definition read_path (e : event io) : option string :=
  match ev_call e with CreateReadStream path => Some path | _ => None end.

Definition write_path (e : event io) : option string :=
  match ev_call e with CreateWriteStream path => Some path | _ => None end.

(** The exception a call was answered with. *)
Definition exn_of (e : event io) : option Js.exn :=
  let exn {A} (r : Js.exn + A) := match r with inl e => Some e | inr _ => None end in
  match ev_call e in io X return X → option Js.exn with
  | Finish _ => λ _, None
  | HttpGet _ => exn | CreateCertificate _ _ => exn | CrxLoad _ _ => exn
  | CrxPack _ => exn | AccessSync _ _ => exn | CreateWriteStream _ => exn
  | CreateReadStream _ => exn | RequestStream _ => exn | Pipe _ _ => exn
  end (ev_answer e).

(** The exceptions of the calls of a trace that are not of class [c]. *)
Definition raised_outside (c : ∀ X, io X → bool) (tr : list (event io)) : list Js.exn :=
  omap exn_of (List.filter (λ e, negb (c _ (ev_call e))) tr).

(** The extension that [crx.load] answered with. *)
Definition load_answer (e : event io) : option Crx.t :=
  match ev_call e in io X return X → option Crx.t with
  | CrxLoad _ _ => λ r, match r with inl _ => None | inr crx => Some crx end
  | _ => λ _, None
  end (ev_answer e).

Definition loaded (tr : list (event io)) : list Crx.t := omap load_answer tr.

Definition reads (tr : list (event io)) : list string := omap read_path tr.
Definition writes (tr : list (event io)) : list string := omap write_path tr.

(** The place of a call in the order of the route: the page, the
    certificate, the template, the look-up of the per-host icon, the copy of
    an icon (sink, source, pipe, finish), the pack. *)
Definition stage {X : Type} (ev : io X) : nat :=
  match ev with
  | HttpGet _ => 0
  | CreateCertificate _ _ => 1
  | CrxLoad _ _ => 2
  | AccessSync _ _ => 3
  | CreateWriteStream _ => 4
  | CreateReadStream _ => 5
  | RequestStream _ => 5
  | Pipe _ _ => 6
  | Finish _ => 7
  | CrxPack _ => 8
  end.

Definition stages (tr : list (event io)) : list nat := map (λ e, stage (ev_call e)) tr.

(** ** Walking a program's tree

    [prog_walk] proves a goal [at_most c n p] or [wp p Q] for a program given
    by its definition: it unfolds the functions of the program, answers each
    call with a variable, splits the answer into exception and value, and
    splits the conditions of the program.  [prog_solve] then closes the
    postcondition of each path. *)
Create HintDb js_defs discriminated.
#[export] Hint Unfold module_exports sendCrx generateCrx fallbackIcon
  setPlaceholderIcon overrideIconIfExists downloadIcon downloadFile
  copyLocalFile buildCrxConfig buildCrxConfig_run getPageDOM method prop
  : js_defs.

(** Case analysis on the innermost scrutinee of a stuck term. *)
Ltac destruct_scrut x :=
  lazymatch x with
  | context [match ?y with inl _ => _ | inr _ => _ end] => destruct_scrut y
  | context [match ?y with Some _ => _ | None => _ end] => destruct_scrut y
  | context [if ?b then _ else _] => destruct_scrut b
  | run_outcome _ => fail
  | _ => tryif is_var x then destruct x else destruct x eqn:?
  end.

Ltac prog_walk_step :=
  lazymatch goal with
  | |- at_most _ _ (Ret _) => apply at_most_ret
  | |- at_most _ _ (Throw _) => apply at_most_throw
  | |- at_most _ _ (Vis _ _) =>
      first [apply at_most_skip; [reflexivity|] | apply at_most_count]; intros ?
  | |- ∀ _, _ => intros ?
  | |- context [match ?x with inl _ => _ | inr _ => _ end] => destruct_scrut x
  | |- context [match ?x with Some _ => _ | None => _ end] => destruct_scrut x
  | |- context [if ?b then _ else _] => destruct_scrut b
  | |- context [lift ?r] => destruct_scrut r
  end.

Ltac prog_walk := repeat autounfold with js_defs; simpl; repeat (prog_walk_step; simpl).

Ltac rewrite_scrut :=
  repeat match goal with
         | H : _ = Some _ |- _ => rewrite ?H; revert H
         | H : _ = None |- _ => rewrite ?H; revert H
         end;
  intros.

Ltac prog_solve :=
  prog_walk; intros; simplify_eq; unfold configureManifest, defaultConfig; simpl;
  rewrite_scrut; simpl; split_and?; intros;
  simplify_eq; first [done | lia | by repeat eexists | set_solver].
