(* ===== verification/Fixture.v ===== *)
(** * Fixture: concrete libraries and inputs for the witnesses

    The theorems of the development hold for every implementation of the
    library interfaces.  The witnesses instantiate them here: Node's URL
    parser and POSIX [path.join] by their models, a directory for
    [__dirname], and, for the two libraries that are not modelled in detail,
    a resolver and an HTML parser that know a few inputs. *)

From S2P Require Import Prelude JsString JsValue Prog Url Dom Path Generate.

Module Fixture.

#[export] Instance dirname : Path.Dirname := "/srv/app/api/routes".

(** A resolver that knows absolute addresses and addresses that start at the
    root of an origin with no path. *)
#[export] Instance resolve : Url.UrlResolve := λ from to,
  if JsString.starts_with "http" to then to
  else from +:+ to.

(** A parser that knows three pages. *)
Definition page_example : string :=
  "<title>Example</title>".
Definition page_icon : string :=
  "<title> Shop </title><link rel='icon' href='/favicon.ico'>".
Definition page_empty : string := "".

#[export] Instance html : Dom.HtmlParse := λ body,
  if bool_decide (body = page_example) then
    [Dom.Element "title" [] [Dom.Text "Example"]]
  else if bool_decide (body = page_icon) then
    [Dom.Element "title" [] [Dom.Text " Shop "];
     Dom.Element "link" [("rel", "icon"); ("href", "/favicon.ico")] []]
  else [].

(** A request's context with a given [url] field and an empty response. *)
Definition ctx (url : Js.value) : Context :=
  {| request_body_url := url; response_headers := []; response_body := None |}.

(** The extension as [crx.load] leaves it: the manifest of the template. *)
Definition crx : Crx.t :=
  {| Crx.privateKey := "KEY";
     Crx.path := "/srv/app/api/lib/extension/files";
     Crx.manifest := {| Crx.name := None; Crx.app_urls := [];
                        Crx.app_launch_web_url := None;
                        Crx.icons_128 := "icon.png" |} |}.

(** The default configuration for an address with a hostname. *)
Definition config (url : string) : CrxConfig :=
  let parsedUrl := NodeUrl.parse url in
  defaultConfig url parsedUrl (default "" (Url.hostname parsedUrl)).

End Fixture.
