(* ===== verification/Validate.v ===== *)
(** * Validate: [parseUrl], the gate of the pipeline

    What [parseUrl] accepts and rejects, for any URL parser and for the model
    of Node's, and that a rejected input stops the request before any call
    to the outside. *)

From Stdlib Require Import ZArith.
From S2P Require Import Prelude JsString JsValue Prog Url Dom Path Generate Fixture.

(** The protocols [parseUrl] lets through: a string in which "http"
    occurs. *)
Definition http_like (protocol : option string) : Prop :=
  ∃ p, protocol = Some p ∧ JsString.occurs "http" p.

#[global] Instance http_like_dec protocol : Decision (http_like protocol).
Proof.
  destruct protocol as [p|].
  - refine (cast_if (decide (JsString.occurs "http" p))); unfold http_like.
    + eauto.
    + by intros (? & [= <-] & ?).
  - right. by intros (? & ? & _).
Defined.

Section validate.
Context `{!Url.UrlParse, !Url.UrlResolve, !Dom.HtmlParse,
          !Path.PathJoin, !Path.Dirname}.

(** The condition of line 86 on a protocol: [parseUrl] rejects unless the
    protocol is a string in which "http" occurs. *)
Lemma protocol_test (protocol : option string) :
  Js.falsy protocol
  || bool_decide (JsString.indexOf "http" (default "" protocol) = (-1)%Z)
  = negb (bool_decide (http_like protocol)).
Proof.
  destruct (decide (http_like protocol)) as [(p & -> & Ho)|Hn].
  - rewrite (bool_decide_eq_true_2 (http_like _)) by (unfold http_like; eauto).
    rewrite (bool_decide_eq_false_2 (_ = _)) by (rewrite JsString.indexOf_neg; auto).
    rewrite orb_false_r. unfold Js.falsy. rewrite Js.truthy_Some.
    apply negb_false_iff, Js.truthy_string. intros ->.
    by apply JsString.occurs_nil_inv in Ho.
  - rewrite (bool_decide_eq_false_2 (http_like _)) by done.
    destruct protocol as [p|]; [|done].
    rewrite (bool_decide_eq_true_2 (_ = _)); [apply orb_true_r|].
    apply JsString.indexOf_neg. intros Ho. apply Hn. by exists p.
Qed.

(** The case analysis of [parseUrl] on a string: empty or not, then the
    test of the protocol. *)
Ltac parseUrl_cases :=
  unfold Js.falsy at 1; change (Js.truthy (Js.Str ?s)) with (Js.truthy s);
  unfold Js.truthy at 1, Js.string_truthy;
  rewrite negb_involutive; case_bool_decide; [done|]; simpl;
  rewrite protocol_test; by destruct (bool_decide _).

(** C1.  [parseUrl] on every input.  A missing field, [null], [false],
    [0] and the empty string are refused with the first message; any other
    string is parsed, and refused with the second message unless "http"
    occurs in the protocol found, otherwise the parsed URL is returned; a
    value that is not a string and not falsy (a number, [true], an array,
    an object) is refused by [url.parse] itself, with its [TypeError]. *)
Theorem parseUrl_spec (targetUrl : Js.value) :
  parseUrl targetUrl =
  match targetUrl with
  | Js.Str u =>
      if bool_decide (u = "") then inl noUrlError
      else if bool_decide (http_like (Url.protocol (Url.url_parse u)))
           then inr (Url.url_parse u)
           else inl invalidUrlError
  | Js.Undefined | Js.Null | Js.Bool false | Js.Number 0 => inl noUrlError
  | v => inl (Js.not_a_string "url" v)
  end.
Proof.
  unfold parseUrl. destruct targetUrl as [| |[]|[|n|n]|u|]; try done.
  by parseUrl_cases.
Qed.

(** [parseUrl] on a string. *)
Lemma parseUrl_string (u : string) :
  parseUrl (Js.Str u) =
  if bool_decide (u = "") then inl noUrlError
  else if bool_decide (http_like (Url.protocol (Url.url_parse u)))
       then inr (Url.url_parse u)
       else inl invalidUrlError.
Proof. unfold parseUrl. by parseUrl_cases. Qed.

(** The URL that [parseUrl] returns is what [url.parse] gave. *)
Lemma parseUrl_parsed (u : string) (p : Url.ParsedUrl) :
  parseUrl (Js.Str u) = inr p → p = Url.url_parse u.
Proof. rewrite parseUrl_string. repeat case_match; congruence. Qed.

(** What [parseUrl] lets through is a string. *)
Lemma parseUrl_is_string (v : Js.value) (p : Url.ParsedUrl) :
  parseUrl v = inr p → ∃ u, v = Js.Str u.
Proof.
  unfold parseUrl. destruct v as [| |[]|[|n|n]|u|]; try done. by exists u.
Qed.

(** C2.  A URL that [parseUrl] refuses stops the request at once: the handler
    throws the validation error and makes no call (no request to the page,
    no certificate, no file access). *)
Theorem invalid_url_no_call (this : Context) (e : Js.exn) :
  parseUrl (request_body_url this) = inl e →
  module_exports this = Throw e.
Proof.
  intros Hr. unfold module_exports, buildCrxConfig, buildCrxConfig_run.
  by rewrite Hr.
Qed.

End validate.

Import Fixture.

(** A number and an array in the place of the URL: the handler throws
    the [TypeError] of [url.parse], not a message of its own. *)
Example module_exports_number :
  module_exports (Fixture.ctx (Js.Number 42))
  = Throw (Js.TypeError "Parameter 'url' must be a string, not number")
  ∧ module_exports (Fixture.ctx Js.Object)
  = Throw (Js.TypeError "Parameter 'url' must be a string, not object").
Proof. by vm_compute. Qed.

(** An ftp address is refused by the handler before any call. *)
Lemma invalid_url_no_call_witness :
  module_exports (Fixture.ctx (Js.Str "ftp://example.com/")) = Throw invalidUrlError.
Proof. apply invalid_url_no_call. by vm_compute. Defined.
