(* ===== verification/Config.v ===== *)
(** * Config: [buildCrxConfig], [normalizeHost] and [getCrxTitle]

    The configuration the assembler builds on each path (validation error,
    hostname missing, page unreachable, page fetched), the invariant of the
    configurations it produces, what the normalisation of the host removes,
    and the three cases of the title. *)

From S2P Require Import Prelude JsString JsValue Prog Url Dom Path Generate Trace Fixture Validate.

(** ** Well-formed configurations *)

Section wf.
Context `{!Url.UrlParse}.

(** The configurations [buildCrxConfig] builds: the URL is the string that
    was parsed and passed validation, the hostname is a string, from which
    the host and the file name derive, and there is a title. *)
Record wf_config (c : CrxConfig) : Prop := {
  wf_url : url c ≠ "";
  wf_parsed : parsedUrl c = Url.url_parse (url c);
  wf_protocol : http_like (Url.protocol (parsedUrl c));
  wf_hostname : is_Some (Url.hostname (parsedUrl c));
  wf_host : Some (host c) = normalizeHost <$> Url.hostname (parsedUrl c);
  wf_filename : Some (filename c) = (λ h, h +:+ ".crx") <$> Url.hostname (parsedUrl c);
  wf_title : is_Some (title c);
}.

End wf.

Section config.
Context `{!Url.UrlParse, !Url.UrlResolve, !Dom.HtmlParse,
          !Path.PathJoin, !Path.Dirname}.
Implicit Types (c : CrxConfig) (dom : Dom.document).

(** ** [normalizeHost] *)

(** The host is the lower-cased hostname cut at the first "www.", wherever it
    stands. *)
Lemma normalizeHost_index_of h :
  normalizeHost h =
  let l := JsString.toLowerCase h in
  match JsString.index_of "www." l with
  | Some n => JsString.take n l +:+ JsString.drop (n + 4) l
  | None => l
  end.
Proof.
  unfold normalizeHost. rewrite JsString.replace_index_of. simpl.
  by destruct (JsString.index_of _ _).
Qed.

Lemma normalizeHost_leading_www h r :
  JsString.toLowerCase h = "www." +:+ r → normalizeHost h = r.
Proof. unfold normalizeHost. intros ->. apply JsString.replace_app. Qed.

(** Lower-casing and dropping "www." bring no slash into a hostname. *)
Lemma normalizeHost_no_slash h :
  JsString.existsb (NodeUrl.is_char 47) h = false →
  JsString.existsb (NodeUrl.is_char 47) (normalizeHost h) = false.
Proof.
  intros Hh. unfold normalizeHost, JsString.toLowerCase. apply JsString.existsb_replace.
  by rewrite JsString.existsb_map,
    (JsString.existsb_ext _ (NodeUrl.is_char 47)) by apply NodeUrl.slash_lower.
Qed.

Lemma normalizeHost_no_www h :
  ¬ JsString.occurs "www." (JsString.toLowerCase h) →
  normalizeHost h = JsString.toLowerCase h.
Proof. apply JsString.replace_absent. Qed.

(** ** [getCrxTitle] *)

(** The text the title is read from. *)
Definition page_title dom : string :=
  JsString.trim (Dom.text (Dom.select title_selector dom)).

Lemma getCrxTitle_cases dom c :
  getCrxTitle dom c =
  if bool_decide (host c = "messenger.com") then Some "Messenger"
  else if bool_decide (page_title dom = "") then Url.hostname (parsedUrl c)
  else Some (page_title dom).
Proof.
  unfold getCrxTitle, page_title, Js.or_else. rewrite Js.truthy_Some.
  unfold Js.truthy, Js.string_truthy. by repeat case_bool_decide.
Qed.

Lemma getCrxTitle_is_Some dom c :
  is_Some (Url.hostname (parsedUrl c)) → is_Some (getCrxTitle dom c).
Proof. rewrite getCrxTitle_cases. repeat case_bool_decide; eauto. Qed.


(** C26: the title of the extension.  For the host [messenger.com] it is
    the literal [Messenger], whatever the page says; for any other host it
    is the trimmed text of the page's title elements when that is not
    empty, and the hostname otherwise. *)
Theorem title_resolution dom c :
  (host c = "messenger.com" → getCrxTitle dom c = Some "Messenger") ∧
  (host c ≠ "messenger.com" → page_title dom ≠ "" →
   getCrxTitle dom c = Some (page_title dom)) ∧
  (host c ≠ "messenger.com" → page_title dom = "" →
   getCrxTitle dom c = Url.hostname (parsedUrl c)).
Proof. rewrite getCrxTitle_cases. split_and!; intros; by repeat case_bool_decide. Qed.

(** C28: [www.] is removed where it first occurs, not only in front: after
    a prefix that has no [w], the prefix stays and the [www.] that follows
    it goes. *)
Theorem normalizeHost_inner_www a b :
  JsString.existsb (λ ch, bool_decide (JsString.to_lower_char ch = "w"%char)) a = false →
  normalizeHost (a +:+ "www." +:+ b) = JsString.toLowerCase a +:+ JsString.toLowerCase b.
Proof.
  intros Ha. unfold normalizeHost. rewrite !JsString.toLowerCase_app.
  rewrite <-(JsString.app_nil_l (JsString.toLowerCase b)) at 2.
  apply (JsString.replace_after "w" "ww." ""). unfold JsString.toLowerCase.
  by rewrite JsString.existsb_map.
Qed.

(** C27: a leading [www.], in any case, is removed and the rest is
    lower-cased; a hostname in which [www.] does not occur is lower-cased;
    the host is never longer than the hostname. *)
Theorem normalizeHost_www h :
  normalizeHost ("www." +:+ h) = JsString.toLowerCase h ∧
  normalizeHost ("WWW." +:+ h) = JsString.toLowerCase h ∧
  (¬ JsString.occurs "www." (JsString.toLowerCase h) →
   normalizeHost h = JsString.toLowerCase h) ∧
  String.length (normalizeHost h) ≤ String.length h.
Proof.
  split_and!.
  - by apply normalizeHost_leading_www.
  - by apply normalizeHost_leading_www.
  - apply normalizeHost_no_www.
  - unfold normalizeHost. rewrite JsString.length_replace, JsString.length_toLowerCase.
    destruct (JsString.index_of _ _); simpl; lia.
Qed.

(** ** The invariant *)

Lemma defaultConfig_wf u p h :
  parseUrl (Js.Str u) = inr p → Url.hostname p = Some h →
  wf_config (defaultConfig u p h).
Proof.
  rewrite parseUrl_string. repeat case_bool_decide; intros [= <-] Hh; try done.
  split; simpl; rewrite ?Hh; eauto.
Qed.

Lemma set_icon_wf v c : wf_config c → wf_config (set_icon v c).
Proof. by intros []. Qed.

Lemma set_iconOverriden_wf v c : wf_config c → wf_config (set_iconOverriden v c).
Proof. by intros []. Qed.

Lemma set_title_wf v c : is_Some v → wf_config c → wf_config (set_title v c).
Proof. by intros ? []. Qed.

Lemma readPage_wf dom c : wf_config c → wf_config (readPage dom c).
Proof.
  intros Hc. apply set_title_wf; [|by apply set_icon_wf].
  apply getCrxTitle_is_Some, (wf_hostname _ Hc).
Qed.

(** ** [buildCrxConfig] *)

(** The request [getPageDOM] sends for a URL. *)
Definition page_request (u : string) : Request :=
  {| req_url := u; req_headers := [("User-Agent", userAgent)] |}.

(** C30: the page fetcher.  [getPageDOM] makes one call, the GET of the
    URL with the browser's User-Agent; an exception of the GET is its
    exception; and it does not look at the status of the response: the body
    of every response, a 404 or a 500 as well, is parsed and returned. *)
Theorem getPageDOM_any_status u :
  wp (getPageDOM u) (λ tr r,
    ∃ answer, tr = [Event (HttpGet (page_request u)) answer] ∧
      r = match answer with
          | inl e => Thrown e
          | inr response => Returned (Dom.cheerio_load (res_body response))
          end)
  ∧ ∀ response : Response,
      exec (getPageDOM u) [Event (HttpGet (page_request u)) (inr response)]
           (Returned (Dom.cheerio_load (res_body response))).
Proof.
  split; [intros [e|response]; simpl; eauto|].
  intros response. apply (steps_cons _ (HttpGet _) _ (inr response)). constructor.
Qed.

(** C37.  The icon read from a page is the [href] of the first element in
    document order that is a link with rel "icon" or "shortcut icon".  When
    that link has no [href] the icon is absent, also when a later link has
    one. *)
Theorem readPage_icon_first dom crxConfig pre n post :
  flat_map Dom.elements dom = pre ++ n :: post →
  Forall (λ m, icon_selector m = false) pre → icon_selector n = true →
  icon (readPage dom crxConfig) = Dom.attr_of "href" n.
Proof.
  intros Hd Hpre Hn. unfold readPage. simpl.
  by rewrite (Dom.select_first _ _ _ _ _ Hd Hpre Hn).
Qed.

(** A page without such a link leaves the icon absent. *)
Lemma readPage_no_icon dom crxConfig :
  Forall (λ m, icon_selector m = false) (flat_map Dom.elements dom) →
  icon (readPage dom crxConfig) = None.
Proof. intros Hd. unfold readPage. simpl. by rewrite (Dom.select_none _ _ Hd). Qed.

(** C3.  Every outcome of [buildCrxConfig].  It throws, before any call, the
    validation error of [parseUrl] or the TypeError of line 41 when the
    parsed URL has no hostname.  Otherwise it makes exactly one call, the
    GET of the page with the browser's User-Agent: when the GET fails it
    returns the default configuration (title and file name from the
    hostname, normalized host, no icon); when the GET succeeds it returns
    [undefined]. *)
Theorem buildCrxConfig_outcomes (targetUrl : Js.value) :
  wp (buildCrxConfig targetUrl) (λ tr r,
    match r with
    | Thrown e =>
        tr = [] ∧
        (parseUrl targetUrl = inl e ∨
         ∃ p, parseUrl targetUrl = inr p ∧ Url.hostname p = None ∧
              e = Js.cannot_read "toLowerCase" "null")
    | Returned ret =>
        ∃ u p h, targetUrl = Js.Str u ∧ parseUrl targetUrl = inr p ∧
                 Url.hostname p = Some h ∧
          ((∃ e, tr = [Event (HttpGet (page_request u)) (inl e)] ∧
                 ret = Some (defaultConfig u p h)) ∨
           (∃ response, tr = [Event (HttpGet (page_request u)) (inr response)] ∧
                 ret = None))
    end).
Proof.
  destruct targetUrl as [| |[]|[|n|n]|u|]; prog_walk; rewrite_scrut; simpl; eauto 10.
Qed.

(** The function as a tree, for an input that passes validation and has a
    hostname: one GET of the page; on failure the default configuration is
    the local object and the value returned; on success the local object is
    updated from the page and nothing is returned. *)
Lemma buildCrxConfig_run_tree u p h :
  parseUrl (Js.Str u) = inr p → Url.hostname p = Some h →
  buildCrxConfig_run (Js.Str u) ≡
  Vis (HttpGet (page_request u)) (λ r,
    match r with
    | inl _ => Ret (defaultConfig u p h, Some (defaultConfig u p h))
    | inr response =>
        Ret (readPage (Dom.cheerio_load (res_body response)) (defaultConfig u p h), None)
    end).
Proof.
  intros Hp Hh. unfold buildCrxConfig_run. rewrite Hp. simpl. rewrite Hh. simpl.
  apply prog_equiv_vis. by intros [e|response].
Qed.

(** The paths of [buildCrxConfig] with the local object: what it throws
    before any call, and after the one GET the object and the value
    returned. *)
Lemma buildCrxConfig_run_cases (targetUrl : Js.value) :
  wp (buildCrxConfig_run targetUrl) (λ tr r,
    match r with
    | Thrown e =>
        tr = [] ∧
        (parseUrl targetUrl = inl e ∨
         ∃ p, parseUrl targetUrl = inr p ∧ Url.hostname p = None ∧
              e = Js.cannot_read "toLowerCase" "null")
    | Returned (c, ret) =>
        ∃ u p h, targetUrl = Js.Str u ∧ parseUrl targetUrl = inr p ∧
                 Url.hostname p = Some h ∧
          ((∃ e, tr = [Event (HttpGet (page_request u)) (inl e)] ∧
                 c = defaultConfig u p h ∧ ret = Some c) ∨
           (∃ response, tr = [Event (HttpGet (page_request u)) (inr response)] ∧
                 c = readPage (Dom.cheerio_load (res_body response))
                              (defaultConfig u p h) ∧
                 ret = None))
    end).
Proof.
  unfold buildCrxConfig_run.
  destruct (parseUrl targetUrl) as [e|p] eqn:Hp; simpl; [by auto|].
  destruct (Url.hostname p) as [h|] eqn:Hh; simpl; [|by eauto 6].
  destruct (parseUrl_is_string _ _ Hp) as [u ->].
  intros [e|response]; simpl; exists u, p, h; split_and!; eauto 6.
Qed.

(** The value returned by the exported function. *)
Lemma wp_buildCrxConfig targetUrl (Q : list (event io) → result Js.exn (option CrxConfig) → Prop) :
  wp (buildCrxConfig_run targetUrl) (λ tr r,
    Q tr match r with
         | Returned (_, ret) => Returned ret
         | Thrown e => Thrown e
         end) →
  wp (buildCrxConfig targetUrl) Q.
Proof.
  intros HQ. unfold buildCrxConfig. apply wp_bind.
  eapply wp_mono; [|apply HQ]. intros tr [[c ret]|e]; simpl; [|done].
  by rewrite app_nil_r.
Qed.

(** C25.  The local object of [buildCrxConfig] is well formed on every path
    that does not throw: it satisfies [wf_config] whether the page was
    fetched or not. *)
Theorem buildCrxConfig_wf (targetUrl : Js.value) :
  wp (buildCrxConfig_run targetUrl) (λ _ r,
    match r with
    | Returned (c, _) => wf_config c
    | Thrown _ => True
    end).
Proof.
  eapply wp_mono; [|apply buildCrxConfig_run_cases].
  intros tr [[c ret]|e]; [|done].
  intros (u & p & h & -> & Hp & Hh & [(e & _ & -> & _)|(response & _ & -> & _)]).
  - by apply defaultConfig_wf.
  - by apply readPage_wf, defaultConfig_wf.
Qed.

(** C31.  A page that cannot be fetched does not fail the assembler: on the
    trace where the GET throws, [buildCrxConfig] returns the default
    configuration. *)
Theorem buildCrxConfig_unreachable u p h (e : Js.exn) :
  parseUrl (Js.Str u) = inr p → Url.hostname p = Some h →
  exec (buildCrxConfig (Js.Str u))
       [Event (HttpGet (page_request u)) (inl e)]
       (Returned (Some (defaultConfig u p h))).
Proof.
  intros Hp Hh. unfold buildCrxConfig, buildCrxConfig_run.
  rewrite Hp. simpl. rewrite Hh. simpl.
  apply (steps_cons _ (HttpGet _) _ (inl e)). constructor.
Qed.

(** C32.  A page that is fetched makes the assembler return [undefined]: the
    function ends without a [return], so the configuration read from the page
    does not reach the caller. *)
Theorem buildCrxConfig_fetched_undefined u p h (response : Response) :
  parseUrl (Js.Str u) = inr p → Url.hostname p = Some h →
  exec (buildCrxConfig (Js.Str u))
       [Event (HttpGet (page_request u)) (inr response)]
       (Returned None).
Proof.
  intros Hp Hh. unfold buildCrxConfig, buildCrxConfig_run.
  rewrite Hp. simpl. rewrite Hh. simpl.
  apply (steps_cons _ (HttpGet _) _ (inr response)). constructor.
Qed.

(** C33.  A URL that passes [parseUrl] but has no hostname makes the assembler
    throw a TypeError at line 41, before any call. *)
Theorem buildCrxConfig_no_hostname targetUrl p :
  parseUrl targetUrl = inr p → Url.hostname p = None →
  buildCrxConfig targetUrl = Throw (Js.cannot_read "toLowerCase" "null").
Proof.
  intros Hp Hh. unfold buildCrxConfig, buildCrxConfig_run.
  rewrite Hp. simpl. by rewrite Hh.
Qed.

End config.

Import Fixture.

(** The default configuration of a target written with capitals and "www.":
    the host is normalized, the title and the file name keep the hostname
    that Node lower-cased. *)
Example defaultConfig_example :
  let c := defaultConfig "https://WWW.Example.com/x"
             (Url.url_parse "https://WWW.Example.com/x") "www.example.com" in
  host c = "example.com" ∧ title c = Some "www.example.com" ∧
  filename c = "www.example.com.crx" ∧ icon c = None ∧ iconOverriden c = false.
Proof. by vm_compute. Qed.

Lemma buildCrxConfig_unreachable_witness :
  exec (buildCrxConfig (Js.Str "https://WWW.Example.com/x"))
       [Event (HttpGet (page_request "https://WWW.Example.com/x"))
              (inl (Js.LibError "request" "getaddrinfo ENOTFOUND"))]
       (Returned (Some (defaultConfig "https://WWW.Example.com/x"
                          (Url.url_parse "https://WWW.Example.com/x")
                          "www.example.com"))).
Proof. apply buildCrxConfig_unreachable; by vm_compute. Defined.

Lemma buildCrxConfig_fetched_undefined_witness :
  exec (buildCrxConfig (Js.Str "http://example.com/"))
       [Event (HttpGet (page_request "http://example.com/"))
              (inr {| res_status := 200; res_body := Fixture.page_example |})]
       (Returned None).
Proof.
  apply (buildCrxConfig_fetched_undefined _ (Url.url_parse "http://example.com/")
           "example.com"); by vm_compute.
Defined.

(** "http:example.com" has the protocol "http:" and, without slashes, no
    host: it passes [parseUrl] and fails at line 41. *)
Lemma buildCrxConfig_no_hostname_witness :
  buildCrxConfig (Js.Str "http:example.com")
  = Throw (Js.cannot_read "toLowerCase" "null").
Proof.
  apply (buildCrxConfig_no_hostname _ (Url.url_parse "http:example.com"));
    by vm_compute.
Defined.

Lemma normalizeHost_inner_www_witness :
  normalizeHost ("m." +:+ "www." +:+ "example.com") = "m." +:+ "example.com".
Proof. by apply (normalizeHost_inner_www "m." "example.com"). Defined.

(** "www." is removed wherever it first occurs, not only in front. *)
Example normalizeHost_inner :
  normalizeHost "newwww.example.com" = "newexample.com".
Proof. by vm_compute. Qed.

(** Two spellings of a host, one normalized host. *)
Example normalizeHost_same :
  (normalizeHost <$> Url.hostname (Url.url_parse "https://WWW.Example.com/x"))
  = (normalizeHost <$> Url.hostname (Url.url_parse "https://example.com/x"))
  ∧ (normalizeHost <$> Url.hostname (Url.url_parse "https://example.com/x"))
    = Some "example.com".
Proof. by vm_compute. Qed.

(** A page with a title and no icon link: the title is read, trimmed, and
    no icon is recorded. *)
Example readPage_example :
  let c := readPage (Dom.cheerio_load Fixture.page_example)
                    (Fixture.config "http://example.com/") in
  title c = Some "Example" ∧ icon c = None.
Proof. by vm_compute. Qed.

(** A page with an icon link: the [href] of the first link is recorded as
    it is written. *)
Example readPage_icon :
  let c := readPage (Dom.cheerio_load Fixture.page_icon)
                    (Fixture.config "http://shop.example.com/") in
  title c = Some "Shop" ∧ icon c = Some "/favicon.ico".
Proof. by vm_compute. Qed.

(** The first icon link of this page has no [href]; the second has one, and
    is not looked at. *)
Lemma readPage_icon_first_witness :
  icon (readPage
          [Dom.Element "head" []
             [Dom.Element "link" [("rel", "stylesheet"); ("href", "/s.css")] [];
              Dom.Element "link" [("rel", "icon")] [];
              Dom.Element "link" [("rel", "shortcut icon"); ("href", "/favicon.ico")] []]]
          (Fixture.config "http://shop.example.com/"))
  = None.
Proof.
  by rewrite (readPage_icon_first _ _
       [Dom.Element "head" []
          [Dom.Element "link" [("rel", "stylesheet"); ("href", "/s.css")] [];
           Dom.Element "link" [("rel", "icon")] [];
           Dom.Element "link" [("rel", "shortcut icon"); ("href", "/favicon.ico")] []];
        Dom.Element "link" [("rel", "stylesheet"); ("href", "/s.css")] []]
       (Dom.Element "link" [("rel", "icon")] [])
       [Dom.Element "link" [("rel", "shortcut icon"); ("href", "/favicon.ico")] []])
    by (done || by repeat constructor).
Defined.

(** On messenger.com, with or without [www.], the title is the literal. *)
Example getCrxTitle_messenger :
  getCrxTitle (Dom.cheerio_load Fixture.page_example)
              (Fixture.config "https://www.messenger.com/") = Some "Messenger".
Proof. by vm_compute. Qed.

(** A page with two title elements: the title of the extension is both
    texts, one after the other. *)
Example page_title_two_titles :
  page_title [Dom.Element "title" [] [Dom.Text "Shop"];
              Dom.Element "svg" [] [Dom.Element "title" [] [Dom.Text "Cart icon"]]]
  = "ShopCart icon".
Proof. by vm_compute. Qed.
