(* ===== verification/Icon.v ===== *)
(** * Icon: the icon cascade of [generateCrx]

    The file helpers as trees, the three steps of the cascade
    ([overrideIconIfExists], [downloadIcon], [setPlaceholderIcon]) with what
    each writes and when, and the cascade as a whole: an abstract decision
    ([icon_choice]) that the program refines, at most one write of the icon
    on every path, and the precedence of the per-host override. *)

From stdpp Require Import sets.
From S2P Require Import Prelude JsString JsValue Prog Url Dom Path Generate Trace Fixture Validate Config.

Section icon.
Context `{!Url.UrlParse, !Url.UrlResolve, !Dom.HtmlParse,
          !Path.PathJoin, !Path.Dirname}.
Implicit Types (c : CrxConfig) (crx : Crx.t).

(** ** The cascade, abstractly

    Where the icon of the package comes from: the design's tagged result. *)
Inductive icon_source : Type :=
| Override (path : string)
| Remote (url : string)
| Placeholder (path : string)
| Default.

(** The letter icon for a hostname, when its first character is a letter. *)
Definition placeholder_for (hostname : string) : icon_source :=
  let letter := JsString.toUpperCase (JsString.substring 0 1 hostname) in
  if JsString.match_AZ letter then Placeholder (placeholderPath letter) else Default.

(** The decision of lines 129-142, given whether the per-host file exists. *)
Definition icon_choice (found : bool) c : Js.exn + icon_source :=
  if found then inr (Override (overrideIconPath c))
  else if iconOverriden c then inr Default
  else if Js.truthy (icon c) then
    let absoluteIconUrl := Url.url_resolve (url c) (default "" (icon c)) in
    inr (if Js.truthy absoluteIconUrl then Remote absoluteIconUrl else Default)
  else
    match method "substring" (Url.hostname (parsedUrl c)) with
    | inl e => inl e
    | inr hostname => inr (placeholder_for hostname)
    end.

(** What each source does to the destination. *)
Definition fetch_icon (s : icon_source) (dest : string) : js () :=
  match s with
  | Override path | Placeholder path => _ ← copyLocalFile path dest; Ret ()
  | Remote u => _ ← downloadFile u dest; Ret ()
  | Default => Ret ()
  end.

(** The cascade as the design states it: look for the per-host file,
    decide, fetch; the flag records the override. *)
Definition cascade c crx : js CrxConfig :=
  found ← try_catch (_ ← call (AccessSync (overrideIconPath c) F_OK); Ret true)
                     (λ e, Ret false);
  s ← lift (icon_choice found c);
  _ ← fetch_icon s (iconDestination crx);
  Ret (if found : bool then set_iconOverriden true c else c).

(** Lines 129-142 of [generateCrx]. *)
Definition resolveIcon c crx : js CrxConfig :=
  c' ← overrideIconIfExists c crx;
  _ ← fallbackIcon c' crx;
  Ret c'.

(** ** The file helpers *)

(** [copyLocalFile] as a tree: open the sink, open the source, pipe, wait
    for [finish]; an exception of one of the three calls is the promise's
    rejection. *)
Lemma copyLocalFile_tree from to :
  copyLocalFile from to ≡
  Vis (CreateWriteStream to) (λ r,
    match r with
    | inl e => Throw e
    | inr sink =>
        Vis (CreateReadStream from) (λ r,
          match r with
          | inl e => Throw e
          | inr source =>
              Vis (Pipe source sink) (λ r,
                match r with
                | inl e => Throw e
                | inr _ => Vis (Finish sink) (λ _, Ret true)
                end)
          end)
    end).
Proof.
  apply prog_equiv_vis. intros [e|sink]; [done|].
  apply prog_equiv_vis. intros [e|source]; [done|].
  apply prog_equiv_vis. intros [e|[]]; [done|].
  by apply prog_equiv_vis.
Qed.

Lemma downloadFile_tree u filePath :
  downloadFile u filePath ≡
  Vis (CreateWriteStream filePath) (λ r,
    match r with
    | inl e => Throw e
    | inr sink =>
        Vis (RequestStream u) (λ r,
          match r with
          | inl e => Throw e
          | inr source =>
              Vis (Pipe source sink) (λ r,
                match r with
                | inl e => Throw e
                | inr _ => Vis (Finish sink) (λ _, Ret true)
                end)
          end)
    end).
Proof.
  apply prog_equiv_vis. intros [e|sink]; [done|].
  apply prog_equiv_vis. intros [e|source]; [done|].
  apply prog_equiv_vis. intros [e|[]]; [done|].
  by apply prog_equiv_vis.
Qed.

Lemma copyLocalFile_writes from to : at_most is_write 1 (copyLocalFile from to).
Proof. prog_walk. Qed.

Lemma downloadFile_writes u filePath : at_most is_write 1 (downloadFile u filePath).
Proof. prog_walk. Qed.

End icon.

(** ** What the cascade does, on every path *)

Section cascade_properties.
Context `{!Url.UrlParse, !Url.UrlResolve, !Dom.HtmlParse,
          !Path.PathJoin, !Path.Dirname}.
Implicit Types (c : CrxConfig) (crx : Crx.t).

(** C7: precedence of the per-host override.  In every execution of
    [generateCrx] in which [accessSync] finds the per-host file, no download
    is requested, the only file read is the per-host file, and the
    configuration the function leaves has [iconOverriden] set; in every
    other execution the configuration is left as it was. *)
Theorem override_precedence c :
  wp (generateCrx (Some c)) (λ tr r,
    if succeeded is_access tr then
      count is_download tr = 0 ∧ reads tr ⊆ [overrideIconPath c] ∧
      ∀ b c', r = Returned (b, c') → c' = set_iconOverriden true c
    else ∀ b c', r = Returned (b, c') → c' = c).
Proof. prog_solve. Qed.

(** C18: on every path [generateCrx] opens at most one file for writing:
    the three steps of the cascade never write one after the other. *)
Theorem generateCrx_writes_once oc : at_most is_write 1 (generateCrx oc).
Proof. destruct oc as [c|]; prog_walk. Qed.


(** Without a configuration ([undefined], what [buildCrxConfig]
    returns for a page it fetched) [generateCrx] never returns: it throws,
    after the certificate and the load, the type error of line 120, and
    neither writes an icon nor packs. *)
Lemma generateCrx_undefined :
  wp (generateCrx None) (λ tr r,
    count is_pack tr = 0 ∧ count is_write tr = 0 ∧
    ∃ e, r = Thrown e ∧
         (raised_outside is_access tr = [] → e = Js.cannot_read "title" "undefined")).
Proof. prog_solve. Qed.

(** C34: when [generateCrx] returns, the last call is the one [pack], of
    the extension that [load] answered, with the title as its name, the URL
    added to the permitted URLs and as launch URL, and the icon entry as it
    was; the buffer returned is the answer of that call, and a file written
    is the icon of the loaded extension. *)
Theorem generateCrx_pack c :
  wp (generateCrx (Some c)) (λ tr r,
    ∀ b c', r = Returned (b, c') →
    count is_pack tr = 1 ∧
    ∃ crx, loaded tr = [crx] ∧
           writes tr ⊆ [iconDestination crx] ∧
           last tr = Some (Event (CrxPack
             {| Crx.privateKey := Crx.privateKey crx; Crx.path := Crx.path crx;
                Crx.manifest :=
                  {| Crx.name := title c;
                     Crx.app_urls := Crx.app_urls (Crx.manifest crx) ++ [url c];
                     Crx.app_launch_web_url := Some (url c);
                     Crx.icons_128 := Crx.icons_128 (Crx.manifest crx) |} |})
             (inr b))).
Proof. prog_solve. Qed.

(** C35: the exception of a call other than [accessSync] is the exception
    of [generateCrx]: failures of the certificate, the load, the copy, the
    download and the pack reach the caller unmodified. *)
Theorem errors_propagate oc :
  wp (generateCrx oc) (λ tr r, ∀ e, e ∈ raised_outside is_access tr → r = Thrown e).
Proof. destruct oc; prog_solve. Qed.

(** C16: a well-formed configuration is well typed.  On a configuration
    that is well formed (its hostname is a string, it has a title)
    [generateCrx] raises no exception of its own: what it throws is the
    exception of one of its calls, never the engine's [TypeError] for a
    missing field, and the configuration it leaves is well formed. *)
Theorem generateCrx_well_typed c :
  wf_config c →
  wp (generateCrx (Some c)) (λ tr r,
    match r with
    | Returned (_, c') => wf_config c'
    | Thrown e => e ∈ raised_outside is_access tr
    end).
Proof.
  intros Hwf. destruct (wf_hostname _ Hwf) as [h Hh].
  prog_walk; simplify_eq/=; try (by rewrite Hh in *);
    first [done | by apply set_iconOverriden_wf | set_solver].
Qed.

End cascade_properties.

(** ** The cascade refines its design

    The file helpers are kept folded in this section: the steps are compared
    as sequences of helper calls. *)
Section refinement.
Context `{!Url.UrlParse, !Url.UrlResolve, !Dom.HtmlParse,
          !Path.PathJoin, !Path.Dirname}.
Implicit Types (c : CrxConfig) (crx : Crx.t).
#[local] Arguments copyLocalFile : simpl never.
#[local] Arguments downloadFile : simpl never.

Lemma setPlaceholderIcon_fetch c crx :
  setPlaceholderIcon c crx ≡
  s ← lift (match method "substring" (Url.hostname (parsedUrl c)) with
            | inl e => inl e
            | inr hostname => inr (placeholder_for hostname)
            end);
  fetch_icon s (iconDestination crx).
Proof.
  unfold setPlaceholderIcon, placeholder_for.
  destruct (method _ _) as [e|hostname]; simpl; [done|].
  by destruct (JsString.match_AZ _).
Qed.

Lemma downloadIcon_fetch c crx i :
  icon c = Some i →
  downloadIcon c crx ≡
  fetch_icon (let u := Url.url_resolve (url c) i in
              if Js.truthy u then Remote u else Default) (iconDestination crx).
Proof.
  unfold downloadIcon. intros ->. simpl. by destruct (Js.truthy _).
Qed.

(** The second and third steps are the decision without the override. *)
Lemma fallbackIcon_fetch c crx :
  fallbackIcon c crx ≡
  s ← lift (icon_choice false c); fetch_icon s (iconDestination crx).
Proof.
  unfold fallbackIcon, icon_choice.
  destruct (iconOverriden c); simpl; [done|].
  destruct (Js.truthy (icon c)) eqn:Ht.
  - destruct (icon c) as [i|] eqn:Hi; [|done]. by apply downloadIcon_fetch.
  - apply setPlaceholderIcon_fetch.
Qed.

(** The cascade of [generateCrx] is the cascade of the design. *)
Lemma resolveIcon_cascade c crx : resolveIcon c crx ≡ cascade c crx.
Proof.
  unfold resolveIcon, cascade, overrideIconIfExists.
  apply prog_equiv_vis. intros [e|[]].
  - change (fallbackIcon c crx ≫= (λ _, Ret c) ≡
            lift (icon_choice false c) ≫= λ s,
              fetch_icon s (iconDestination crx) ≫= λ _, Ret c).
    by rewrite fallbackIcon_fetch, bind_assoc.
  - set (copy := copyLocalFile _ _).
    change ((copy ≫= λ _, Ret (set_iconOverriden true c)) ≫= (λ c',
              fallbackIcon c' crx ≫= λ _, Ret c') ≡
            (copy ≫= λ _, Ret ()) ≫= λ _, Ret (set_iconOverriden true c)).
    rewrite !bind_assoc. by f_equiv.
Qed.

(** [generateCrx] with its cascade folded: certificate, load, the manifest,
    the cascade, pack. *)
Lemma generateCrx_tree c :
  generateCrx (Some c) ≡
  cert ← call (CreateCertificate (365 * 10) true);
  crx ← call (CrxLoad (clientKey cert) filesDirectory);
  c' ← resolveIcon c (configureManifest c crx);
  crxBuffer ← call (CrxPack (configureManifest c crx));
  Ret (crxBuffer, c').
Proof.
  unfold generateCrx, resolveIcon.
  apply prog_equiv_vis. intros [e|cert]; [done|].
  apply prog_equiv_vis. intros [e|crx]; [done|].
  change ((overrideIconIfExists c (configureManifest c crx) ≫= λ c',
            fallbackIcon c' (configureManifest c crx) ≫= λ _,
            call (CrxPack (configureManifest c crx)) ≫= λ b, Ret (b, c')) ≡
          (overrideIconIfExists c (configureManifest c crx) ≫= λ c',
            fallbackIcon c' (configureManifest c crx) ≫= λ _, Ret c') ≫= λ c',
            call (CrxPack (configureManifest c crx)) ≫= λ b, Ret (b, c')).
  rewrite bind_assoc. f_equiv. intros c'. by rewrite bind_assoc.
Qed.

(** C8: [generateCrx] implements the cascade of the design: certificate,
    load, the three manifest fields, then the decision [icon_choice] on
    whether the per-host file exists and the one fetch it names, then pack. *)
Theorem generateCrx_cascade c :
  generateCrx (Some c) ≡
  cert ← call (CreateCertificate (365 * 10) true);
  crx ← call (CrxLoad (clientKey cert) filesDirectory);
  c' ← cascade c (configureManifest c crx);
  crxBuffer ← call (CrxPack (configureManifest c crx));
  Ret (crxBuffer, c').
Proof.
  rewrite generateCrx_tree. do 2 (f_equiv; intros ?). f_equiv.
  apply resolveIcon_cascade.
Qed.

End refinement.

(** ** Where the override icon is looked up

    With Node's [path.join] and a URL parser that keeps the laws of
    [Url.UrlParseLaws], the file that [overrideIconIfExists] looks up is a
    file of the directory of override icons itself: the hostname has no
    slash, and the name built from it is neither [.] nor [..]. *)

Section icon_path.
Context `{!Url.UrlParse, !Url.UrlParseLaws, !Path.Dirname}.

(** The file name of an icon is a plain segment of a path. *)
Lemma icon_file_plain h :
  JsString.existsb (NodeUrl.is_char 47) h = false →
  JsString.existsb (NodeUrl.is_char 47) (h +:+ ".png") = false ∧
  h +:+ ".png" ≠ "" ∧ h +:+ ".png" ≠ "." ∧ h +:+ ".png" ≠ "..".
Proof.
  intros Hh. split_and!; [by rewrite JsString.existsb_app, Hh|..].
  all: intros E%(f_equal String.length); rewrite JsString.length_app in E.
  all: simpl in E; lia.
Qed.

(** The toLowerCase of line 41 changes nothing in a hostname that the parser
    returned. *)
Lemma normalizeHost_parsed u h :
  Url.hostname (Url.url_parse u) = Some h →
  normalizeHost h = JsString.replace "www." "" h.
Proof. intros Hh. unfold normalizeHost. by rewrite (Url.hostname_lower _ _ Hh). Qed.

(** The two files that the cascade reads, for a name without a slash. *)
Lemma overrideIconPath_plain c :
  JsString.existsb (NodeUrl.is_char 47) (host c) = false →
  overrideIconPath c
  = PosixPath.join Path.dirname "../assets/icons" +:+ "/" +:+ host c +:+ ".png".
Proof.
  intros Hc. destruct (icon_file_plain _ Hc) as (? & ? & ? & ?).
  by apply (PosixPath.join_segment "icons" (host c +:+ ".png")
              eq_refl ltac:(done) ltac:(done) ltac:(done)
              ltac:(done) ltac:(done) ltac:(done) ltac:(done)
              Path.dirname "../assets").
Qed.

Lemma placeholderPath_plain letter :
  JsString.existsb (NodeUrl.is_char 47) letter = false →
  placeholderPath letter
  = PosixPath.join Path.dirname "../lib/extension/icons/fallback"
    +:+ "/" +:+ letter +:+ ".png".
Proof.
  intros Hc. destruct (icon_file_plain _ Hc) as (? & ? & ? & ?).
  by apply (PosixPath.join_segment "fallback" (letter +:+ ".png")
              eq_refl ltac:(done) ltac:(done) ltac:(done)
              ltac:(done) ltac:(done) ltac:(done) ltac:(done)
              Path.dirname "../lib/extension/icons").
Qed.

(** C22.  For a URL that [parseUrl] accepts and whose hostname is [h], the
    host of the configuration has no slash, and the override icon is looked
    up at the file [<host>.png] of the directory [../assets/icons] beside
    generate.js: no hostname makes the lookup leave that directory. *)
Theorem overrideIconPath_in_icons u p h :
  parseUrl (Js.Str u) = inr p → Url.hostname p = Some h →
  JsString.existsb (NodeUrl.is_char 47) (normalizeHost h) = false ∧
  overrideIconPath (defaultConfig u p h)
  = PosixPath.join Path.dirname "../assets/icons" +:+ "/" +:+ normalizeHost h +:+ ".png".
Proof.
  intros ->%parseUrl_parsed Hh.
  pose proof (normalizeHost_no_slash h (Url.hostname_no_slash _ _ Hh)) as Hn.
  split; [done|]. by apply (overrideIconPath_plain (defaultConfig _ _ h)).
Qed.

End icon_path.

(** ** The cascade on concrete hosts *)

Import Fixture.

Lemma overrideIconPath_in_icons_witness :
  JsString.existsb (NodeUrl.is_char 47) (normalizeHost "www.github.com") = false ∧
  overrideIconPath (config "https://www.github.com/")
  = "/srv/app/api/assets/icons" +:+ "/" +:+ "github.com" +:+ ".png".
Proof.
  assert (parseUrl (Js.Str "https://www.github.com/")
          = inr (NodeUrl.parse "https://www.github.com/")) as Hp by by vm_compute.
  pose proof (overrideIconPath_in_icons _ _ "www.github.com" Hp eq_refl) as H.
  vm_compute in H |- *. exact H.
Defined.

Lemma generateCrx_well_typed_witness :
  wp (generateCrx (Some (config "https://github.io/"))) (λ tr r,
    match r with
    | Returned (_, c') => wf_config c'
    | Thrown e => e ∈ raised_outside is_access tr
    end).
Proof.
  apply generateCrx_well_typed.
  apply (defaultConfig_wf _ (NodeUrl.parse "https://github.io/") "github.io");
    by vm_compute.
Defined.


(** A hostname that starts with a digit gets no placeholder. *)
Example setPlaceholderIcon_digit :
  setPlaceholderIcon (config "https://123shop.io/") crx = Ret ().
Proof. by vm_compute. Qed.

Example icon_choice_override :
  icon_choice true (set_icon (Some "/favicon.ico") (config "https://www.github.com/"))
  = inr (Override "/srv/app/api/assets/icons/github.com.png").
Proof. by vm_compute. Qed.

Example icon_choice_remote :
  icon_choice false (set_icon (Some "/favicon.ico") (config "https://github.com"))
  = inr (Remote "https://github.com/favicon.ico").
Proof. by vm_compute. Qed.

Example icon_choice_placeholder :
  icon_choice false (config "https://github.com")
  = inr (Placeholder "/srv/app/api/lib/extension/icons/fallback/G.png").
Proof. by vm_compute. Qed.
