(* ===== verification/Handler.v ===== *)
(** * Handler: POST /generate as a whole

    [module.exports] composes [buildCrxConfig], [generateCrx] and [sendCrx].
    The theorems here follow a request from its URL to the response: which
    requests are answered and with what, which fail and where, and what the
    handler does to the world on the way.  The last section reads the
    response back as a client does: the headers by [ctx_get], the file name
    by [attachment_filename]. *)

From stdpp Require Import sets.
From S2P Require Import Prelude JsString JsValue Prog Url Dom Path Generate Trace Fixture Validate Config Icon.

Section handler.
Context `{!Url.UrlParse, !Url.UrlResolve, !Dom.HtmlParse,
          !Path.PathJoin, !Path.Dirname}.
Implicit Types (this : Context) (c : CrxConfig).

(** C4: a request whose page was fetched is never answered.  In every
    execution of the handler in which the GET of the page succeeds, the
    handler throws; it neither writes an icon nor packs, and when the
    certificate and the load succeed the exception is the type error of
    reading [title] of [undefined]: [buildCrxConfig] returned nothing. *)
Theorem module_exports_fetched_fails this :
  wp (module_exports this) (λ tr r,
    succeeded is_fetch tr = true →
    count is_pack tr = 0 ∧ count is_write tr = 0 ∧
    ∃ e, r = Thrown e ∧
         (raised_outside is_access tr = [] → e = Js.cannot_read "title" "undefined")).
Proof. prog_solve. Qed.

(** C5: the response of a request that is answered.  When the handler
    returns, the URL passed [parseUrl] and has a hostname, the GET of the
    page failed, the last call is the pack of the loaded extension named
    after the hostname, permitted on the URL and launching it, and the
    response carries the extension's content type, the file name
    [<hostname>.crx] and the packed buffer as its body. *)
Theorem module_exports_response this :
  wp (module_exports this) (λ tr r,
    ∀ ctx, r = Returned ctx →
    ∃ u p h crx b,
      request_body_url this = Js.Str u ∧
      parseUrl (Js.Str u) = inr p ∧ Url.hostname p = Some h ∧
      count is_fetch tr = 1 ∧ succeeded is_fetch tr = false ∧
      loaded tr = [crx] ∧
      last tr = Some (Event (CrxPack
        {| Crx.privateKey := Crx.privateKey crx; Crx.path := Crx.path crx;
           Crx.manifest :=
             {| Crx.name := Some h;
                Crx.app_urls := Crx.app_urls (Crx.manifest crx) ++ [u];
                Crx.app_launch_web_url := Some u;
                Crx.icons_128 := Crx.icons_128 (Crx.manifest crx) |} |})
        (inr b)) ∧
      ctx = ctx_set_body b
              (ctx_set "content-disposition" ("attachment; filename=" +:+ h +:+ ".crx")
                 (ctx_set "content-type" "application/x-chrome-extension" this))).
Proof.
  unfold module_exports.
  destruct (request_body_url this) as [| |[]|[|n|n]|u|] eqn:Hu; prog_solve.
Qed.

(** C36: the handler never downloads an icon: the page's icon is recorded
    only when the page was fetched, and then the handler fails before the
    cascade. *)
Theorem module_exports_never_downloads this : never is_download (module_exports this).
Proof. unfold never. prog_walk. Qed.

(** The handler makes its calls at most once each: one GET, one
    certificate, one load, one pack, and at most one file written. *)
Lemma module_exports_bounds this :
  at_most is_fetch 1 (module_exports this) ∧
  at_most is_pack 1 (module_exports this) ∧
  at_most is_write 1 (module_exports this) ∧
  at_most is_read 1 (module_exports this).
Proof. split_and!; prog_walk. Qed.

(** The route has no loop: no execution makes more than nine calls. *)
Lemma module_exports_calls this : at_most any_call 9 (module_exports this).
Proof. prog_walk. Qed.

(** C23: the order of the calls.  In every execution of the handler the
    calls come in one order, each stage at most once: the GET of the page,
    the certificate, the load of the template, the look-up of the per-host
    icon, then the sink, the source, the pipe and the finish of one icon
    copy, then the pack.  No two icon steps run in one request, and nothing
    is written after the pack. *)
Theorem module_exports_sequence this :
  wp (module_exports this) (λ tr _, StronglySorted lt (stages tr)).
Proof. prog_walk; by apply increasing_sorted. Qed.

End handler.

(** ** What the client reads

    [ctx.response.get(field)] reads a header of the response.  A client
    reads the file name from the value of [content-disposition] as RFC 6266
    has it: the disposition type, then parameters separated by [;], each
    after optional white space; the file name is the value of the first
    parameter [filename]. *)
Definition ctx_get (field : string) (ctx : Context) : option string :=
  snd <$> List.find (λ kv, bool_decide (kv.1 = field)) (response_headers ctx).

Definition is_lws (c : ascii) : bool := NodeUrl.char_in [32; 9] c.

Definition disposition_param (name param : string) : option string :=
  let p := (NodeUrl.span is_lws param).2 in
  if JsString.starts_with (name +:+ "=") p
  then Some (JsString.drop (String.length name + 1) p)
  else None.

Definition attachment_filename (value : string) : option string :=
  match NodeUrl.split_on ";" value with
  | type :: params =>
      if bool_decide (type = "attachment")
      then head (omap (disposition_param "filename") params)
      else None
  | [] => None
  end.

Section read_back.
Context `{!Url.UrlParse, !Url.UrlParseLaws, !Url.UrlResolve, !Dom.HtmlParse,
          !Path.PathJoin, !Path.Dirname}.
Implicit Types (this ctx : Context).

Lemma ctx_get_set field value ctx : ctx_get field (ctx_set field value ctx) = Some value.
Proof. unfold ctx_get. simpl. by rewrite bool_decide_eq_true_2. Qed.

Lemma ctx_get_set_ne field field' value ctx :
  field ≠ field' → ctx_get field (ctx_set field' value ctx) = ctx_get field ctx.
Proof.
  intros Hne. unfold ctx_get. simpl. rewrite bool_decide_eq_false_2 by done.
  f_equal. induction (response_headers ctx) as [|[k v] l IH]; simpl; [done|].
  repeat case_bool_decide; simplify_eq/=; rewrite ?bool_decide_eq_true_2 by done;
    rewrite ?bool_decide_eq_false_2 by done; done.
Qed.

Lemma ctx_get_set_body field b ctx : ctx_get field (ctx_set_body b ctx) = ctx_get field ctx.
Proof. done. Qed.

(** The file name of the header that [sendCrx] writes is read back when
    the name has no [;]. *)
Lemma attachment_filename_read name :
  JsString.existsb (NodeUrl.is_char 59) name = false →
  attachment_filename ("attachment; filename=" +:+ name) = Some name.
Proof.
  intros Hname. unfold attachment_filename.
  change ("attachment; filename=" +:+ name)
    with ("attachment" +:+ String ";" (" filename=" +:+ name)).
  rewrite NodeUrl.split_on_first, NodeUrl.split_on_absent by done.
  by rewrite <-(JsString.drop_0 name) at 2.
Qed.

(** The response of a request that is answered, as [sendCrx] builds it. *)
Lemma module_exports_returns this :
  wp (module_exports this) (λ tr r,
    ∀ ctx, r = Returned ctx →
    ∃ u p h crx b,
      request_body_url this = Js.Str u ∧ parseUrl (Js.Str u) = inr p ∧
      Url.hostname p = Some h ∧ last tr = Some (Event (CrxPack crx) (inr b)) ∧
      ctx = ctx_set_body b
              (ctx_set "content-disposition" ("attachment; filename=" +:+ h +:+ ".crx")
                 (ctx_set "content-type" "application/x-chrome-extension" this))).
Proof.
  unfold module_exports.
  destruct (request_body_url this) as [| |[]|[|n|n]|u|] eqn:Hu; prog_solve.
Qed.

(** C17: the response reads back.  What a client reads from the response
    of a request that is answered is what the route put in, whatever
    headers the context had before: the content type of an extension, the
    file name [<hostname>.crx] in the [content-disposition] header, which
    no hostname of the parser can break, and the buffer that [pack]
    answered as the body. *)
Theorem module_exports_read_back this :
  wp (module_exports this) (λ tr r,
    ∀ ctx, r = Returned ctx →
    ∃ u h crx b,
      request_body_url this = Js.Str u ∧ Url.hostname (Url.url_parse u) = Some h ∧
      last tr = Some (Event (CrxPack crx) (inr b)) ∧
      ctx_get "content-type" ctx = Some "application/x-chrome-extension" ∧
      ctx_get "content-disposition" ctx ≫= attachment_filename = Some (h +:+ ".crx") ∧
      response_body ctx = Some b).
Proof.
  eapply wp_mono; [|apply module_exports_returns].
  intros tr r Hr ctx ->.
  destruct (Hr _ eq_refl) as (u & p & h & crx & b & Hu & ->%parseUrl_parsed & Hh & Hlast & ->).
  exists u, h, crx, b. split_and!; [done..| | |done].
  - by rewrite ctx_get_set_body, ctx_get_set_ne, ctx_get_set.
  - rewrite ctx_get_set_body, ctx_get_set. simpl. apply attachment_filename_read.
    rewrite JsString.existsb_app. unfold NodeUrl.is_char at 1.
    by rewrite (Url.hostname_no_semicolon _ _ Hh).
Qed.

End read_back.

(** A name with a [;] would be cut: the header is not quoted. *)
Example attachment_filename_cut :
  attachment_filename "attachment; filename=a;b.crx" = Some "a".
Proof. by vm_compute. Qed.

Import Fixture.

Lemma module_exports_read_back_witness :
  wp (module_exports (ctx (Js.Str "https://www.github.com/"))) (λ tr r,
    ∀ ctx', r = Returned ctx' →
    ∃ u h crx b,
      Js.Str "https://www.github.com/" = Js.Str u ∧ Url.hostname (NodeUrl.parse u) = Some h ∧
      last tr = Some (Event (CrxPack crx) (inr b)) ∧
      ctx_get "content-type" ctx' = Some "application/x-chrome-extension" ∧
      ctx_get "content-disposition" ctx' ≫= attachment_filename = Some (h +:+ ".crx") ∧
      response_body ctx' = Some b).
Proof. apply (module_exports_read_back (ctx (Js.Str "https://www.github.com/"))). Defined.
