(* ===== verification/World.v ===== *)
(** * World: the file system and the network behind the calls

    A model of the environment that answers the calls of [io]: files with
    their content, pages of the web, the key [pem] creates and the template
    [crx] loads.  [node] is the handler: what each call answers in a world
    and the world it leaves.  With it a program runs ([run node p w]), and
    the theorems say what a run of the copies and of the route does to the
    files, and when a run of the route settles.  The libraries are modelled
    after their documentation: [fs.createWriteStream] truncates the file
    when it opens it, [pipe] copies the source when the source can be read,
    and a sink emits [finish] only then, so the wait for [finish] of a copy
    whose source is missing never ends.  [Sample] is a world for the
    examples.  The specification of the route over a world is in [Route]. *)

From stdpp Require Import gmap.
From S2P Require Import Prelude JsString JsValue Prog Url Dom Path Generate Trace Fixture Validate Config Icon Handler.

(** ** The world *)

(** What a run does not change: the web, the key [pem] creates, the
    manifest of the template of the extension and the directory [crx] works
    in. *)
Record site : Type := Site {
  web : gmap string Response;
  pem_key : string;
  template : Crx.Manifest;
  workdir : string;
}.

(** The world: the site, the content of each file, and the sinks that have
    emitted [finish]. *)
Record world : Type := World {
  at_site : site;
  files : gmap string string;
  finished : gset string;
}.

Definition set_files (f : gmap string string) (w : world) : world :=
  {| at_site := at_site w; files := f; finished := finished w |}.

Definition set_finished (s : gset string) (w : world) : world :=
  {| at_site := at_site w; files := files w; finished := s |}.

(** [createWriteStream]: the file is truncated and has not finished. *)
Definition open_sink (path : string) (w : world) : world :=
  set_finished (finished w ∖ {[path]}) (set_files (<[path := ""]> (files w)) w).

(** The sink received all of [c] and finishes. *)
Definition fill_sink (path c : string) (w : world) : world :=
  set_finished (finished w ∪ {[path]}) (set_files (<[path := c]> (files w)) w).

Definition enoent : Js.exn := Js.LibError "fs" "ENOENT: no such file or directory".
Definition enotfound : Js.exn := Js.LibError "request" "getaddrinfo ENOTFOUND".

(** The bytes [crx.pack] produces, as far as the program decides them: the
    key, the three manifest fields and the icon. *)
Definition archive (crx : Crx.t) (icon : string) : Buffer :=
  let m := Crx.manifest crx in
  "Cr24|" +:+ Crx.privateKey crx +:+ "|" +:+ default "" (Crx.name m) +:+ "|" +:+
  default "" (Crx.app_launch_web_url m) +:+ "|" +:+
  NodeUrl.join_with "," (Crx.app_urls m) +:+ "|" +:+ icon.

(** What a readable stream delivers; [None] when it fails. *)
Definition content (src : rstream) (w : world) : option string :=
  match src with
  | FileSource path => files w !! path
  | HttpSource url => res_body <$> web (at_site w) !! url
  end.

(** The icon of the template in a directory. *)
Definition template_icon (dir : string) (w : world) : string :=
  dir +:+ "/" +:+ Crx.icons_128 (template (at_site w)).

(** The value a run returned, if it did. *)
Definition result_value {A} (o : outcome io Js.exn A) : option A :=
  match o with Finished (Returned a) => Some a | _ => None end.

(** ** The handler *)

(** What a call answers in a world; [None] when no answer comes. *)
Definition answer {X : Type} (ev : io X) (w : world) : option X :=
  match ev in io X return option X with
  | HttpGet req =>
      Some (match web (at_site w) !! req_url req with
            | Some response => inr response
            | None => inl enotfound
            end)
  | CreateCertificate _ _ => Some (inr {| clientKey := pem_key (at_site w) |})
  | CrxLoad privateKey dir =>
      Some (match files w !! template_icon dir w with
            | Some _ => inr {| Crx.privateKey := privateKey;
                               Crx.path := workdir (at_site w);
                               Crx.manifest := template (at_site w) |}
            | None => inl enoent
            end)
  | CrxPack crx =>
      Some (match files w !! iconDestination crx with
            | Some c => inr (archive crx c)
            | None => inl enoent
            end)
  | AccessSync path _ =>
      Some (match files w !! path with Some _ => inr () | None => inl enoent end)
  | CreateWriteStream path => Some (inr (FileSink path))
  | CreateReadStream path => Some (inr (FileSource path))
  | RequestStream url => Some (inr (HttpSource url))
  | Pipe _ _ => Some (inr ())
  | Finish dst => if bool_decide (sink_path dst ∈ finished w) then Some () else None
  end.

(** What a call does to the world. *)
Definition effect {X : Type} (ev : io X) (w : world) : world :=
  match ev with
  | CrxLoad _ dir =>
      match files w !! template_icon dir w with
      | Some c => set_files (<[template_icon (workdir (at_site w)) w := c]> (files w)) w
      | None => w
      end
  | CreateWriteStream path => open_sink path w
  | Pipe src dst =>
      match content src w with
      | Some c => fill_sink (sink_path dst) c w
      | None => w
      end
  | _ => w
  end.

Definition is_finish (X : Type) (ev : io X) : bool :=
  match ev with Finish _ => true | _ => false end.

Definition node : handler io world := λ X ev w,
  match answer ev w with
  | Some x => Some (x, effect ev w)
  | None => None
  end.

(** ** What the route works with *)

(** The file the route works on: the icon of the extension in the
    directory of [crx]. *)
Definition work_icon (w : world) : string := template_icon (workdir (at_site w)) w.

(** The extension [crx.load] answers with in a world. *)
Definition loaded_crx (key : string) (w : world) : Crx.t :=
  {| Crx.privateKey := key; Crx.path := workdir (at_site w);
     Crx.manifest := template (at_site w) |}.

(** What an icon source delivers, in a world where the icon of the
    extension holds [ic0]. *)
Definition icon_content (s : icon_source) (ic0 : string) (w : world) : option string :=
  match s with
  | Override path | Placeholder path => files w !! path
  | Remote u => res_body <$> web (at_site w) !! u
  | Default => Some ic0
  end.

(** The file an icon source reads. *)
Definition reads_from (s : icon_source) : option string :=
  match s with
  | Override path | Placeholder path => Some path
  | _ => None
  end.

(** The extension the route packs for a URL and its hostname: the key of
    the certificate, the working directory, and the manifest of the template
    with the hostname as name, the URL permitted and launched. *)
Definition packed_crx (u h : string) (w : world) : Crx.t :=
  let m := template (at_site w) in
  {| Crx.privateKey := pem_key (at_site w); Crx.path := workdir (at_site w);
     Crx.manifest :=
       {| Crx.name := Some h; Crx.app_urls := Crx.app_urls m ++ [u];
          Crx.app_launch_web_url := Some u; Crx.icons_128 := Crx.icons_128 m |} |}.

(** The response of the route for a hostname and a packed buffer. *)
Definition response (this : Context) (hostname : string) (b : Buffer) : Context :=
  ctx_set_body b
    (ctx_set "content-disposition" ("attachment; filename=" +:+ hostname +:+ ".crx")
       (ctx_set "content-type" "application/x-chrome-extension" this)).

(** ** Running a program in a world *)

Lemma node_Finish dst w :
  node _ (Finish dst) w =
  if bool_decide (sink_path dst ∈ finished w) then Some ((), w) else None.
Proof. unfold node. simpl. by destruct (bool_decide _). Qed.

(** [run_walk] follows the run of a program given by its definition: it
    computes the answers of [node] and splits on what the world holds. *)
Create HintDb world_defs discriminated.
#[export] Hint Unfold iconDestination template_icon configureManifest : world_defs.

Ltac run_walk_step :=
  match goal with
  | |- context [node _ (Finish _) _] => rewrite node_Finish
  | |- context [<[?k := _]> _ !! ?k] => rewrite lookup_insert_eq
  | |- context [<[?k := _]> _ !! ?k'] =>
      rewrite (lookup_insert_ne _ k k') by first [done | by apply not_eq_sym]
  | |- context [bool_decide (?x ∈ _ ∪ {[?x]})] =>
      rewrite (bool_decide_eq_true_2 (x ∈ _ ∪ {[x]})) by set_solver
  | |- context [bool_decide (?x ∈ _ ∖ {[?x]})] =>
      rewrite (bool_decide_eq_false_2 (x ∈ _ ∖ {[x]})) by set_solver
  | H : ?x = Some _ |- context [?x] => rewrite H
  | H : ?x = None |- context [?x] => rewrite H
  | H : ?x = inr _ |- context [?x] => rewrite H
  | |- context [match ?x with inl _ => _ | inr _ => _ end] => destruct_scrut x
  | |- context [match ?x with Some _ => _ | None => _ end] => destruct_scrut x
  | |- context [if ?b then _ else _] => destruct_scrut b
  | |- context [lift ?r] => destruct_scrut r
  end.

Ltac run_walk :=
  repeat autounfold with js_defs world_defs in *; simpl;
  repeat (run_walk_step; simpl; autounfold with world_defs; simpl).

Ltac run_solve :=
  run_walk; intros; simplify_eq; split_and?;
  first [done | by eauto | by rewrite ?lookup_insert_ne by done].

Section node_facts.
Context `{!Url.UrlParse, !Url.UrlResolve, !Dom.HtmlParse,
          !Path.PathJoin, !Path.Dirname}.
Implicit Types (w : world) (this : Context).

(** The run of [copyLocalFile]: the destination is opened and truncated;
    when the source can then be read the destination receives its content
    and the promise resolves; when it cannot, the promise stays pending. *)
Lemma copyLocalFile_run from to w :
  yields node (copyLocalFile from to) w
    (match files (open_sink to w) !! from with
     | Some _ => Finished (Returned true)
     | None => Pending (Finish (FileSink to))
     end)
    (match files (open_sink to w) !! from with
     | Some c => fill_sink to c (open_sink to w)
     | None => open_sink to w
     end).
Proof. unfold yields. run_solve. Qed.

(** C21: the route changes one file only, the icon of the extension in the
    directory [crx] works in: every other file holds after the run what it
    held before, whatever the request and however the run ends. *)
Theorem module_exports_frame this w path :
  path ≠ work_icon w →
  files (run_world (run node (module_exports this) w)) !! path = files w !! path.
Proof. unfold work_icon. intros Hp. run_solve. Qed.

(** The run of [downloadFile], likewise, with the body of the response as
    content. *)
Lemma downloadFile_run u to w :
  yields node (downloadFile u to) w
    (match web (at_site w) !! u with
     | Some _ => Finished (Returned true)
     | None => Pending (Finish (FileSink to))
     end)
    (match web (at_site w) !! u with
     | Some response => fill_sink to (res_body response) (open_sink to w)
     | None => open_sink to w
     end).
Proof. unfold yields. run_walk; by simplify_eq/=. Qed.

Lemma fill_sink_lookup to c w :
  files (fill_sink to c (open_sink to w)) !! to = Some c ∧
  at_site (fill_sink to c (open_sink to w)) = at_site w.
Proof. split; [apply lookup_insert_eq|done]. Qed.

(** A copy whose source exists and is not the destination. *)
Lemma copyLocalFile_copies from to w c :
  from ≠ to → files w !! from = Some c →
  yields node (copyLocalFile from to) w (Finished (Returned true))
    (fill_sink to c (open_sink to w)).
Proof.
  intros Hne Hc. pose proof (copyLocalFile_run from to w) as Hrun.
  simpl in Hrun. by rewrite lookup_insert_ne, Hc in Hrun.
Qed.

Lemma downloadFile_downloads u to w r :
  web (at_site w) !! u = Some r →
  yields node (downloadFile u to) w (Finished (Returned true))
    (fill_sink to (res_body r) (open_sink to w)).
Proof. intros Hu. pose proof (downloadFile_run u to w) as Hrun. by rewrite Hu in Hrun. Qed.

(** What [copyLocalFile] does: when the source exists and is not the
    destination, the promise resolves with [true], the destination holds
    the content of the source and has finished, and no other file
    changes. *)
Lemma copyLocalFile_effect from to w c :
  from ≠ to → files w !! from = Some c →
  ∃ w', yields node (copyLocalFile from to) w (Finished (Returned true)) w' ∧
        files w' = <[to := c]> (files w) ∧ to ∈ finished w' ∧
        at_site w' = at_site w.
Proof.
  intros Hne Hc. eexists. split; [by apply copyLocalFile_copies|].
  simpl. split_and!; [apply insert_insert_eq|set_solver|done].
Qed.

(** What [downloadFile] does: when the address answers, the destination
    holds the body of the response, whatever its status. *)
Lemma downloadFile_effect u to w r :
  web (at_site w) !! u = Some r →
  ∃ w', yields node (downloadFile u to) w (Finished (Returned true)) w' ∧
        files w' = <[to := res_body r]> (files w) ∧ to ∈ finished w'.
Proof.
  intros Hu. eexists. split; [by apply downloadFile_downloads|].
  simpl. split; [apply insert_insert_eq|set_solver].
Qed.

(** A file that is missing once the work file was loaded and opened is
    missing from the start. *)
Lemma lookup_work_None (m : gmap string string) work path ic0 :
  <[work := ""]> (<[work := ic0]> m) !! path = None → m !! path = None.
Proof.
  destruct (decide (work = path)) as [->|]; [by rewrite lookup_insert_eq|].
  by rewrite !lookup_insert_ne.
Qed.

(** A file that exists once the work file was loaded still exists when
    the work file is opened. *)
Lemma lookup_work_Some (m : gmap string string) work path ic0 c :
  <[work := ic0]> m !! path = Some c →
  is_Some (<[work := ""]> (<[work := ic0]> m) !! path).
Proof.
  destruct (decide (work = path)) as [->|]; [by rewrite !lookup_insert_eq|].
  rewrite !lookup_insert_ne by done. eauto.
Qed.

(** No call changes the site. *)
Lemma effect_site {X} (ev : io X) w : at_site (effect ev w) = at_site w.
Proof. destruct ev; simpl; try done; by case_match. Qed.

Lemma run_site {A} (p : js A) w : at_site (run_world (run node p w)) = at_site w.
Proof.
  revert w. induction p as [a|e|X ev k IH]; intros w; simpl; [done..|].
  unfold node. destruct (answer ev w) as [x|]; simpl; [|done].
  by rewrite IH, effect_site.
Qed.

(** C20: when the route does not answer it waits for the [finish] of the copy of
    an icon whose source does not exist, and has left the icon of the
    extension empty. *)
Theorem module_exports_hangs this w :
  let r := run node (module_exports this) w in
  match run_outcome r with
  | Pending ev =>
      is_finish _ ev = true ∧
      files (run_world r) !! work_icon w = Some "" ∧
      ∃ path, reads (run_trace r) = [path] ∧ files w !! path = None
  | Finished _ => True
  end.
Proof.
  unfold work_icon. run_walk; try done; (split_and!; [done..|]);
    eexists; (split; [done|]); by eapply lookup_work_None.
Qed.

(** The route hangs only in the copy of a letter icon that does not
    exist. *)
Lemma module_exports_pending this w :
  match run_outcome (run node (module_exports this) w) with
  | Pending _ =>
      ∃ ch, JsString.is_upper ch = true ∧
            files w !! placeholderPath (String ch "") = None
  | Finished _ => True
  end.
Proof.
  run_walk; try done.
  - match goal with
    | H1 : _ !! ?p = Some _, H2 : _ !! ?p = None |- _ =>
        apply lookup_work_Some in H1 as [? H1]; by rewrite H1 in H2
    end.
  - match goal with
    | Hm : negb (JsString.match_AZ _) = false, H : _ !! _ = None |- _ =>
        apply negb_false_iff in Hm; apply lookup_work_None in H;
        rewrite JsString.substring_0_1 in *
    end.
    destruct s as [|ch rest]; [done|]. exists (JsString.to_upper_char ch).
    split; [|done]. unfold JsString.match_AZ in *. simpl in *.
    by rewrite orb_false_r in *.
Qed.

(** Liveness.  In a world that has the letter icons [A.png] to [Z.png]
    the route settles: it answers or throws, whatever the request. *)
Lemma module_exports_settles this w :
  (∀ ch, JsString.is_upper ch = true →
         is_Some (files w !! placeholderPath (String ch ""))) →
  ∃ r, run_outcome (run node (module_exports this) w) = Finished r.
Proof.
  intros Hletters. pose proof (module_exports_pending this w) as Hp.
  destruct (run_outcome _) as [r|X ev]; [by exists r|].
  destruct Hp as (ch & Hup & Hnone). destruct (Hletters ch Hup) as [c Hc].
  by rewrite Hc in Hnone.
Qed.

End node_facts.

(** ** A world for the examples *)

Module Sample.
Import Fixture.


Definition disk : gmap string string :=
  list_to_map
    [("/srv/app/api/lib/extension/files/icon.png", "DEFAULT");
     ("/srv/app/api/lib/extension/icons/fallback/E.png", "LETTER-E");
     ("/srv/app/api/lib/extension/icons/fallback/G.png", "LETTER-G");
     ("/srv/app/api/lib/extension/icons/fallback/W.png", "LETTER-W");
     ("/srv/app/api/assets/icons/github.com.png", "OCTOCAT")].

Definition net : gmap string Response :=
  list_to_map
    [("http://example.com/", {| res_status := 200; res_body := page_example |})].

Definition w0 : world :=
  {| at_site := {| web := net; pem_key := "KEY";
                   template := Crx.manifest Fixture.crx; workdir := "/tmp/crx" |};
     files := disk; finished := ∅ |}.

(** An address that does not answer and has no per-host icon: the handler
    answers with the archive of the default configuration and the letter
    icon.  The letter is that of the hostname as written, here the [w] of
    [www]. *)
Example run_unreachable :
  let r := run node (module_exports (ctx (Js.Str "https://www.Example.org/app"))) w0 in
  run_outcome r = Finished (Returned
    {| request_body_url := Js.Str "https://www.Example.org/app";
       response_headers :=
         [("content-disposition", "attachment; filename=www.example.org.crx");
          ("content-type", "application/x-chrome-extension")];
       response_body :=
         Some "Cr24|KEY|www.example.org|https://www.Example.org/app|https://www.Example.org/app|LETTER-W" |})
  ∧ files (run_world r) !! "/tmp/crx/icon.png" = Some "LETTER-W".
Proof. by vm_compute. Qed.


(** The per-host icon of github.com is copied for [www.github.com]. *)
Example run_override :
  let r := run node (module_exports (ctx (Js.Str "https://www.github.com/"))) w0 in
  response_body <$> result_value (run_outcome r)
  = Some (Some "Cr24|KEY|www.github.com|https://www.github.com/|https://www.github.com/|OCTOCAT")
  ∧ count is_read (run_trace r) = 1 ∧ count is_download (run_trace r) = 0.
Proof. by vm_compute. Qed.

(** A page that answers: the handler throws the type error, after the
    template was loaded, and the response is not built. *)
Example run_reachable :
  let r := run node (module_exports (ctx (Js.Str "http://example.com/"))) w0 in
  run_outcome r = Finished (Thrown (Js.cannot_read "title" "undefined"))
  ∧ count is_pack (run_trace r) = 0
  ∧ files (run_world r) !! "/tmp/crx/icon.png" = Some "DEFAULT".
Proof. by vm_compute. Qed.

(** A host whose letter icon is missing: the copy has truncated the icon of
    the extension and waits for a [finish] that does not come. *)
Example run_missing_letter :
  let r := run node (module_exports (ctx (Js.Str "http://zombo.com/"))) w0 in
  run_outcome r = Pending (Finish (FileSink "/tmp/crx/icon.png"))
  ∧ files (run_world r) !! "/tmp/crx/icon.png" = Some "".
Proof. by vm_compute. Qed.

Lemma copyLocalFile_effect_witness :
  ∃ w', yields node (copyLocalFile "/srv/app/api/assets/icons/github.com.png"
                                   "/tmp/crx/icon.png") w0
          (Finished (Returned true)) w' ∧
        files w' = <["/tmp/crx/icon.png" := "OCTOCAT"]> (files w0) ∧
        "/tmp/crx/icon.png" ∈ finished w' ∧ at_site w' = at_site w0.
Proof. by apply copyLocalFile_effect. Defined.

Lemma downloadFile_effect_witness :
  ∃ w', yields node (downloadFile "http://example.com/" "/tmp/crx/icon.png") w0
          (Finished (Returned true)) w' ∧
        files w' = <["/tmp/crx/icon.png" := page_example]> (files w0) ∧
        "/tmp/crx/icon.png" ∈ finished w'.
Proof.
  by apply (downloadFile_effect _ _ w0 {| res_status := 200; res_body := page_example |}).
Defined.

(** The per-host icon is still on the disk after the route ran. *)
Lemma module_exports_frame_witness :
  files (run_world (run node (module_exports (ctx (Js.Str "https://www.github.com/"))) w0))
    !! "/srv/app/api/assets/icons/github.com.png"
  = files w0 !! "/srv/app/api/assets/icons/github.com.png".
Proof. by apply module_exports_frame. Defined.

(** A disk with the twenty-six letter icons. *)
Definition letters : list ascii := String.list_ascii_of_string "ABCDEFGHIJKLMNOPQRSTUVWXYZ".

Definition disk26 : gmap string string :=
  foldr (λ ch m, <[placeholderPath (String ch "") := "LETTER-" +:+ String ch ""]> m)
        disk letters.

(** The world of the examples with that disk. *)
Definition w26 : world := set_files disk26 w0.

Lemma w26_letters ch :
  JsString.is_upper ch = true →
  is_Some (files w26 !! placeholderPath (String ch "")).
Proof.
  destruct ch as [[] [] [] [] [] [] [] []]; vm_compute; first [by intros [=] | by eauto].
Qed.

(** With the letter icons the route settles for a site whose letter had
    no icon. *)
Example module_exports_settles_sample :
  ∃ r, run_outcome (run node (module_exports (ctx (Js.Str "http://zombo.com/"))) w26)
       = Finished r.
Proof. apply module_exports_settles, w26_letters. Qed.

End Sample.

