(* ===== verification/Route.v ===== *)
(** * Route: the route as a function of the world

    [route_spec] says how a request ends and [route_world] what it leaves,
    as a decision on what the world holds: the validation, the hostname,
    the page, the template, the cascade of the icon and what its source
    delivers.  Neither runs the program.  [route_run] proves that the run
    of [module_exports] over [node] ends so and leaves that world, by the
    runs of the steps ([generateCrx_run], [cascade_run], [fetch_icon_run]);
    [module_exports_refines] is that statement, and
    [module_exports_archive] reads from it the archive that a request is
    answered with. *)

From stdpp Require Import gmap.
From S2P Require Import Prelude JsString JsValue Prog Url Dom Path Generate Trace Fixture Validate Config Icon Handler World.

Section route.
Context `{!Url.UrlParse, !Url.UrlResolve, !Dom.HtmlParse,
          !Path.PathJoin, !Path.Dirname}.
Implicit Types (w : world) (this : Context).

(** ** The route as a function of the world

    What the route answers and what it leaves, as a decision on what the
    world holds: the specification that the program refines. *)

(** What a source delivers into the destination: a file is read after the
    destination was opened, and truncated. *)
Definition delivered (s : icon_source) (ic0 : string) (w : world) (dest : string)
    : option string :=
  match s with
  | Override path | Placeholder path => files (open_sink dest w) !! path
  | Remote u => res_body <$> web (at_site w) !! u
  | Default => Some ic0
  end.

(** The world after the fetch of a source: the destination was opened,
    which truncates it, and filled when the source delivered. *)
Definition written (s : icon_source) (w : world) (dest : string) : world :=
  match s with
  | Default => w
  | _ =>
      match delivered s "" w dest with
      | Some ic => fill_sink dest ic (open_sink dest w)
      | None => open_sink dest w
      end
  end.

(** The world after [crx.load]: the icon of the template is in the
    directory [crx] works in, when the template has one. *)
Definition after_load (w : world) : world :=
  match files w !! template_icon filesDirectory w with
  | Some ic0 => set_files (<[work_icon w := ic0]> (files w)) w
  | None => w
  end.

(** [generateCrx] on a configuration: the template is loaded, the cascade
    decides on the world after the load, the source delivers, and the
    extension is packed with what it delivered. *)
Definition generateCrx_spec (c : CrxConfig) (w : world)
    : outcome io Js.exn (Buffer * CrxConfig) :=
  match files w !! template_icon filesDirectory w with
  | None => Finished (Thrown enoent)
  | Some ic0 =>
      let w1 := set_files (<[work_icon w := ic0]> (files w)) w in
      let found := bool_decide (is_Some (files w1 !! overrideIconPath c)) in
      match icon_choice found c with
      | inl e => Finished (Thrown e)
      | inr s =>
          match delivered s ic0 w1 (work_icon w) with
          | Some ic =>
              Finished (Returned
                (archive (configureManifest c (loaded_crx (pem_key (at_site w)) w)) ic,
                 if found then set_iconOverriden true c else c))
          | None => Pending (Finish (FileSink (work_icon w)))
          end
      end
  end.

(** The world it leaves: the working copy of the template's icon, written
    over by the source that the cascade chose. *)
Definition generateCrx_world (c : CrxConfig) (w : world) : world :=
  match files w !! template_icon filesDirectory w with
  | None => w
  | Some ic0 =>
      let w1 := set_files (<[work_icon w := ic0]> (files w)) w in
      let found := bool_decide (is_Some (files w1 !! overrideIconPath c)) in
      match icon_choice found c with
      | inl _ => w1
      | inr s => written s w1 (work_icon w)
      end
  end.

(** The route: the validation, the hostname, the page, then the
    extension.  A page that answers leaves no configuration, and the route
    fails once the template is loaded. *)
Definition route_spec (this : Context) (w : world) : outcome io Js.exn Context :=
  match parseUrl (request_body_url this) with
  | inl e => Finished (Thrown e)
  | inr p =>
      match Url.hostname p with
      | None => Finished (Thrown (Js.cannot_read "toLowerCase" "null"))
      | Some h =>
          let u := Js.as_string (request_body_url this) in
          match web (at_site w) !! u with
          | Some _ =>
              match files w !! template_icon filesDirectory w with
              | None => Finished (Thrown enoent)
              | Some _ => Finished (Thrown (Js.cannot_read "title" "undefined"))
              end
          | None =>
              match generateCrx_spec (defaultConfig u p h) w with
              | Finished (Returned (b, _)) => Finished (Returned (response this h b))
              | Finished (Thrown e) => Finished (Thrown e)
              | Pending ev => Pending ev
              end
          end
      end
  end.

Definition route_world (this : Context) (w : world) : world :=
  match parseUrl (request_body_url this) with
  | inl _ => w
  | inr p =>
      match Url.hostname p with
      | None => w
      | Some h =>
          let u := Js.as_string (request_body_url this) in
          match web (at_site w) !! u with
          | Some _ => after_load w
          | None => generateCrx_world (defaultConfig u p h) w
          end
      end
  end.

(** ** The route, step by step *)

(** [buildCrxConfig] on a URL that is valid and has a hostname: the
    default configuration when the page does not answer, nothing when it
    does; no file changes. *)
Lemma buildCrxConfig_yields u p h w :
  parseUrl (Js.Str u) = inr p → Url.hostname p = Some h →
  yields node (buildCrxConfig (Js.Str u)) w
    (Finished (Returned (match web (at_site w) !! u with
                         | Some _ => None
                         | None => Some (defaultConfig u p h)
                         end))) w.
Proof.
  intros Hp Hh. unfold yields, buildCrxConfig, buildCrxConfig_run.
  rewrite Hp. simpl. rewrite Hh. simpl. by destruct (web (at_site w) !! u).
Qed.

Lemma certificate_yields days selfSigned w :
  yields node (call (CreateCertificate days selfSigned)) w
    (Finished (Returned {| clientKey := pem_key (at_site w) |})) w.
Proof. done. Qed.

Lemma load_yields key dir w ic0 :
  files w !! template_icon dir w = Some ic0 →
  yields node (call (CrxLoad key dir)) w (Finished (Returned (loaded_crx key w)))
    (set_files (<[work_icon w := ic0]> (files w)) w).
Proof. intros Ht. unfold yields. simpl. by rewrite Ht. Qed.

Lemma access_yields path w :
  yields node (try_catch (_ ← call (AccessSync path F_OK); Ret true) (λ _, Ret false)) w
    (Finished (Returned (bool_decide (is_Some (files w !! path))))) w.
Proof. unfold yields. simpl. by destruct (files w !! path). Qed.

Lemma pack_yields crx w ic :
  files w !! iconDestination crx = Some ic →
  yields node (call (CrxPack crx)) w (Finished (Returned (archive crx ic))) w.
Proof. intros Hi. unfold yields. simpl. by rewrite Hi. Qed.

Lemma configureManifest_default u p h w :
  Url.hostname p = Some h →
  configureManifest (defaultConfig u p h) (loaded_crx (pem_key (at_site w)) w)
  = packed_crx u h w.
Proof. intros Hh. unfold configureManifest, packed_crx. simpl. by rewrite Hh. Qed.

(** ** The refinement *)

Lemma load_fails key dir w :
  files w !! template_icon dir w = None →
  yields node (call (CrxLoad key dir)) w (Finished (Thrown enoent)) w.
Proof. intros Ht. unfold yields. simpl. by rewrite Ht. Qed.

(** A copy as a step of the cascade: its value is dropped. *)
Lemma copy_step_run {B} (p : js bool) dest w (o : option B) (f : B → string) :
  let w' := match o with
            | Some b => fill_sink dest (f b) (open_sink dest w)
            | None => open_sink dest w
            end in
  yields node p w
    (match o with
     | Some _ => Finished (Returned true)
     | None => Pending (Finish (FileSink dest))
     end) w' →
  yields node (_ ← p; Ret ()) w
    (match o with
     | Some _ => Finished (Returned ())
     | None => Pending (Finish (FileSink dest))
     end) w'.
Proof.
  intros w' Hrun. destruct o as [b|].
  - eapply yields_bind; [apply Hrun|apply yields_ret].
  - apply yields_bind_pending, Hrun.
Qed.

(** The fetch of a source, in every world: it delivers, or the wait for
    [finish] does not end. *)
Lemma fetch_icon_run s dest w ic0 :
  yields node (fetch_icon s dest) w
    (match delivered s ic0 w dest with
     | Some _ => Finished (Returned ())
     | None => Pending (Finish (FileSink dest))
     end)
    (written s w dest).
Proof.
  destruct s as [path|u|path|]; [..|apply yields_ret].
  - apply (copy_step_run _ dest w _ id), copyLocalFile_run.
  - pose proof (copy_step_run _ dest w _ res_body (downloadFile_run u dest w)) as Hy.
    unfold written, delivered. by destruct (web (at_site w) !! u).
  - apply (copy_step_run _ dest w _ id), copyLocalFile_run.
Qed.

(** What was delivered is what the destination holds. *)
Lemma written_delivered s ic0 w dest ic :
  files w !! dest = Some ic0 → delivered s ic0 w dest = Some ic →
  files (written s w dest) !! dest = Some ic.
Proof.
  intros Hd. unfold written.
  destruct s as [path|u|path|]; simpl; [..|congruence];
    intros ->; apply lookup_insert_eq.
Qed.

(** The cascade, in every world. *)
Lemma cascade_run c crx w ic0 :
  let found := bool_decide (is_Some (files w !! overrideIconPath c)) in
  yields node (cascade c crx) w
    (match icon_choice found c with
     | inl e => Finished (Thrown e)
     | inr s =>
         match delivered s ic0 w (iconDestination crx) with
         | Some _ => Finished (Returned (if found then set_iconOverriden true c else c))
         | None => Pending (Finish (FileSink (iconDestination crx)))
         end
     end)
    (match icon_choice found c with
     | inl _ => w
     | inr s => written s w (iconDestination crx)
     end).
Proof.
  intros found. unfold cascade.
  eapply yields_bind; [apply access_yields|]. fold found.
  destruct (icon_choice found c) as [e|s]; [apply yields_throw|]. simpl.
  pose proof (fetch_icon_run s (iconDestination crx) w ic0) as Hy.
  destruct (delivered s ic0 w _).
  - eapply yields_bind; [apply Hy|apply yields_ret].
  - apply yields_bind_pending, Hy.
Qed.

(** [generateCrx] refines its specification. *)
Lemma generateCrx_run c w :
  yields node (generateCrx (Some c)) w (generateCrx_spec c w) (generateCrx_world c w).
Proof.
  unfold generateCrx_spec, generateCrx_world. rewrite generateCrx_tree.
  eapply yields_bind; [apply certificate_yields|].
  destruct (files w !! template_icon filesDirectory w) as [ic0|] eqn:Ht; cbv zeta;
    [|by apply yields_bind_thrown, load_fails].
  eapply yields_bind; [by apply load_yields|]. rewrite resolveIcon_cascade.
  pose proof (cascade_run c (configureManifest c (loaded_crx (pem_key (at_site w)) w))
                (set_files (<[work_icon w := ic0]> (files w)) w) ic0) as Hy.
  change (iconDestination _) with (work_icon w) in Hy. cbv zeta in Hy.
  destruct (icon_choice _ c) as [e|s]; [by apply yields_bind_thrown|].
  destruct (delivered s ic0 _ _) as [ic|] eqn:Hs; [|by apply yields_bind_pending].
  eapply yields_bind; [apply Hy|].
  eapply yields_bind; [|apply yields_ret].
  apply pack_yields, (written_delivered s ic0); [apply lookup_insert_eq|done].
Qed.

Lemma generateCrx_spec_filename c w b c' :
  generateCrx_spec c w = Finished (Returned (b, c')) → filename c' = filename c.
Proof.
  unfold generateCrx_spec. repeat case_match; intros; simplify_eq; done.
Qed.

(** Without a configuration [generateCrx] throws, after the load. *)
Lemma generateCrx_none_run w :
  yields node (generateCrx None) w
    (Finished (Thrown (match files w !! template_icon filesDirectory w with
                       | Some _ => Js.cannot_read "title" "undefined"
                       | None => enoent
                       end)))
    (after_load w).
Proof.
  unfold yields, after_load. simpl. unfold work_icon, template_icon. simpl.
  by destruct (files w !! _).
Qed.

(** The run of the route in a world, by cases on the validation, the
    hostname, the page and the specification of [generateCrx]. *)
Lemma route_run this w :
  yields node (module_exports this) w (route_spec this w) (route_world this w).
Proof.
  unfold route_spec, route_world, module_exports.
  destruct (parseUrl (request_body_url this)) as [e|p] eqn:Hp;
    [by unfold yields, buildCrxConfig, buildCrxConfig_run; rewrite Hp|].
  destruct (Url.hostname p) as [h|] eqn:Hh;
    [|by unfold yields, buildCrxConfig, buildCrxConfig_run; rewrite Hp; simpl; rewrite Hh].
  destruct (parseUrl_is_string _ _ Hp) as [u Hu]. rewrite Hu in *. simpl.
  eapply yields_bind; [by apply (buildCrxConfig_yields u p h)|].
  destruct (web (at_site w) !! u) as [r|].
  - pose proof (generateCrx_none_run w) as Hg.
    destruct (files w !! _); by apply yields_bind_thrown.
  - pose proof (generateCrx_run (defaultConfig u p h) w) as Hg.
    pose proof (generateCrx_spec_filename (defaultConfig u p h) w) as Hn.
    destruct (generateCrx_spec _ w) as [[[b c']|e]|X ev].
    + eapply yields_bind; [apply Hg|].
      unfold sendCrx, response. simpl. rewrite (Hn b c' eq_refl). simpl.
      rewrite Hh. apply yields_ret.
    + by apply yields_bind_thrown.
    + by apply yields_bind_pending.
Qed.

Lemma route_outcome this w :
  run_outcome (run node (module_exports this) w) = route_spec this w.
Proof. apply route_run. Qed.

(** C6: the route refines its specification.  In every world and for
    every request, the run of the route ends as [route_spec] says and
    leaves the world that [route_world] says: with the
    error of the validation, of the missing hostname, of the missing
    template or of the missing configuration when the page answered; with
    the response that carries the extension packed with the icon that the
    cascade chose; or waiting for the [finish] of an icon that no source
    delivers. *)
Theorem module_exports_refines this w :
  run_outcome (run node (module_exports this) w) = route_spec this w ∧
  run_world (run node (module_exports this) w) = route_world this w.
Proof. apply route_run. Qed.

(** Loading the template does not change what a source delivers, when
    the source is not the file the route works on. *)
Lemma delivered_content s ic0 w :
  (∀ path, reads_from s = Some path → path ≠ work_icon w) →
  delivered s ic0 (set_files (<[work_icon w := ic0]> (files w)) w) (work_icon w)
  = icon_content s ic0 w.
Proof.
  intros Hr. destruct s as [path|u|path|]; simpl; try done;
    by rewrite !lookup_insert_ne by (apply not_eq_sym; auto).
Qed.

(** C9: end to end.  For a valid URL whose page does not answer, in a world
    that has the template and the icon that the cascade of the design
    chooses, the route answers with the archive of the extension named
    after the hostname, launching the URL, with that icon, under the file
    name of the hostname.  The icons read are not the file the route works
    on. *)
Theorem module_exports_archive this w u p h ic0 s ic :
  let c := defaultConfig u p h in
  request_body_url this = Js.Str u →
  parseUrl (Js.Str u) = inr p → Url.hostname p = Some h →
  web (at_site w) !! u = None →
  files w !! template_icon filesDirectory w = Some ic0 →
  overrideIconPath c ≠ work_icon w →
  icon_choice (bool_decide (is_Some (files w !! overrideIconPath c))) c = inr s →
  (∀ path, reads_from s = Some path → path ≠ work_icon w) →
  icon_content s ic0 w = Some ic →
  run_outcome (run node (module_exports this) w)
  = Finished (Returned (response this h (archive (packed_crx u h w) ic))).
Proof.
  intros c Hu Hp Hh Hweb Ht Ho Hs Hr Hc.
  rewrite route_outcome. unfold route_spec, generateCrx_spec.
  rewrite Hu, Hp, Hh. simpl. rewrite Hweb, Ht. cbv zeta.
  rewrite lookup_insert_ne by done. fold c. rewrite Hs.
  rewrite (delivered_content s ic0 w Hr), Hc.
  unfold c. by rewrite (configureManifest_default u p h w Hh).
Qed.


End route.

(** ** In the world of the examples *)

Import Fixture Sample.

(** The specification evaluates: the request for the site that has an
    icon of its own is answered, and the working copy of the icon is that
    icon; the request for a site without one, whose letter has no icon
    either, waits, and the working copy is empty. *)
Example route_spec_sample :
  result_value (route_spec (ctx (Js.Str "https://www.github.com/")) w0)
  = Some (response (ctx (Js.Str "https://www.github.com/")) "www.github.com"
      "Cr24|KEY|www.github.com|https://www.github.com/|https://www.github.com/|OCTOCAT")
  ∧ files (route_world (ctx (Js.Str "https://www.github.com/")) w0) !! "/tmp/crx/icon.png"
    = Some "OCTOCAT"
  ∧ route_spec (ctx (Js.Str "http://zombo.com/")) w0
    = Pending (Finish (FileSink "/tmp/crx/icon.png"))
  ∧ files (route_world (ctx (Js.Str "http://zombo.com/")) w0) !! "/tmp/crx/icon.png"
    = Some "".
Proof. by vm_compute. Qed.

Lemma module_exports_archive_witness :
  run_outcome (run node (module_exports (ctx (Js.Str "https://www.github.com/"))) w0)
  = Finished (Returned (response (ctx (Js.Str "https://www.github.com/")) "www.github.com"
      "Cr24|KEY|www.github.com|https://www.github.com/|https://www.github.com/|OCTOCAT")).
Proof.
  apply (module_exports_archive _ w0 "https://www.github.com/"
           (NodeUrl.parse "https://www.github.com/") "www.github.com" "DEFAULT"
           (Override "/srv/app/api/assets/icons/github.com.png") "OCTOCAT");
    try by vm_compute.
  intros path [= <-]. by vm_compute.
Defined.

