(* ===== verification/Threads.v ===== *)
(** * Threads: several programs in flight over one world

    A server runs a generator up to its next [yield] and then turns to
    another request: the requests in flight are programs that take their
    steps, one call at a time, in any order, over the world they share.
    This file has the step of one program ([next]), the programs that run
    alone ([solo]) and in a pool ([pool_step], with the scheduler [pool_run]
    that computes an interleaving), the calls a program keeps to ([obeys],
    [obeys_to] with the laws that compose them along a program),
    and the theorem of isolation: when each thread keeps to calls that the
    other threads do not disturb, what a thread does in the pool is what it
    does alone. *)

From stdpp Require Import relations.
From S2P Require Import Prelude Prog.

(** ** The calls a program keeps to

    [obeys_to h G Q p]: every call that [p] makes, when its calls are
    answered by [h], is of the class [G], and the value [p] returns
    satisfies [Q].  [obeys h G p] leaves the value out. *)
Section obeys.
Context {E : Type → Type} {Err W : Type}.
Context (h : handler E W) (G : ∀ X, E X → Prop).

Fixpoint obeys_to {A} (Q : A → Prop) (p : prog E Err A) : Prop :=
  match p with
  | Ret a => Q a
  | Throw _ => True
  | Vis ev k => G _ ev ∧ ∀ w x w', h _ ev w = Some (x, w') → obeys_to Q (k x)
  end.

Definition obeys {A} (p : prog E Err A) : Prop := obeys_to (λ _, True) p.

Lemma obeys_to_mono {A} (Q R : A → Prop) (p : prog E Err A) :
  (∀ a, Q a → R a) → obeys_to Q p → obeys_to R p.
Proof.
  intros HQ. induction p as [a|e|X ev k IH]; simpl; [by auto|done|].
  intros [HG Hk]. split; [done|]. eauto.
Qed.

Lemma obeys_to_bind {A B} (Q : A → Prop) (R : B → Prop) (p : prog E Err A)
    (k : A → prog E Err B) :
  obeys_to Q p → (∀ a, Q a → obeys_to R (k a)) → obeys_to R (p ≫= k).
Proof.
  intros Hp Hk. induction p as [a|e|X ev c IH]; simpl in *; [by auto|done|].
  destruct Hp as [HG Hc]. split; [done|]. intros w x w' Hh. apply IH. eauto.
Qed.

Lemma obeys_to_try_catch {A} (Q : A → Prop) (p : prog E Err A) (c : Err → prog E Err A) :
  obeys_to Q p → (∀ e, obeys_to Q (c e)) → obeys_to Q (try_catch p c).
Proof.
  intros Hp Hc. induction p as [a|e|X ev k IH]; simpl in *; [done|apply Hc|].
  destruct Hp as [HG Hk]. split; [done|]. intros w x w' Hh. apply IH. eauto.
Qed.

Lemma obeys_to_call {X} (Q : X → Prop) (ev : E (Err + X)) :
  G _ ev → (∀ w x w', h _ ev w = Some (inr x, w') → Q x) → obeys_to Q (call ev).
Proof. intros HG HQ. split; [done|]. intros w [e|x] w' Hh; simpl; eauto. Qed.

Lemma obeys_to_trigger {X} (Q : X → Prop) (ev : E X) :
  G _ ev → (∀ w x w', h _ ev w = Some (x, w') → Q x) → obeys_to Q (trigger ev).
Proof. intros HG HQ. split; [done|]. intros w x w' Hh; simpl; eauto. Qed.

Lemma obeys_to_lift {A} (Q : A → Prop) (r : Err + A) :
  (∀ a, r = inr a → Q a) → obeys_to Q (lift r).
Proof. intros HQ. destruct r as [e|a]; simpl; auto. Qed.

(** What holds of the value on every path, holds of it when the calls are
    answered by [h]. *)
Lemma obeys_to_wp {A} (Q : A → Prop) (p : prog E Err A) :
  obeys p → wp p (λ _ r, ∀ a, r = Returned a → Q a) → obeys_to Q p.
Proof.
  unfold obeys. induction p as [a|e|X ev k IH]; simpl; [by auto|done|].
  intros [HG Hk] Hwp. split; [done|]. intros w x w' Hh. apply IH; [by eauto|].
  eapply wp_mono; [|apply Hwp]. done.
Qed.

End obeys.

Section threads.
Context {E : Type → Type} {Err W A : Type}.
#[local] Abbreviation prog := (prog E Err A).
Implicit Types (h : handler E W) (w : W) (p : prog).

(** ** One program *)

(** The step of a program: its first call is answered. *)
Definition next h p w : option (W * prog) :=
  match p with
  | Vis ev k =>
      match h _ ev w with
      | Some (x, w') => Some (w', k x)
      | None => None
      end
  | _ => None
  end.

(** A program that runs alone. *)
Inductive solo h : W * prog → W * prog → Prop :=
| solo_next w p w' p' : next h p w = Some (w', p') → solo h (w, p) (w', p').

(** ** A pool of threads

    A thread is a program with what is its own in the world ([L]: for a
    request, the directory it works in); [hl l] answers the calls of a
    thread whose own part is [l]. *)
Context {L : Type} (hl : L → handler E W).

Inductive pool_step : W * list (L * prog) → W * list (L * prog) → Prop :=
| pool_step_at i l p w ts w' p' :
    ts !! i = Some (l, p) → next (hl l) p w = Some (w', p') →
    pool_step (w, ts) (w', <[i := (l, p')]> ts).

(** The scheduler: thread [i] takes a step when it can. *)
Definition schedule_step (c : W * list (L * prog)) (i : nat) : W * list (L * prog) :=
  match c.2 !! i with
  | Some (l, p) =>
      match next (hl l) p c.1 with
      | Some (w', p') => (w', <[i := (l, p')]> c.2)
      | None => c
      end
  | None => c
  end.

Definition pool_run (schedule : list nat) (c : W * list (L * prog)) : W * list (L * prog) :=
  foldl schedule_step c schedule.

(** The program of thread [i], when it has come to its end. *)
Definition thread_result (ts : list (L * prog)) (i : nat) : option (result Err A) :=
  match snd <$> ts !! i with
  | Some (Ret a) => Some (Returned a)
  | Some (Throw e) => Some (Thrown e)
  | _ => None
  end.

(** Where thread [i] has settled: the outcome of its program when it can
    take no step in the world of the pool, because it has come to its end
    or because it waits for an answer that the world does not give; [None]
    while it can take a step. *)
Definition thread_outcome (c : W * list (L * prog)) (i : nat) : option (outcome E Err A) :=
  match c.2 !! i with
  | Some (l, p) =>
      match next (hl l) p c.1 with
      | Some _ => None
      | None => Some (run_outcome (run (hl l) p c.1))
      end
  | None => None
  end.

(** The turns of thread [i] in a schedule. *)
Definition turns (i : nat) (schedule : list nat) : nat :=
  count_if (λ j, bool_decide (j = i)) schedule.

(** ** Lemmas *)

Lemma next_inv h p w w' p' :
  next h p w = Some (w', p') →
  ∃ X (ev : E X) k x, p = Vis ev k ∧ h X ev w = Some (x, w') ∧ p' = k x.
Proof.
  destruct p as [a|e|X ev k]; simpl; [done..|].
  destruct (h X ev w) as [[x w'']|] eqn:Hh; [|done]. intros [= <- <-]. eauto 8.
Qed.

(** A step does not change what the run gives. *)
Lemma run_next h p w w' p' :
  next h p w = Some (w', p') →
  run_outcome (run h p w) = run_outcome (run h p' w') ∧
  run_world (run h p w) = run_world (run h p' w').
Proof.
  destruct p as [a|e|X ev k]; simpl; [done..|].
  destruct (h X ev w) as [[x w'']|]; [|done]. by intros [= <- <-].
Qed.

Lemma run_solo h w p w' p' :
  rtc (solo h) (w, p) (w', p') →
  run_outcome (run h p w) = run_outcome (run h p' w') ∧
  run_world (run h p w) = run_world (run h p' w').
Proof.
  change (rtc (solo h) (w, p) (w', p') →
    run_outcome (run h (w, p).2 (w, p).1) = run_outcome (run h (w', p').2 (w', p').1) ∧
    run_world (run h (w, p).2 (w, p).1) = run_world (run h (w', p').2 (w', p').1)).
  generalize (w, p) (w', p'). clear. intros c c'.
  induction 1 as [c|c1 c2 c3 [w1 p1 w2 p2 Hn] _ IH]; [done|].
  simpl in *. by destruct (run_next _ _ _ _ _ Hn) as [-> ->].
Qed.

(** A program that came to its end alone: that is the outcome of its
    run. *)
Lemma run_solo_finished h w p w' r :
  rtc (solo h) (w, p) (w', of_result r) →
  run_outcome (run h p w) = Finished r ∧ run_world (run h p w) = w'.
Proof. intros [-> ->]%run_solo. by destruct r. Qed.

(** A thread that has settled with a result has come to its end. *)
Lemma thread_outcome_finished c i r :
  thread_outcome c i = Some (Finished r) → thread_result c.2 i = Some r.
Proof.
  unfold thread_outcome, thread_result.
  destruct (c.2 !! i) as [[l [a|e|X ev k]]|]; simpl; [| | |done].
  - by intros [= <-].
  - by intros [= <-].
  - by destruct (hl l X ev c.1) as [[x w']|].
Qed.

Lemma obeys_next h G p w w' p' :
  obeys h G p → next h p w = Some (w', p') → obeys h G p'.
Proof.
  intros Ho (X & ev & k & x & -> & Hh & ->)%next_inv. destruct Ho as [_ Ho].
  by eapply Ho.
Qed.

Lemma schedule_step_reachable c i : rtc pool_step c (schedule_step c i).
Proof.
  destruct c as [w ts]. unfold schedule_step. simpl.
  destruct (ts !! i) as [[l p]|] eqn:Hi; [|done].
  destruct (next (hl l) p w) as [[w' p']|] eqn:Hn; [|done].
  apply rtc_once. by econstructor.
Qed.

(** What the scheduler computes is an interleaving of the pool. *)
Lemma pool_run_reachable schedule c : rtc pool_step c (pool_run schedule c).
Proof.
  revert c. induction schedule as [|i schedule IH]; intros c; [done|].
  etrans; [apply (schedule_step_reachable c i)|apply IH].
Qed.

Lemma pool_run_steps schedule c :
  rtc pool_step c ((pool_run schedule c).1, (pool_run schedule c).2).
Proof. rewrite <-surjective_pairing. apply pool_run_reachable. Qed.

(** ** Termination

    A program is a finite tree, and a step of a thread takes it to a
    subtree: a bound on the calls of each thread ([budgets]) loses one unit
    at each step of the pool, so no interleaving is longer than the sum of
    the bounds. *)
Definition budgets (bs : list nat) (ts : list (L * prog)) : Prop :=
  Forall2 (λ n t, at_most any_call n t.2) bs ts.

(** The turns of a schedule at which the thread took a step. *)
Fixpoint steps_taken (schedule : list nat) (c : W * list (L * prog)) : nat :=
  match schedule with
  | [] => 0
  | i :: schedule =>
      match c.2 !! i with
      | Some (l, p) => match next (hl l) p c.1 with Some _ => 1 | None => 0 end
      | None => 0
      end + steps_taken schedule (schedule_step c i)
  end.

Lemma at_most_next h n p w w' p' :
  at_most any_call n p → next h p w = Some (w', p') →
  ∃ m, n = S m ∧ at_most any_call m p'.
Proof.
  intros Hn (X & ev & k & x & -> & _ & ->)%next_inv.
  apply at_most_vis_inv in Hn as [Hle Hk]. simpl in *.
  exists (n - 1). split; [lia|apply Hk].
Qed.

Lemma budgets_step bs c c' :
  budgets bs c.2 → pool_step c c' →
  ∃ bs', budgets bs' c'.2 ∧ sum_list bs = S (sum_list bs').
Proof.
  intros Hb. destruct 1 as [i l p w ts w' p' Hi Hn]. simpl in *.
  destruct (Forall2_lookup_r _ _ _ _ _ Hb Hi) as (n & Hbi & Hp).
  destruct (at_most_next _ _ _ _ _ _ Hp Hn) as (m & -> & Hm).
  exists (<[i := m]> bs). split; [by apply Forall2_insert|].
  by apply sum_list_insert_pred.
Qed.

(** After [k] steps the threads have [k] calls less to make. *)
Lemma budgets_steps bs k c c' :
  budgets bs c.2 → nsteps pool_step k c c' →
  ∃ bs', budgets bs' c'.2 ∧ sum_list bs = k + sum_list bs'.
Proof.
  intros Hb Hs. revert bs Hb.
  induction Hs as [c|k c1 c2 c3 Hstep _ IH]; intros bs Hb; [by exists bs|].
  destruct (budgets_step _ _ _ Hb Hstep) as (bs1 & Hb1 & Hsum).
  destruct (IH _ Hb1) as (bs' & Hb' & Hsum'). exists bs'. split; [done|lia].
Qed.

(** An interleaving is no longer than the calls its threads can make. *)
Lemma pool_steps_bounded n k c c' :
  Forall (λ t, at_most any_call n t.2) c.2 → nsteps pool_step k c c' →
  k ≤ length c.2 * n.
Proof.
  intros Hn Hs.
  destruct (budgets_steps (replicate (length c.2) n) k c c') as (bs' & _ & Hsum);
    [by apply Forall2_replicate_l|done|].
  rewrite sum_list_replicate in Hsum. lia.
Qed.

(** What the scheduler computes, with the number of its steps. *)
Lemma pool_run_nsteps schedule c :
  nsteps pool_step (steps_taken schedule c) c (pool_run schedule c).
Proof.
  revert c. induction schedule as [|i schedule IH]; intros [w ts]; [constructor|].
  specialize (IH (schedule_step (w, ts) i)). revert IH.
  unfold pool_run. simpl. unfold schedule_step. simpl.
  destruct (ts !! i) as [[l p]|] eqn:Hi; [|done].
  destruct (next (hl l) p w) as [[w' p']|] eqn:Hn; [|done].
  intros IH. eapply nsteps_l; [|done]. by econstructor.
Qed.

(** ** Isolation

    Each thread keeps to the calls of its class [G l].  [agree l] relates
    the worlds that look the same to a thread whose own part is [l]: its
    calls are answered alike in worlds that agree, and the calls of an
    independent thread lead to a world that agrees. *)
Section isolation.
Context (G : L → ∀ X, E X → Prop) (agree : L → relation W) (indep : relation L).
Context `{!∀ l, Equivalence (agree l)}.
Hypothesis local : ∀ l X (ev : E X) w1 w2 x w1',
  G l X ev → agree l w1 w2 → hl l X ev w1 = Some (x, w1') →
  ∃ w2', hl l X ev w2 = Some (x, w2') ∧ agree l w1' w2'.
Hypothesis frame : ∀ l l' X (ev : E X) w x w',
  indep l l' → G l' X ev → hl l' X ev w = Some (x, w') → agree l w w'.

(** The threads keep to their classes and are independent of each other. *)
Definition pool_ok (ts : list (L * prog)) : Prop :=
  (∀ i l p, ts !! i = Some (l, p) → obeys (hl l) (G l) p) ∧
  (∀ i j l l' p p', i ≠ j → ts !! i = Some (l, p) → ts !! j = Some (l', p') → indep l l').

(** Thread [i] of the pool is where it would be after steps of its own,
    alone from the world [w0], in a world that agrees with the pool's. *)
Definition alone_from (w0 : W) (ts0 : list (L * prog)) (c : W * list (L * prog)) : Prop :=
  ∀ i l p, c.2 !! i = Some (l, p) →
    ∃ p0 w', ts0 !! i = Some (l, p0) ∧ rtc (solo (hl l)) (w0, p0) (w', p) ∧
             agree l c.1 w'.

Lemma lookup_thread_insert (ts : list (L * prog)) i j t t' :
  <[j := t']> ts !! i = Some t →
  (i = j ∧ t = t' ∧ is_Some (ts !! j)) ∨ (i ≠ j ∧ ts !! i = Some t).
Proof.
  destruct (decide (i = j)) as [->|Hne].
  - intros Hi. left. pose proof (lookup_lt_Some _ _ _ Hi) as Hlt.
    rewrite length_insert in Hlt. rewrite list_lookup_insert_eq in Hi by done.
    split_and!; [done|congruence|by apply lookup_lt_is_Some].
  - rewrite list_lookup_insert_ne by done. auto.
Qed.

Lemma pool_ok_step w ts w' ts' :
  pool_step (w, ts) (w', ts') → pool_ok ts → pool_ok ts'.
Proof.
  inversion 1 as [j lj pj ? ? ? pj' Hj Hn]; subst. intros [Hobeys Hindep]. split.
  - intros i l p [(-> & [= -> ->] & _)|[_ Hi]]%lookup_thread_insert; [|by eauto].
    eapply obeys_next; [by eapply Hobeys|done].
  - intros i i' l l' p p' Hne Hi Hi'.
    apply lookup_thread_insert in Hi as [(-> & [= -> ->] & _)|[_ Hi]];
      apply lookup_thread_insert in Hi' as [(-> & [= -> ->] & _)|[_ Hi']];
      by eauto.
Qed.

Lemma alone_from_step w0 ts0 w ts w' ts' :
  pool_ok ts → alone_from w0 ts0 (w, ts) → pool_step (w, ts) (w', ts') →
  alone_from w0 ts0 (w', ts').
Proof.
  intros [Hobeys Hindep] Halone. inversion 1 as [j lj pj ? ? ? pj' Hj Hn]; subst.
  destruct (next_inv _ _ _ _ _ Hn) as (X & ev & k & x & -> & Hh & ->).
  destruct (Hobeys _ _ _ Hj) as [HG _].
  intros i l p [(-> & [= -> ->] & _)|[Hne Hi]]%lookup_thread_insert; simpl.
  - destruct (Halone _ _ _ Hj) as (p0 & ws & Hp0 & Hsolo & Hagree).
    destruct (local _ _ _ _ _ _ _ HG Hagree Hh) as (ws' & Hh' & Hagree').
    exists p0, ws'. split_and!; [done| |done].
    eapply rtc_r; [done|]. constructor. simpl. by rewrite Hh'.
  - destruct (Halone _ _ _ Hi) as (p0 & ws & Hp0 & Hsolo & Hagree).
    exists p0, ws. split_and!; [done..|].
    etrans; [|done]. symmetry. eapply frame; [by eapply Hindep|done..].
Qed.

Lemma pool_invariant w0 ts0 c :
  pool_ok ts0 → rtc pool_step (w0, ts0) c → pool_ok c.2 ∧ alone_from w0 ts0 c.
Proof.
  intros Hok Hsteps. revert c Hsteps.
  apply (rtc_ind_r (λ c, pool_ok c.2 ∧ alone_from w0 ts0 c)).
  - split; [done|]. intros i l p Hi. exists p, w0. by split_and!.
  - intros [w ts] [w' ts'] _ Hstep [IHok IH].
    split; [by eapply pool_ok_step|by eapply alone_from_step].
Qed.

(** *** Progress: no thread holds another up *)

Lemma pool_step_length c c' : pool_step c c' → length c'.2 = length c.2.
Proof. destruct 1. simpl. apply length_insert. Qed.

Lemma pool_steps_length c c' : rtc pool_step c c' → length c'.2 = length c.2.
Proof.
  induction 1 as [|c1 c2 c3 Hstep _ IH]; [done|].
  by rewrite IH, (pool_step_length _ _ Hstep).
Qed.

(** A thread whose run comes to an end in a world that agrees with the
    pool's can take its steps to that end in the pool. *)
Lemma thread_can_finish l p w w' r i ts :
  obeys (hl l) (G l) p → agree l w w' → ts !! i = Some (l, p) →
  run_outcome (run (hl l) p w') = Finished r →
  ∃ w2, rtc pool_step (w, ts) (w2, <[i := (l, of_result r)]> ts).
Proof.
  revert w w' ts. induction p as [a|e|X ev k IH]; intros w w' ts Hobeys Hagree Hi; simpl.
  - intros [= <-]. exists w. by rewrite list_insert_id.
  - intros [= <-]. exists w. by rewrite list_insert_id.
  - destruct Hobeys as [HG Hk].
    destruct (hl l X ev w') as [[x w'']|] eqn:Hh; [|done]. simpl. intros Hrun.
    destruct (local l X ev w' w x w'' HG) as (w1 & Hh1 & Hagree1); [done..|].
    destruct (IH x w1 w'' (<[i := (l, k x)]> ts)) as [w2 Hsteps];
      [by eapply Hk|done| |done|].
    { apply list_lookup_insert_eq. by eapply lookup_lt_Some. }
    exists w2. rewrite list_insert_insert_eq in Hsteps.
    eapply rtc_l; [|done]. econstructor; [done|]. simpl. by rewrite Hh1.
Qed.

(** A thread whose run alone comes to an end can be brought to this end
    from every state of the pool, whatever the other threads have done. *)
Lemma pool_progress w0 ts0 w ts i l p0 r :
  pool_ok ts0 → rtc pool_step (w0, ts0) (w, ts) → ts0 !! i = Some (l, p0) →
  run_outcome (run (hl l) p0 w0) = Finished r →
  ∃ w2, rtc pool_step (w, ts) (w2, <[i := (l, of_result r)]> ts).
Proof.
  intros Hok Hsteps Hi Hrun.
  destruct (pool_invariant _ _ _ Hok Hsteps) as [[Hobeys _] Halone].
  destruct (lookup_lt_is_Some_2 ts i) as [[l' p] Hts].
  { pose proof (pool_steps_length _ _ Hsteps) as Hlen. simpl in Hlen.
    rewrite Hlen. by eapply lookup_lt_Some. }
  destruct (Halone i l' p Hts) as (p0' & w' & Hi' & Hsolo & Hagree). simplify_eq.
  eapply thread_can_finish; [by eapply Hobeys|done..|].
  by rewrite <-(proj1 (run_solo _ _ _ _ _ Hsolo)).
Qed.

(** *** Complete schedules

    A thread that can take no step stays where it is, whatever the others
    do; a thread that has had as many turns as its program has calls can
    take no step.  So a schedule with enough turns for a thread brings it
    to the outcome of its run alone. *)

Lemma unanswered_local l X (ev : E X) w1 w2 :
  G l X ev → agree l w1 w2 → hl l X ev w1 = None → hl l X ev w2 = None.
Proof.
  intros HG Ha H1. destruct (hl l X ev w2) as [[x w2']|] eqn:H2; [|done].
  destruct (local l X ev w2 w1 x w2' HG) as (? & ? & _); [done..|congruence].
Qed.

Lemma settled_local l p w1 w2 :
  obeys (hl l) (G l) p → agree l w1 w2 → next (hl l) p w1 = None →
  next (hl l) p w2 = None ∧
  run_outcome (run (hl l) p w2) = run_outcome (run (hl l) p w1).
Proof.
  destruct p as [a|e|X ev k]; simpl; [done..|]. intros [HG _] Ha.
  destruct (hl l X ev w1) as [[x w]|] eqn:H1; [done|]. intros _.
  by rewrite (unanswered_local _ _ _ _ _ HG Ha H1).
Qed.

Lemma thread_outcome_step c c' i o :
  pool_ok c.2 → pool_step c c' →
  thread_outcome c i = Some o → thread_outcome c' i = Some o.
Proof.
  intros [Hobeys Hindep]. destruct 1 as [j lj pj w ts w' pj' Hj Hn].
  unfold thread_outcome. simpl in *.
  destruct (ts !! i) as [[l p]|] eqn:Hi; [|done].
  destruct (next (hl l) p w) eqn:Hni; [done|]. intros [= <-].
  destruct (decide (i = j)) as [->|Hne]; [congruence|].
  rewrite list_lookup_insert_ne, Hi by done.
  destruct (next_inv _ _ _ _ _ Hn) as (X & ev & k & x & -> & Hh & ->).
  destruct (Hobeys _ _ _ Hj) as [HG _].
  assert (agree l w w') as Ha by (eapply frame; [by eapply Hindep|done..]).
  by destruct (settled_local l p w w' (Hobeys _ _ _ Hi) Ha Hni) as [-> ->].
Qed.

Lemma pool_ok_steps c c' : rtc pool_step c c' → pool_ok c.2 → pool_ok c'.2.
Proof.
  induction 1 as [|[w1 ts1] [w2 ts2] c3 Hstep _ IH]; [done|].
  intros Hok. by eapply IH, pool_ok_step.
Qed.

Lemma thread_outcome_steps c c' i o :
  rtc pool_step c c' → pool_ok c.2 →
  thread_outcome c i = Some o → thread_outcome c' i = Some o.
Proof.
  induction 1 as [|[w1 ts1] [w2 ts2] c3 Hstep _ IH]; [done|]. intros Hok Ho.
  apply IH; [by eapply pool_ok_step|by eapply thread_outcome_step].
Qed.

(** A thread that has settled has the outcome of its run alone. *)
Lemma settled_alone w0 ts0 c i l p0 o :
  pool_ok ts0 → rtc pool_step (w0, ts0) c → ts0 !! i = Some (l, p0) →
  thread_outcome c i = Some o → o = run_outcome (run (hl l) p0 w0).
Proof.
  intros Hok Hsteps Hi. destruct (pool_invariant _ _ _ Hok Hsteps) as [[Hobeys _] Halone].
  unfold thread_outcome. destruct (c.2 !! i) as [[l' p]|] eqn:Hc; [|done].
  destruct (Halone i l' p Hc) as (p0' & w' & Hi' & Hsolo & Hagree). simplify_eq.
  destruct (next (hl l) p c.1) eqn:Hn; [done|]. intros [= <-].
  destruct (settled_local l p c.1 w' (Hobeys _ _ _ Hc) Hagree Hn) as [_ <-].
  symmetry. apply (run_solo _ _ _ _ _ Hsolo).
Qed.

Lemma run_settled h p w : next h p w = None → run_world (run h p w) = w.
Proof.
  destruct p as [a|e|X ev k]; simpl; [done..|]. by destruct (h X ev w) as [[x w']|].
Qed.

(** The world of the pool agrees, for a thread that has settled, with the
    world that its run alone leaves. *)
Lemma settled_world w0 ts0 c i l p0 o :
  pool_ok ts0 → rtc pool_step (w0, ts0) c → ts0 !! i = Some (l, p0) →
  thread_outcome c i = Some o → agree l c.1 (run_world (run (hl l) p0 w0)).
Proof.
  intros Hok Hsteps Hi. destruct (pool_invariant _ _ _ Hok Hsteps) as [[Hobeys _] Halone].
  unfold thread_outcome. destruct (c.2 !! i) as [[l' p]|] eqn:Hc; [|done].
  destruct (Halone i l' p Hc) as (p0' & w' & Hi' & Hsolo & Hagree). simplify_eq.
  destruct (next (hl l) p c.1) eqn:Hn; [done|]. intros _.
  destruct (settled_local l p c.1 w' (Hobeys _ _ _ Hc) Hagree Hn) as [Hn' _].
  by rewrite (proj2 (run_solo _ _ _ _ _ Hsolo)), (run_settled _ _ _ Hn').
Qed.

Lemma schedule_step_lookup_ne c i j :
  i ≠ j → (schedule_step c j).2 !! i = c.2 !! i.
Proof.
  intros Hne. unfold schedule_step. destruct (c.2 !! j) as [[l p]|]; [|done].
  destruct (next (hl l) p c.1) as [[w' p']|]; [|done].
  by apply list_lookup_insert_ne.
Qed.

(** Enough turns settle a thread. *)
Lemma turns_settle schedule c i l p n :
  pool_ok c.2 → c.2 !! i = Some (l, p) → at_most any_call n p →
  n ≤ turns i schedule → is_Some (thread_outcome (pool_run schedule c) i).
Proof.
  revert c p n. induction schedule as [|j schedule IH]; intros c p n Hok Hi Hn Hturns.
  - assert (n = 0) as -> by (change (turns i []) with 0 in Hturns; lia).
    unfold thread_outcome. simpl. rewrite Hi.
    destruct p as [a|e|X ev k]; simpl; [by eauto..|].
    apply at_most_vis_inv in Hn as [Hle _]. simpl in Hle. lia.
  - destruct (thread_outcome c i) as [o|] eqn:Ho.
    { exists o. by eapply thread_outcome_steps; [apply pool_run_reachable|..]. }
    pose proof (pool_ok_steps _ _ (schedule_step_reachable c j) Hok) as Hok'.
    unfold thread_outcome in Ho. rewrite Hi in Ho.
    destruct (next (hl l) p c.1) as [[w' p']|] eqn:Hnext; [clear Ho|done].
    unfold turns in Hturns. rewrite count_if_cons in Hturns.
    destruct (decide (j = i)) as [->|Hne].
    + destruct (at_most_next _ _ _ _ _ _ Hn Hnext) as (m & -> & Hm).
      rewrite bool_decide_eq_true_2 in Hturns by done.
      apply (IH (schedule_step c i) p' m); [done| |done|unfold turns; lia].
      unfold schedule_step. rewrite Hi, Hnext. simpl.
      apply list_lookup_insert_eq. by eapply lookup_lt_Some.
    + rewrite bool_decide_eq_false_2 in Hturns by done.
      apply (IH (schedule_step c j) p n); [done| |done|done].
      by rewrite schedule_step_lookup_ne.
Qed.

(** A schedule that gives a thread as many turns as its program has
    calls brings it to the outcome of its run alone. *)
Lemma pool_run_settles schedule w0 ts0 i l p0 n :
  pool_ok ts0 → ts0 !! i = Some (l, p0) → at_most any_call n p0 →
  n ≤ turns i schedule →
  thread_outcome (pool_run schedule (w0, ts0)) i
  = Some (run_outcome (run (hl l) p0 w0)) ∧
  agree l (pool_run schedule (w0, ts0)).1 (run_world (run (hl l) p0 w0)).
Proof.
  intros Hok Hi Hn Hturns.
  destruct (turns_settle schedule (w0, ts0) i l p0 n) as [o Ho]; [done..|].
  pose proof (pool_run_reachable schedule (w0, ts0)) as Hsteps. split.
  - rewrite Ho. f_equal. by eapply settled_alone.
  - by eapply settled_world.
Qed.

End isolation.
End threads.

Arguments pool_ok {E Err W A L} hl G indep ts.
Arguments alone_from {E Err W A L} hl agree w0 ts0 c.
