(* ===== verification/Pool.v ===== *)
(** * Pool: requests in flight at the same time

    Koa runs the generator of a request up to its next [yield] and then
    serves the other requests: the calls of the requests in flight
    interleave, over one file system.  What separates the requests is the
    directory of their extension: [crx.load] gives each extension object a
    directory of its own, and the route writes the icon there.

    A pool ([Threads]) of requests, each with the directory [crx] gives it,
    runs over the world of [World].  The theorems: whatever the
    interleaving, the requests change no file outside their directories
    ([pool_frame]), and each request is answered as if it had run alone
    ([pool_isolation]), when the directories are separate and hold none of
    the files the route reads.  With one directory for two requests an
    interleaving gives a request the icon of the other
    ([Flight.wrong_icon]).  Under any schedule a request that has had nine
    turns has settled as its specification says ([pool_answers]).  What an
    unhandled stream error does to the requests in flight is in
    [Process]. *)

From stdpp Require Import gmap relations.
From S2P Require Import Prelude JsString JsValue Prog Url Dom Path Generate Trace Fixture Validate Config Icon Handler World Route Threads.

(** ** The world of a request *)

(** The world as a request sees it whose extension works in [dir]. *)
Definition in_dir (dir : string) (w : world) : world :=
  {| at_site := {| web := web (at_site w); pem_key := pem_key (at_site w);
                   template := template (at_site w); workdir := dir |};
     files := files w; finished := finished w |}.

(** The answers to the calls of that request. *)
Definition node_in (dir : string) : handler io world := λ X ev w, node X ev (in_dir dir w).

(** A file of a directory. *)
Definition inside (dir path : string) : Prop := ∃ rest, path = dir +:+ "/" +:+ rest.

(** A file of one of the directories [dirs]; a file of one of them other
    than [d]. *)
Definition taken (dirs : list string) (path : string) : Prop :=
  ∃ d, d ∈ dirs ∧ inside d path.

Definition foreign (dirs : list string) (d path : string) : Prop :=
  ∃ d', d' ∈ dirs ∧ d' ≠ d ∧ inside d' path.

(** No file is in two of the directories. *)
Definition separate (dirs : list string) : Prop :=
  ∀ i j d d' path,
    dirs !! i = Some d → dirs !! j = Some d' → inside d path → inside d' path → i = j.

(** Two worlds look the same to the request that works in [d]: the same
    web, key and template, and the same files outside the directories of
    the other requests. *)
Definition same_view (dirs : list string) (d : string) (w1 w2 : world) : Prop :=
  web (at_site w1) = web (at_site w2) ∧ pem_key (at_site w1) = pem_key (at_site w2) ∧
  template (at_site w1) = template (at_site w2) ∧
  ∀ path, ¬ foreign dirs d path →
    files w1 !! path = files w2 !! path ∧ (path ∈ finished w1 ↔ path ∈ finished w2).

(** The calls of a request that works in [d] and keeps to itself: it
    writes in [d], and reads no file of the directory of another request. *)
Definition keeps_to (dirs : list string) (d : string) (X : Type) (ev : io X) : Prop :=
  match ev with
  | CrxLoad _ dir => ∀ rest, ¬ foreign dirs d (dir +:+ "/" +:+ rest)
  | CrxPack crx => ¬ foreign dirs d (iconDestination crx)
  | AccessSync path _ => ¬ foreign dirs d path
  | CreateWriteStream path => inside d path
  | Pipe src dst =>
      inside d (sink_path dst) ∧
      match src with FileSource path => ¬ foreign dirs d path | HttpSource _ => True end
  | Finish dst => ¬ foreign dirs d (sink_path dst)
  | _ => True
  end.

(** Two requests are independent: they work in two directories. *)
Definition apart (dirs : list string) (d d' : string) : Prop := d' ∈ dirs ∧ d ≠ d'.

(** ** The handler of a request *)

Section node_in.
Context (dirs : list string).
Implicit Types (d path : string) (w : world).

#[export] Instance same_view_equivalence d : Equivalence (same_view dirs d).
Proof.
  split.
  - by intros w.
  - intros w1 w2 (? & ? & ? & Hf). split_and!; [done..|].
    intros path Hp. destruct (Hf path Hp) as [-> ->]. done.
  - intros w1 w2 w3 (? & ? & ? & Hf) (? & ? & ? & Hf'). split_and!; [congruence..|].
    intros path Hp. destruct (Hf path Hp) as [-> ->]. by apply Hf'.
Qed.

Lemma in_dir_node d w : at_site w = at_site (in_dir d w) → in_dir d w = w.
Proof. destruct w as [s f fin]. unfold in_dir. simpl. by intros ->. Qed.

(** The handler [node_in d] is [node] in the world of the request. *)
Lemma run_node_in {A} d (p : js A) w :
  run_outcome (run (node_in d) p w) = run_outcome (run node p (in_dir d w)) ∧
  files (run_world (run (node_in d) p w)) = files (run_world (run node p (in_dir d w))).
Proof.
  revert w. induction p as [a|e|X ev k IH]; intros w; simpl; [done..|].
  unfold node_in at 1 3, node. destruct (answer ev (in_dir d w)) as [x|]; simpl; [|done].
  rewrite <-(in_dir_node d (effect ev (in_dir d w))) at 2 4; [apply IH|].
  simpl. by rewrite !effect_site.
Qed.

(** A step of a request changes files of its directory only. *)
Lemma node_in_writes d X (ev : io X) w x w' :
  keeps_to dirs d X ev → node_in d X ev w = Some (x, w') →
  web (at_site w) = web (at_site w') ∧ pem_key (at_site w) = pem_key (at_site w') ∧
  template (at_site w) = template (at_site w') ∧
  ∀ path, ¬ inside d path →
    files w !! path = files w' !! path ∧ (path ∈ finished w ↔ path ∈ finished w').
Proof.
  unfold node_in, node. intros HG Hn.
  destruct (answer ev (in_dir d w)) as [y|]; simplify_eq.
  rewrite !effect_site. split_and!; [done..|]. intros path Hp.
  destruct ev; simpl in *; try done; repeat case_match; simpl; try done.
  all: match goal with
       | |- context [<[?k := _]> _] =>
           assert (path ≠ k) as Hne
             by (intros ->; apply Hp; first [done | by destruct HG | by eexists])
       end.
  all: rewrite lookup_insert_ne by done; split; [done|set_solver].
Qed.

(** The same change of a file in two worlds that look the same. *)
Lemma same_view_update d w1 w2 s1 s2 path c (op : gset string → gset string) :
  same_view dirs d w1 w2 →
  web s1 = web s2 → pem_key s1 = pem_key s2 → template s1 = template s2 →
  (∀ f1 f2 p, (p ∈ f1 ↔ p ∈ f2) → (p ∈ op f1 ↔ p ∈ op f2)) →
  same_view dirs d (World s1 (<[path := c]> (files w1)) (op (finished w1)))
                   (World s2 (<[path := c]> (files w2)) (op (finished w2))).
Proof.
  intros (_ & _ & _ & Hf) ??? Hop. split_and!; [done..|]. intros p Hp. simpl.
  destruct (Hf p Hp) as [Hfiles Hfin]. split; [|by apply Hop].
  destruct (decide (p = path)) as [->|]; [by rewrite !lookup_insert_eq|].
  by rewrite !lookup_insert_ne.
Qed.

(** What the request reads is answered alike in worlds that look the
    same to it. *)
Lemma answer_local d X (ev : io X) w1 w2 :
  keeps_to dirs d X ev → same_view dirs d w1 w2 →
  answer ev (in_dir d w1) = answer ev (in_dir d w2).
Proof.
  intros HG (Hweb & Hkey & Htpl & Hf).
  destruct ev; simpl in *; unfold template_icon; simpl;
    rewrite ?Hweb, ?Hkey, ?Htpl; try done.
  - by rewrite (proj1 (Hf _ (HG _))).
  - by rewrite (proj1 (Hf _ HG)).
  - by rewrite (proj1 (Hf _ HG)).
  - by rewrite (bool_decide_ext _ _ (proj2 (Hf _ HG))).
Qed.

Lemma effect_local d X (ev : io X) w1 w2 :
  keeps_to dirs d X ev → same_view dirs d w1 w2 →
  same_view dirs d (effect ev (in_dir d w1)) (effect ev (in_dir d w2)).
Proof.
  intros HG Hv. pose proof Hv as (Hweb & Hkey & Htpl & Hf).
  assert (same_view dirs d (in_dir d w1) (in_dir d w2)) as Hv' by done.
  destruct ev; simpl in *; unfold template_icon; simpl; rewrite ?Htpl; try done.
  - rewrite (proj1 (Hf _ (HG _))). destruct (files w2 !! _) as [c|]; [|done].
    by apply (same_view_update _ _ _ _ _ _ _ id).
  - apply (same_view_update _ _ _ _ _ _ _ (λ f, f ∖ {[path]})); [done..|set_solver].
  - destruct HG as [_ HG].
    assert (content src (in_dir d w1) = content src (in_dir d w2)) as ->.
    { destruct src; simpl; [by rewrite (proj1 (Hf _ HG))|by rewrite Hweb]. }
    destruct (content src (in_dir d w2)) as [c|]; [|done].
    apply (same_view_update _ _ _ _ _ _ _ (λ f, f ∪ {[sink_path dst]})); [done..|set_solver].
Qed.

(** The two conditions of isolation for the handlers of the requests. *)
Lemma node_in_local d X (ev : io X) w1 w2 x w1' :
  keeps_to dirs d X ev → same_view dirs d w1 w2 → node_in d X ev w1 = Some (x, w1') →
  ∃ w2', node_in d X ev w2 = Some (x, w2') ∧ same_view dirs d w1' w2'.
Proof.
  unfold node_in, node. intros HG Hv. rewrite <-(answer_local d X ev w1 w2 HG Hv).
  destruct (answer ev (in_dir d w1)) as [y|]; intros; simplify_eq.
  eexists. split; [done|]. by apply effect_local.
Qed.

Lemma node_in_frame d d' X (ev : io X) w x w' :
  apart dirs d d' → keeps_to dirs d' X ev → node_in d' X ev w = Some (x, w') →
  same_view dirs d w w'.
Proof.
  intros [Hin Hne] HG Hn.
  destruct (node_in_writes d' X ev w x w' HG Hn) as (? & ? & ? & Hf).
  split_and!; [done..|]. intros path Hp. apply Hf. intros Hi. apply Hp. by exists d'.
Qed.

End node_in.

(** ** The route keeps to itself *)

(** The directories hold none of the files the route reads: the template
    of the extension, the per-host icons and the letter icons. *)
Definition clear_of `{!Path.PathJoin, !Path.Dirname} (dirs : list string) : Prop :=
  (∀ rest, ¬ taken dirs (filesDirectory +:+ "/" +:+ rest)) ∧
  (∀ c, JsString.existsb (NodeUrl.is_char 47) (host c) = false →
        ¬ taken dirs (overrideIconPath c)) ∧
  (∀ ch, JsString.is_upper ch = true → ¬ taken dirs (placeholderPath (String ch ""))).

(** A configuration whose host has no slash. *)
Definition plain_host (c : CrxConfig) : Prop :=
  JsString.existsb (NodeUrl.is_char 47) (host c) = false.

Section route.
Context `{!Url.UrlParse, !Url.UrlParseLaws, !Url.UrlResolve, !Dom.HtmlParse,
          !Path.PathJoin, !Path.Dirname}.
Context (dirs : list string) (d : string).
Hypothesis dirs_separate : separate dirs.
Hypothesis dirs_clear : clear_of dirs.
Hypothesis d_in_dirs : d ∈ dirs.
Implicit Types (path : string) (w : world) (this : Context) (c : CrxConfig).

#[local] Abbreviation keeps Q p := (obeys_to (node_in d) (keeps_to dirs d) Q p).

Lemma foreign_taken path : foreign dirs d path → taken dirs path.
Proof. intros (d' & ? & _ & ?). by exists d'. Qed.

(** A file of the directory of a request is in no directory of another. *)
Lemma own_not_foreign path : inside d path → ¬ foreign dirs d path.
Proof.
  destruct (list_elem_of_lookup_1 _ _ d_in_dirs) as [i Hi].
  intros Hp (d' & [j Hj]%list_elem_of_lookup & Hne & Hp').
  apply Hne. pose proof (dirs_separate i j d d' path Hi Hj Hp Hp'). congruence.
Qed.

Lemma node_in_answer {X} (ev : io X) w x w' :
  node_in d X ev w = Some (x, w') → answer ev (in_dir d w) = Some x.
Proof. unfold node_in, node. destruct (answer _ _); intros; by simplify_eq. Qed.

(** A call whose answer is decided by the call. *)
Ltac keeps_call :=
  apply obeys_to_call; [try done|try done; intros ? ? ? ?%node_in_answer; by simplify_eq/=].

(** The copy of a file that is no file of another request into the
    directory of the request. *)
Lemma copyLocalFile_keeps from to :
  inside d to → ¬ foreign dirs d from → keeps (λ _, True) (copyLocalFile from to).
Proof.
  intros Hto Hfrom. unfold copyLocalFile.
  apply (obeys_to_bind _ _ (λ ws, ws = FileSink to)).
  - apply obeys_to_try_catch; [|done].
    apply (obeys_to_bind _ _ (λ ws, ws = FileSink to)); [keeps_call|intros ws ->].
    apply (obeys_to_bind _ _ (λ src, src = FileSource from)); [keeps_call|intros src ->].
    apply (obeys_to_bind _ _ (λ _, True)); [keeps_call|done].
  - intros ws ->. apply (obeys_to_bind _ _ (λ _, True)); [|done].
    apply obeys_to_trigger; [|done]. by apply own_not_foreign.
Qed.

Lemma downloadFile_keeps u to : inside d to → keeps (λ _, True) (downloadFile u to).
Proof.
  intros Hto. unfold downloadFile.
  apply (obeys_to_bind _ _ (λ ws, ws = FileSink to)).
  - apply obeys_to_try_catch; [|done].
    apply (obeys_to_bind _ _ (λ ws, ws = FileSink to)); [keeps_call|intros ws ->].
    apply (obeys_to_bind _ _ (λ src, src = HttpSource u)); [keeps_call|intros src ->].
    apply (obeys_to_bind _ _ (λ _, True)); [keeps_call|done].
  - intros ws ->. apply (obeys_to_bind _ _ (λ _, True)); [|done].
    apply obeys_to_trigger; [|done]. by apply own_not_foreign.
Qed.

(** The icon of an extension that works in [d] is a file of [d]. *)
Lemma iconDestination_inside crx : Crx.path crx = d → inside d (iconDestination crx).
Proof. intros <-. by eexists. Qed.

Lemma overrideIconIfExists_keeps c crx :
  plain_host c → Crx.path crx = d → keeps (λ _, True) (overrideIconIfExists c crx).
Proof.
  intros Hc Hcrx. unfold overrideIconIfExists.
  assert (¬ foreign dirs d (overrideIconPath c)) as Hpath.
  { intros Hf%foreign_taken. by apply dirs_clear in Hf. }
  apply (obeys_to_bind _ _ (λ _, True)).
  - apply obeys_to_try_catch; [|done].
    apply (obeys_to_bind _ _ (λ _, True)); [keeps_call|done].
  - intros [] _; [|done]. apply (obeys_to_bind _ _ (λ _, True)); [|done].
    by apply copyLocalFile_keeps; [apply iconDestination_inside|].
Qed.

Lemma setPlaceholderIcon_keeps c crx :
  Crx.path crx = d → keeps (λ _, True) (setPlaceholderIcon c crx).
Proof.
  intros Hcrx. unfold setPlaceholderIcon.
  apply (obeys_to_bind _ _ (λ _, True)); [by apply obeys_to_lift|]. intros hostname _.
  destruct (JsString.match_AZ _) eqn:Hletter; [|done]. cbn [negb].
  apply JsString.first_upper_letter in Hletter as (ch & -> & Hch).
  apply (obeys_to_bind _ _ (λ _, True)); [|done].
  apply copyLocalFile_keeps; [by apply iconDestination_inside|].
  intros Hf%foreign_taken. by apply dirs_clear in Hf.
Qed.

Lemma downloadIcon_keeps c crx :
  Crx.path crx = d → keeps (λ _, True) (downloadIcon c crx).
Proof.
  intros Hcrx. unfold downloadIcon.
  apply (obeys_to_bind _ _ (λ _, True)); [by apply obeys_to_lift|]. intros i _.
  destruct (Js.truthy _); [|done]. apply (obeys_to_bind _ _ (λ _, True)); [|done].
  by apply downloadFile_keeps, iconDestination_inside.
Qed.

Lemma generateCrx_keeps oc :
  (∀ c, oc = Some c → plain_host c) → keeps (λ _, True) (generateCrx oc).
Proof.
  intros Hoc. unfold generateCrx.
  apply (obeys_to_bind _ _ (λ _, True)); [keeps_call|]. intros cert _.
  apply (obeys_to_bind _ _ (λ crx, Crx.path crx = d)).
  { apply obeys_to_call.
    - intros rest Hf%foreign_taken. by apply dirs_clear in Hf.
    - intros w x w' Hx%node_in_answer. simpl in Hx. by case_match; simplify_eq. }
  intros crx Hcrx. apply (obeys_to_bind _ _ plain_host).
  { apply obeys_to_lift. intros c Hc. apply Hoc. by destruct oc; simplify_eq/=. }
  intros c Hc. apply (obeys_to_bind _ _ (λ _, True)).
  { by apply overrideIconIfExists_keeps. }
  intros c' _. apply (obeys_to_bind _ _ (λ _, True)).
  { unfold fallbackIcon. destruct (negb _); [|done].
    destruct (Js.truthy _); [by apply downloadIcon_keeps|by apply setPlaceholderIcon_keeps]. }
  intros _ _. apply (obeys_to_bind _ _ (λ _, True)); [|done].
  apply obeys_to_call; [|done]. by apply own_not_foreign, iconDestination_inside.
Qed.

(** The host of the configuration that [buildCrxConfig] returns has no
    slash: the parser gives a hostname without one. *)
Lemma buildCrxConfig_keeps url :
  keeps (λ oc, ∀ c, oc = Some c → plain_host c) (buildCrxConfig url).
Proof.
  apply obeys_to_wp.
  - unfold obeys, buildCrxConfig, buildCrxConfig_run.
    destruct (parseUrl url) as [e|p]; simpl; [done|].
    destruct (Url.hostname p); simpl; [|done].
    split; [done|]. by intros w [e|r] w' _.
  - apply wp_buildCrxConfig. eapply wp_mono; [|apply buildCrxConfig_run_cases].
    intros tr [[c ret]|e]; simpl; [|done].
    intros (u & p & h & -> & ->%parseUrl_parsed & Hh & Hret) a [= <-].
    destruct Hret as [(e & _ & -> & ->)|(r & _ & _ & ->)]; intros c' [= <-].
    by apply normalizeHost_no_slash, (Url.hostname_no_slash u).
Qed.

(** The route keeps to itself: with the calls answered for a request
    that works in [d], it writes files of [d] only and reads no file of the
    directory of another request, whatever the request is. *)
Lemma module_exports_keeps this :
  obeys (node_in d) (keeps_to dirs d) (module_exports this).
Proof.
  unfold module_exports.
  eapply obeys_to_bind; [apply buildCrxConfig_keeps|]. intros oc Hoc.
  eapply obeys_to_bind; [by apply generateCrx_keeps|]. intros [b c] _.
  unfold sendCrx. by apply obeys_to_bind with (Q := λ _, True); [apply obeys_to_lift|].
Qed.

End route.

(** ** The pool of the requests in flight *)

Section pool.
Context `{!Url.UrlParse, !Url.UrlParseLaws, !Url.UrlResolve, !Dom.HtmlParse,
          !Path.PathJoin, !Path.Dirname}.
Implicit Types (reqs : list (string * Context)) (w : world)
  (ts : list (string * js Context)).

(** The requests at their start: each is the route on its context, with
    the directory its extension will work in. *)
Definition start reqs : list (string * js Context) :=
  (λ r, (r.1, module_exports r.2)) <$> reqs.

(** C15: the pool terminates.  The route has no loop: a request makes at
    most nine calls, so an interleaving of the requests in flight, in
    every world and whatever directories they work in, has at most nine
    steps for each request: no schedule runs for ever. *)
Theorem pool_terminates reqs w k c :
  nsteps (pool_step node_in) k (w, start reqs) c → k ≤ 9 * length reqs.
Proof.
  intros Hs. rewrite Nat.mul_comm, <-(length_fmap (λ r, (r.1, module_exports r.2))).
  apply (pool_steps_bounded node_in 9 k (w, start reqs) c); [|done].
  apply Forall_fmap, Forall_forall. intros r _. apply module_exports_calls.
Qed.

Section reachable.
Context (reqs : list (string * Context)).
Hypothesis dirs_separate : separate reqs.*1.
Hypothesis dirs_clear : clear_of reqs.*1.

Lemma start_lookup i d p :
  start reqs !! i = Some (d, p) →
  ∃ this, reqs !! i = Some (d, this) ∧ p = module_exports this ∧ reqs.*1 !! i = Some d.
Proof.
  unfold start. rewrite list_lookup_fmap. destruct (reqs !! i) as [[d' this]|] eqn:Hi; [|done].
  intros [= <- <-]. exists this. by rewrite list_lookup_fmap, Hi.
Qed.

Lemma separate_apart i j d d' :
  i ≠ j → reqs.*1 !! i = Some d → reqs.*1 !! j = Some d' → apart reqs.*1 d d'.
Proof.
  intros Hne Hi Hj. split; [by eapply list_elem_of_lookup_2|]. intros ->.
  apply Hne, (dirs_separate i j d' d' (d' +:+ "/" +:+ "") Hi Hj); by eexists.
Qed.

Lemma start_ok : pool_ok node_in (keeps_to reqs.*1) (apart reqs.*1) (start reqs).
Proof.
  split.
  - intros i d p (this & _ & -> & Hd)%start_lookup.
    apply module_exports_keeps; [done..|by eapply list_elem_of_lookup_2].
  - intros i j d d' p p' Hne (? & _ & _ & Hd)%start_lookup (? & _ & _ & Hd')%start_lookup.
    by eapply separate_apart.
Qed.

(** What holds of every interleaving: the threads keep to themselves, and
    each is where it would be alone. *)
Lemma pool_reachable w0 c :
  rtc (pool_step node_in) (w0, start reqs) c →
  pool_ok node_in (keeps_to reqs.*1) (apart reqs.*1) c.2 ∧
  alone_from node_in (same_view reqs.*1) w0 (start reqs) c.
Proof.
  apply (pool_invariant node_in (keeps_to _) (same_view _) (apart _)
           (node_in_local _) (node_in_frame _)), start_ok.
Qed.

(** C10: isolation.  The requests in flight work in separate directories
    that hold none of the files the route reads.  Then, whatever the
    interleaving of their calls, a request that has come to its end has the
    result of its run alone, from the world in which the pool started:
    the result that the specification of the route gives for its
    directory. *)
Theorem pool_isolation w0 w ts i d this r :
  rtc (pool_step node_in) (w0, start reqs) (w, ts) →
  reqs !! i = Some (d, this) →
  thread_result ts i = Some r →
  run_outcome (run node (module_exports this) (in_dir d w0)) = Finished r ∧
  route_spec this (in_dir d w0) = Finished r.
Proof.
  intros [_ Halone]%pool_reachable Hi Hr. rewrite <-route_outcome.
  assert (∃ d', ts !! i = Some (d', of_result r)) as [d' Hts].
  { unfold thread_result in Hr. destruct (ts !! i) as [[d' [a|e|]]|]; simplify_eq/=; eauto. }
  destruct (Halone i d' _ Hts) as (p0 & w' & (this' & ? & -> & _)%start_lookup & Hsolo & _).
  simplify_eq. apply run_solo_finished in Hsolo as [Hsolo _].
  by rewrite <-(proj1 (run_node_in d (module_exports this) w0)).
Qed.

(** C24: the pool changes the files of its directories only.  Whatever the
    interleaving, a file that is in none of the directories of the
    requests holds what it held when the pool started. *)
Theorem pool_frame w0 w ts path :
  rtc (pool_step node_in) (w0, start reqs) (w, ts) →
  ¬ taken reqs.*1 path → files w !! path = files w0 !! path.
Proof.
  intros Hsteps Hpath.
  change (files (w, ts).1 !! path = files w0 !! path). revert Hsteps.
  generalize (w, ts). apply rtc_ind_r; [done|].
  intros [w1 ts1] [w2 ts2] [[Hobeys _] Halone]%pool_reachable Hstep <-.
  inversion Hstep as [j l p ? ? ? p' Hj Hn]; subst.
  destruct (next_inv _ _ _ _ _ Hn) as (X & ev & k & x & -> & Hh & ->).
  destruct (Hobeys _ _ _ Hj) as [HG _].
  destruct (Halone j l _ Hj) as (? & ? & (? & _ & _ & Hl)%start_lookup & _).
  destruct (node_in_writes _ l X ev w1 x w2 HG Hh) as (_ & _ & _ & Hf).
  symmetry. apply Hf. intros Hin. apply Hpath. exists l.
  split; [by eapply list_elem_of_lookup_2|done].
Qed.

(** No request holds another up.  A request whose run alone comes to
    an end can be brought to this end from every state of the pool by steps
    of its own, whatever the other requests have done, also when some of
    them wait for ever. *)
Lemma pool_progress_route w0 w ts i d this r :
  rtc (pool_step node_in) (w0, start reqs) (w, ts) →
  reqs !! i = Some (d, this) →
  run_outcome (run node (module_exports this) (in_dir d w0)) = Finished r →
  ∃ w' ts', rtc (pool_step node_in) (w, ts) (w', ts') ∧ thread_result ts' i = Some r.
Proof.
  intros Hsteps Hi Hrun.
  destruct (pool_progress node_in (keeps_to _) (same_view _) (apart _)
              (node_in_local _) (node_in_frame _)
              w0 (start reqs) w ts i d (module_exports this) r start_ok Hsteps)
    as [w' Hsteps'].
  { unfold start. by rewrite list_lookup_fmap, Hi. }
  { by rewrite (proj1 (run_node_in d (module_exports this) w0)). }
  eexists _, _. split; [done|]. unfold thread_result.
  rewrite list_lookup_insert_eq; [by destruct r|].
  pose proof (pool_steps_length _ _ _ Hsteps) as Hlen. simpl in Hlen.
  rewrite Hlen. unfold start. rewrite length_fmap. by eapply lookup_lt_Some.
Qed.

(** Nine turns settle a request, whatever the schedule. *)
Lemma pool_run_route schedule w0 i d this :
  reqs !! i = Some (d, this) → 9 ≤ turns i schedule →
  let c := pool_run node_in schedule (w0, start reqs) in
  thread_outcome node_in c i = Some (route_spec this (in_dir d w0)) ∧
  ∀ path, inside d path →
    files c.1 !! path = files (route_world this (in_dir d w0)) !! path.
Proof.
  intros Hi Hturns.
  destruct (pool_run_settles node_in (keeps_to _) (same_view _) (apart _)
              (node_in_local _) (node_in_frame _)
              schedule w0 (start reqs) i d (module_exports this) 9 start_ok)
    as [Ho (_ & _ & _ & Hfiles)];
    [unfold start; by rewrite list_lookup_fmap, Hi|apply module_exports_calls|done|].
  destruct (run_node_in d (module_exports this) w0) as [Hrun Hworld]. split.
  - by rewrite Ho, Hrun, route_outcome.
  - intros path Hpath. rewrite <-(proj2 (route_run this _)), <-Hworld. apply Hfiles.
    eapply own_not_foreign; [done| |done]. apply list_elem_of_lookup. exists i.
    by rewrite list_lookup_fmap, Hi.
Qed.

(** C11: a complete schedule answers every request.  In any schedule,
    a request that has had nine turns has settled as the specification of
    the route says for its directory in the world in which the pool
    started: answered with its extension, failed with its error, or
    waiting for the [finish] that does not come; and the files of its
    directory are those that the specification says it leaves; whatever
    the other requests did in between, and whether they settled or not. *)
Theorem pool_answers schedule w0 i d this :
  reqs !! i = Some (d, this) → 9 ≤ turns i schedule →
  let c := pool_run node_in schedule (w0, start reqs) in
  thread_outcome node_in c i = Some (route_spec this (in_dir d w0)) ∧
  ∀ path, inside d path →
    files c.1 !! path = files (route_world this (in_dir d w0)) !! path.
Proof.
  apply pool_run_route.
Qed.

End reachable.
End pool.

(** ** Two requests in flight *)

Module Flight.
Import Fixture World.Sample.

(** Two requests, each with its directory. *)
Definition reqs : list (string * Context) :=
  [("/tmp/crx-1", ctx (Js.Str "https://www.github.com/"));
   ("/tmp/crx-2", ctx (Js.Str "https://www.Example.org/app"))].


(** The requests take their steps in turn. *)
Definition in_turn : list nat := [0; 1; 0; 1; 0; 1; 0; 1; 0; 1; 0; 1; 0; 1; 0; 1; 0; 1; 0; 1].


(** The body of the response of a request that was answered. *)
Definition body_of (ts : list (string * js Context)) (i : nat) : option Buffer :=
  match thread_result ts i with
  | Some (Returned this) => response_body this
  | _ => None
  end.

Lemma reqs_separate : separate reqs.*1.
Proof.
  intros i j d d' path Hi Hj [r ->] [r' E].
  destruct i as [|[|i]], j as [|[|j]]; by simplify_eq/=.
Qed.

Lemma reqs_taken path :
  taken reqs.*1 path → inside "/tmp/crx-1" path ∨ inside "/tmp/crx-2" path.
Proof.
  intros (d & Hd & Hp). change (d ∈ ["/tmp/crx-1"; "/tmp/crx-2"]) in Hd.
  set_unfold in Hd. destruct Hd as [?|[?|[]]]; subst; auto.
Qed.

Lemma reqs_clear : clear_of reqs.*1.
Proof.
  split_and!.
  - by intros rest [[r E]|[r E]]%reqs_taken; simplify_eq/=.
  - intros c Hc. rewrite overrideIconPath_plain by done.
    change (PosixPath.join Path.dirname "../assets/icons") with "/srv/app/api/assets/icons".
    by intros [[r E]|[r E]]%reqs_taken; simplify_eq/=.
  - intros ch Hch. rewrite placeholderPath_plain by (by revert Hch; JsString.by_cases_on ch).
    change (PosixPath.join Path.dirname "../lib/extension/icons/fallback")
      with "/srv/app/api/lib/extension/icons/fallback".
    by intros [[r E]|[r E]]%reqs_taken; simplify_eq/=.
Qed.

(** Both requests are answered when they take their steps in turn, each
    with its icon. *)
Example in_turn_answers :
  let c := pool_run node_in in_turn (w0, start reqs) in
  body_of c.2 0
  = Some "Cr24|KEY|www.github.com|https://www.github.com/|https://www.github.com/|OCTOCAT"
  ∧ body_of c.2 1
  = Some "Cr24|KEY|www.example.org|https://www.Example.org/app|https://www.Example.org/app|LETTER-W".
Proof. by vm_compute. Qed.

Lemma module_exports_keeps_witness :
  obeys (node_in "/tmp/crx-1") (keeps_to reqs.*1 "/tmp/crx-1")
    (module_exports (ctx (Js.Str "https://www.github.com/"))).
Proof. apply module_exports_keeps; [apply reqs_separate|apply reqs_clear|set_solver]. Defined.

Lemma pool_isolation_witness :
  let answered := Finished (Returned
      {| request_body_url := Js.Str "https://www.github.com/";
         response_headers :=
           [("content-disposition", "attachment; filename=www.github.com.crx");
            ("content-type", "application/x-chrome-extension")];
         response_body := Some
           "Cr24|KEY|www.github.com|https://www.github.com/|https://www.github.com/|OCTOCAT" |}) in
  run_outcome (run node (module_exports (ctx (Js.Str "https://www.github.com/")))
                   (in_dir "/tmp/crx-1" w0)) = answered ∧
  route_spec (ctx (Js.Str "https://www.github.com/")) (in_dir "/tmp/crx-1" w0) = answered.
Proof.
  apply (pool_isolation reqs reqs_separate reqs_clear w0 _ _ 0 "/tmp/crx-1"
           (ctx (Js.Str "https://www.github.com/")) _
           (pool_run_steps node_in in_turn (w0, start reqs)));
    by vm_compute.
Defined.

Lemma pool_frame_witness :
  files (pool_run node_in in_turn (w0, start reqs)).1
    !! "/srv/app/api/lib/extension/files/icon.png"
  = files w0 !! "/srv/app/api/lib/extension/files/icon.png".
Proof.
  apply (pool_frame reqs reqs_separate reqs_clear w0 _ _ _
           (pool_run_steps node_in in_turn (w0, start reqs))).
  by intros [[r E]|[r E]]%reqs_taken; simplify_eq/=.
Defined.

(** In turn the two requests take all the steps they can: nine each. *)
Example in_turn_steps : steps_taken node_in in_turn (w0, start reqs) = 18.
Proof. by vm_compute. Qed.

Lemma pool_terminates_witness : steps_taken node_in in_turn (w0, start reqs) ≤ 9 * 2.
Proof.
  apply (pool_terminates reqs w0 _ _ (pool_run_nsteps node_in in_turn (w0, start reqs))).
Defined.

(** In turn, both requests have had their nine turns: the first is
    answered as its specification says. *)
Lemma pool_answers_witness :
  let c := pool_run node_in in_turn (w0, start reqs) in
  let this := ctx (Js.Str "https://www.github.com/") in
  thread_outcome node_in c 0 = Some (route_spec this (in_dir "/tmp/crx-1" w0)) ∧
  ∀ path, inside "/tmp/crx-1" path →
    files c.1 !! path = files (route_world this (in_dir "/tmp/crx-1" w0)) !! path.
Proof.
  apply (pool_answers reqs reqs_separate reqs_clear in_turn w0 0 "/tmp/crx-1"); [done|].
  vm_compute. lia.
Defined.

(** The first request can be brought to its end when the second has not
    begun. *)
Lemma pool_progress_route_witness :
  ∃ w' ts', rtc (pool_step node_in) (w0, start reqs) (w', ts') ∧
    thread_result ts' 0 = Some (Returned
      {| request_body_url := Js.Str "https://www.github.com/";
         response_headers :=
           [("content-disposition", "attachment; filename=www.github.com.crx");
            ("content-type", "application/x-chrome-extension")];
         response_body := Some
           "Cr24|KEY|www.github.com|https://www.github.com/|https://www.github.com/|OCTOCAT" |}).
Proof.
  apply (pool_progress_route reqs reqs_separate reqs_clear w0 w0 (start reqs) 0
           "/tmp/crx-1" (ctx (Js.Str "https://www.github.com/")));
    [done|done|by vm_compute].
Defined.


End Flight.
