(* ===== verification/Process.v ===== *)
(** * Process: the requests in flight in one Node process

    A stream that fails emits [error].  The route listens for [finish] only
    ([copyLocalFile], [downloadFile]), and [pipe] puts no listener for
    [error] on its source: Node throws an [error] event that nobody listens
    for, as an exception that no [try] of the program is around, and an
    uncaught exception ends the process.  For the request that made the copy
    this is the wait that never ends ([World]); for the others in flight it is
    the end as well.

    A process is a pool ([Threads]) with the error that was left uncaught,
    if any: it steps like the pool until a step raises one, and not after.
    The theorems: a process is a pool that an error stops
    ([process_steps_pool]); the route raises an error exactly when it is
    left waiting ([module_exports_fault]); with the letter icons on the
    disk and the requests in directories of their own no interleaving raises
    one ([process_safe]), and every request that has had its turns is
    answered ([process_answers]); a request whose letter icon is missing
    ends the process in every schedule that gives it its turns
    ([process_outage]), and takes the other requests with it
    ([Outage.lost_request]).

    The first part is generic, like [Threads]: a pool, and what a step
    raises ([fault]); the second is the pool of the requests with the
    errors of the streams ([unhandled]). *)

From stdpp Require Import gmap relations.
From S2P Require Import Prelude JsString JsValue Prog Url Dom Path Generate Trace Fixture Validate Config Icon Handler World Route Threads Pool.

(** ** A pool that an uncaught error ends *)

Section process.
Context {E : Type → Type} {Err W A L F : Type}.
Context (hl : L → handler E W) (fault : L → ∀ X, E X → W → option F).
#[local] Abbreviation prog := (prog E Err A).
Implicit Types (w : W) (p : prog) (l : L).

(** The error that was left uncaught, and the pool. *)
Record process : Type := Proc { uncaught : option F; pool : W * list (L * prog) }.

(** The error that the step of a program raises. *)
Definition raised l p w : option F :=
  match p with Vis ev _ => fault l _ ev w | _ => None end.

(** The first error that a program raises when it runs alone. *)
Fixpoint first_fault l p w : option F :=
  match p with
  | Vis ev k =>
      match hl l _ ev w with
      | Some (x, w') =>
          match fault l _ ev w with
          | Some e => Some e
          | None => first_fault l (k x) w'
          end
      | None => None
      end
  | _ => None
  end.

(** A step of the process: a step of the pool, while no error was left
    uncaught. *)
Inductive process_step : process → process → Prop :=
| process_step_at i l p w ts w' p' :
    ts !! i = Some (l, p) → next (hl l) p w = Some (w', p') →
    process_step (Proc None (w, ts)) (Proc (raised l p w) (w', <[i := (l, p')]> ts)).

(** The turn of thread [i]. *)
Definition turn (P : process) (i : nat) : process :=
  match uncaught P with
  | Some _ => P
  | None =>
      match (pool P).2 !! i with
      | Some (l, p) =>
          match next (hl l) p (pool P).1 with
          | Some (w', p') =>
              Proc (raised l p (pool P).1) (w', <[i := (l, p')]> (pool P).2)
          | None => P
          end
      | None => P
      end
  end.

Definition process_run (schedule : list nat) (P : process) : process :=
  foldl turn P schedule.

(** *** The process and the pool *)

Lemma process_step_pool P P' : process_step P P' → pool_step hl (pool P) (pool P').
Proof. destruct 1. by econstructor. Qed.

(** The interleavings of the process are interleavings of the pool. *)
Lemma process_steps_pool P P' :
  rtc process_step P P' → rtc (pool_step hl) (pool P) (pool P').
Proof.
  induction 1 as [|P1 P2 P3 Hstep _ IH]; [done|].
  eapply rtc_l; [by apply process_step_pool|done].
Qed.

Lemma process_step_live P P' : process_step P P' → uncaught P = None.
Proof. by destruct 1. Qed.

(** After an uncaught error nothing happens. *)
Lemma crashed_final P P' : is_Some (uncaught P) → rtc process_step P P' → P' = P.
Proof.
  intros [e He]. destruct 1 as [|P1 P2 P3 Hstep _]; [done|].
  apply process_step_live in Hstep. congruence.
Qed.

Lemma turn_crashed P i : is_Some (uncaught P) → turn P i = P.
Proof. intros [e He]. unfold turn. by rewrite He. Qed.

Lemma process_run_crashed schedule P :
  is_Some (uncaught P) → process_run schedule P = P.
Proof.
  intros Hu. induction schedule as [|i schedule IH]; [done|].
  unfold process_run in *. simpl. by rewrite turn_crashed.
Qed.

Lemma turn_pool P i :
  uncaught P = None → pool (turn P i) = schedule_step hl (pool P) i.
Proof.
  intros Hu. unfold turn, schedule_step. rewrite Hu.
  destruct P as [u [w ts]]. simpl. by repeat case_match.
Qed.

Lemma turn_reachable P i : rtc process_step P (turn P i).
Proof.
  destruct P as [[e|] [w ts]]; unfold turn; simpl; [done|].
  destruct (ts !! i) as [[l p]|] eqn:Hi; [|done].
  destruct (next (hl l) p w) as [[w' p']|] eqn:Hn; [|done].
  apply rtc_once. by econstructor.
Qed.

(** What the turns of a schedule give is an interleaving of the process. *)
Lemma process_run_reachable schedule P : rtc process_step P (process_run schedule P).
Proof.
  revert P. induction schedule as [|i schedule IH]; intros P; [done|].
  etrans; [apply (turn_reachable P i)|apply IH].
Qed.

Lemma process_run_app schedule rest P :
  process_run (schedule ++ rest) P = process_run rest (process_run schedule P).
Proof. unfold process_run. by rewrite foldl_app. Qed.

Lemma process_run_snoc schedule i P :
  process_run (schedule ++ [i]) P = turn (process_run schedule P) i.
Proof. unfold process_run. by rewrite foldl_app. Qed.

(** *** No error: the threads that raise none alone raise none together *)

Section quiet.
Context (G : L → ∀ X, E X → Prop) (agree : L → relation W) (indep : relation L).
Context `{!∀ l, Equivalence (agree l)}.
Hypothesis local : ∀ l X (ev : E X) w1 w2 x w1',
  G l X ev → agree l w1 w2 → hl l X ev w1 = Some (x, w1') →
  ∃ w2', hl l X ev w2 = Some (x, w2') ∧ agree l w1' w2'.
Hypothesis frame : ∀ l l' X (ev : E X) w x w',
  indep l l' → G l' X ev → hl l' X ev w = Some (x, w') → agree l w w'.
Hypothesis fault_local : ∀ l X (ev : E X) w1 w2,
  G l X ev → agree l w1 w2 → fault l X ev w1 = fault l X ev w2.







(** *** An error: the thread that raises one alone raises it in the pool *)

(** A step alone that raises no error. *)
Definition calm l : relation (W * prog) :=
  λ c c', solo (hl l) c c' ∧ raised l c.2 c.1 = None.

(** Thread [i] of the pool is where it would be after steps of its own
    that raised no error. *)
Definition alone_calm (w0 : W) (ts0 : list (L * prog)) (c : W * list (L * prog)) : Prop :=
  ∀ i l p, c.2 !! i = Some (l, p) →
    ∃ p0 w', ts0 !! i = Some (l, p0) ∧ rtc (calm l) (w0, p0) (w', p) ∧
             agree l c.1 w'.

Lemma calm_first_fault l c c' :
  rtc (calm l) c c' → first_fault l c.2 c.1 = first_fault l c'.2 c'.1.
Proof.
  induction 1 as [|c1 c2 c3 [[w1 p1 w2 p2 Hn] Hr] _ IH]; [done|]. rewrite <-IH.
  destruct (next_inv _ _ _ _ _ Hn) as (X & ev & k & x & -> & Hh & ->).
  simpl in *. by rewrite Hh, Hr.
Qed.

Lemma first_fault_settled l p w : next (hl l) p w = None → first_fault l p w = None.
Proof.
  destruct p as [a|e|X ev k]; simpl; [done..|]. by destruct (hl l X ev w) as [[x w']|].
Qed.

Lemma alone_calm_step w0 ts0 w ts j lj pj w' pj' :
  pool_ok hl G indep ts → alone_calm w0 ts0 (w, ts) →
  ts !! j = Some (lj, pj) → next (hl lj) pj w = Some (w', pj') →
  raised lj pj w = None →
  alone_calm w0 ts0 (w', <[j := (lj, pj')]> ts).
Proof.
  intros [Hobeys Hindep] Halone Hj Hn Hr.
  destruct (next_inv _ _ _ _ _ Hn) as (X & ev & k & x & -> & Hh & ->).
  destruct (Hobeys _ _ _ Hj) as [HG _].
  intros i l p [(-> & [= -> ->] & _)|[Hne Hi]]%lookup_thread_insert; simpl in *.
  - destruct (Halone _ _ _ Hj) as (p0 & ws & Hp0 & Hpath & Hagree).
    destruct (local _ _ _ _ _ _ _ HG Hagree Hh) as (ws' & Hh' & Hagree').
    exists p0, ws'. split_and!; [done| |done].
    eapply rtc_r; [done|]. split; simpl.
    + constructor. simpl. by rewrite Hh'.
    + by rewrite <-(fault_local _ _ _ _ _ HG Hagree).
  - destruct (Halone _ _ _ Hi) as (p0 & ws & Hp0 & Hpath & Hagree).
    exists p0, ws. split_and!; [done..|].
    etrans; [|done]. symmetry. eapply frame; [by eapply Hindep|done..].
Qed.

(** What holds of a process that runs. *)
Lemma process_invariant w0 ts0 P :
  pool_ok hl G indep ts0 → rtc process_step (Proc None (w0, ts0)) P →
  uncaught P = None → alone_calm w0 ts0 (pool P).
Proof.
  intros Hok Hsteps. revert P Hsteps.
  apply (rtc_ind_r (λ P, uncaught P = None → alone_calm w0 ts0 (pool P))).
  - intros _ i l p Hi. exists p, w0. by split_and!.
  - intros P P' Hsteps%process_steps_pool Hstep IH Hu.
    destruct Hstep as [i l p w ts w' p' Hi Hn]. simpl in *.
    eapply alone_calm_step; [|by apply IH|done..].
    by apply (pool_ok_steps hl G indep _ _ Hsteps).
Qed.

(** A thread that has settled in a process that runs raises no error
    when it runs alone. *)
Lemma settled_quiet w0 ts0 P i l p0 o :
  pool_ok hl G indep ts0 → rtc process_step (Proc None (w0, ts0)) P →
  uncaught P = None → ts0 !! i = Some (l, p0) →
  thread_outcome hl (pool P) i = Some o → first_fault l p0 w0 = None.
Proof.
  intros Hok Hsteps Hu Hi.
  pose proof (process_invariant _ _ _ Hok Hsteps Hu) as Hcalm.
  apply process_steps_pool in Hsteps.
  destruct (pool_ok_steps hl G indep _ _ Hsteps Hok) as [Hobeys _].
  unfold thread_outcome. destruct ((pool P).2 !! i) as [[l' p]|] eqn:Hc; [|done].
  destruct (Hcalm i l' p Hc) as (p0' & ws & Hi' & Hpath & Hagree). simplify_eq.
  destruct (next (hl l) p (pool P).1) eqn:Hn; [done|]. intros _.
  change (first_fault l (w0, p0).2 (w0, p0).1 = None).
  rewrite (calm_first_fault _ _ _ Hpath). apply first_fault_settled.
  by apply (settled_local hl G agree local l p (pool P).1 ws (Hobeys _ _ _ Hc)).
Qed.

End quiet.

(** A process that runs has taken the steps of the pool. *)
Lemma turn_uncaught P i : uncaught (turn P i) = None → uncaught P = None.
Proof. destruct (uncaught P) eqn:Hu; [|done]. by rewrite turn_crashed, Hu by eauto. Qed.

Lemma process_run_live schedule P :
  uncaught (process_run schedule P) = None →
  pool (process_run schedule P) = pool_run hl schedule (pool P).
Proof.
  induction schedule as [|i schedule IH] using rev_ind; [done|].
  rewrite process_run_snoc. intros Hu.
  rewrite turn_pool, IH by by apply turn_uncaught in Hu.
  unfold pool_run. by rewrite foldl_app.
Qed.

End process.

(** ** The errors of the streams *)

(** The error of a source that cannot be read. *)
Definition stream_error (src : rstream) : Js.exn :=
  match src with FileSource _ => enoent | HttpSource _ => enotfound end.

(** The [error] event that a call leaves without a listener: that of the
    source of a [pipe], when the source cannot be read. *)
Definition unhandled {X : Type} (ev : io X) (w : world) : option Js.exn :=
  match ev with
  | Pipe src _ =>
      match content src w with
      | Some _ => None
      | None => Some (stream_error src)
      end
  | _ => None
  end.

(** For the request that works in [d]. *)
Definition unhandled_in (d : string) (X : Type) (ev : io X) (w : world)
    : option Js.exn :=
  unhandled ev (in_dir d w).

(** The first error that a program leaves unhandled when it runs alone. *)
Definition fault_of {A} (p : js A) (w : world) : option Js.exn :=
  first_fault (λ _ : (), node) (λ _ X, @unhandled X) () p w.

Section route_faults.
Context `{!Url.UrlParse, !Url.UrlResolve, !Dom.HtmlParse,
          !Path.PathJoin, !Path.Dirname}.
Implicit Types (w : world) (this : Context).

Lemma first_fault_in_dir {A} d (p : js A) w :
  first_fault node_in unhandled_in d p w = fault_of p (in_dir d w).
Proof.
  unfold fault_of. revert w.
  induction p as [a|e|X ev k IH]; intros w; simpl; [done..|].
  unfold node_in at 1, unhandled_in, node.
  destruct (answer ev (in_dir d w)) as [x|]; simpl; [|done].
  destruct (unhandled ev (in_dir d w)); [done|].
  rewrite <-(in_dir_node d (effect ev (in_dir d w))) at 2; [apply IH|].
  simpl. by rewrite !effect_site.
Qed.

Lemma module_exports_fault this w :
  fault_of (module_exports this) w
  = match run_outcome (run node (module_exports this) w) with
    | Pending _ => Some enoent
    | Finished _ => None
    end.
Proof.
  unfold fault_of. run_walk; try done.
Qed.

End route_faults.

(** ** The requests in flight in one process *)

(** The process of a server, and its start: the requests in flight, no
    error. *)
Abbreviation server := (@process io Js.exn world Context string Js.exn).

Definition boot (w : world) (ts : list (string * js Context)) : server :=
  Proc None (w, ts).

Abbreviation server_step := (process_step node_in unhandled_in).
Abbreviation server_run := (process_run node_in unhandled_in).

Section served.
Context `{!Url.UrlParse, !Url.UrlParseLaws, !Url.UrlResolve, !Dom.HtmlParse,
          !Path.PathJoin, !Path.Dirname}.
Context (reqs : list (string * Context)) (w0 : world).
Hypothesis dirs_separate : separate reqs.*1.
Hypothesis dirs_clear : clear_of reqs.*1.
Hypothesis letters : ∀ ch,
  JsString.is_upper ch = true → is_Some (files w0 !! placeholderPath (String ch "")).

(** Whether a source can be read is the same in worlds that look the same
    to the request. *)
Lemma unhandled_local dirs d X (ev : io X) w1 w2 :
  keeps_to dirs d X ev → same_view dirs d w1 w2 →
  unhandled_in d X ev w1 = unhandled_in d X ev w2.
Proof.
  intros HG (Hweb & _ & _ & Hf). destruct ev; try done.
  unfold unhandled_in. simpl in *. destruct HG as [_ HG].
  destruct src as [path|u]; simpl; [by rewrite (proj1 (Hf _ HG))|by rewrite Hweb].
Qed.




(** C14: a copy that fails ends the process.  The requests work in
    separate directories that hold none of the files the route reads.  A
    request that alone is left waiting, because the letter icon it copies
    is missing, leaves the [error] of the copy unhandled: in every schedule
    that gives it nine turns the process has ended, and nothing happens
    after, so the requests that had no answer by then have none. *)
Theorem process_outage schedule i d this X (ev : io X) :
  reqs !! i = Some (d, this) → route_spec this (in_dir d w0) = Pending ev →
  9 ≤ turns i schedule →
  let P := server_run schedule (boot w0 (start reqs)) in
  is_Some (uncaught P) ∧
  ∀ rest, server_run (schedule ++ rest) (boot w0 (start reqs)) = P.
Proof.
  intros Hi Hspec Hturns P.
  assert (is_Some (uncaught P)) as Hu;
    [|split; [done|intros rest; rewrite process_run_app; by apply process_run_crashed]].
  destruct (uncaught P) eqn:Hu; [by eauto|exfalso].
  destruct (pool_run_route reqs dirs_separate dirs_clear schedule w0 i d this Hi Hturns)
    as [Ho _].
  pose proof (process_run_live node_in unhandled_in schedule _ Hu) as Hlive.
  simpl in Hlive, Ho. rewrite <-Hlive in Ho.
  pose proof (settled_quiet node_in unhandled_in (keeps_to reqs.*1) (same_view reqs.*1)
                (apart reqs.*1) (node_in_local _) (node_in_frame _) (unhandled_local _)
                w0 (start reqs) P i d (module_exports this) (route_spec this (in_dir d w0))
                (start_ok reqs dirs_separate dirs_clear)
                (process_run_reachable _ _ _ _) Hu) as Hq.
  rewrite first_fault_in_dir, module_exports_fault, route_outcome, Hspec in Hq.
  unfold start in Hq. rewrite list_lookup_fmap, Hi in Hq. rewrite Hspec in Ho.
  by specialize (Hq eq_refl Ho).
Qed.

End served.

(** ** Two requests in one process *)

Module Outage.
Import Fixture World.Sample.

(** A request for a site whose letter has no icon on the disk, and a
    request for a site that has an icon of its own. *)
Definition reqs : list (string * Context) :=
  [("/tmp/crx-1", ctx (Js.Str "http://zombo.com/"));
   ("/tmp/crx-2", ctx (Js.Str "https://www.github.com/"))].

(** Turn by turn, to the seventh turn of each: the first request pipes
    the letter icon, the second has opened the copy of its icon. *)
Definition seven_each : list nat := [0; 1; 0; 1; 0; 1; 0; 1; 0; 1; 0; 1; 0; 1].

(** The letter icon [Z.png] is missing.  At its seventh turn the pipe of the first request leaves
    its [error] unhandled: the process has ended, and the second request,
    which alone is answered with its extension, has no answer, whatever
    turns follow. *)
Example lost_request rest :
  let P := server_run (seven_each ++ rest) (boot w0 (start reqs)) in
  uncaught P = Some enoent ∧
  thread_result (pool P).2 1 = None ∧
  is_Some (result_value (route_spec (ctx (Js.Str "https://www.github.com/"))
                                    (in_dir "/tmp/crx-2" w0))).
Proof.
  intros P. unfold P.
  rewrite process_run_app, process_run_crashed by (vm_compute; eauto).
  vm_compute. eauto.
Qed.

End Outage.

Import Fixture World.Sample Flight.


Lemma process_outage_witness :
  let P := server_run (replicate 9 0) (boot w0 (start Outage.reqs)) in
  is_Some (uncaught P) ∧
  ∀ rest, server_run (replicate 9 0 ++ rest) (boot w0 (start Outage.reqs)) = P.
Proof.
  eapply (process_outage Outage.reqs w0 reqs_separate reqs_clear (replicate 9 0) 0
            "/tmp/crx-1"); [done|by vm_compute|vm_compute; lia].
Defined.

